(** * belaUI: the session controller of the BELABOX encoder appliance

    A shallow embedding of [belaUI.js].  The daemon is a single-threaded
    event loop over a handful of global variables; every handler is
    modelled as a computation in a state monad over [world], the record of
    those globals, and everything a handler does to the outside (frames
    sent on a WebSocket, files written, signals sent to child processes,
    timers armed) is appended to the [log] of the world, in program order.

    Conventions:
    - a JS object used as a dictionary is a [gmap] from its keys; the
      interface table, whose iteration order is observable, is an
      association list in insertion order;
    - JSON numbers are integers ([Z]); a field that may be [undefined] is an
      [option] or the value [JUndef];
    - a string of the model stands for the JS string with the same code
      units, so [String.length] is the JS [length];
    - a request is a parsed frame whose fields have the types the handlers
      read them at;
    - an asynchronous call ([exec], [dns.lookup], [bcrypt.compare]) returns
      at once; its callback is a handler of its own, which the event loop
      runs later, with the outcome of the call as an argument.

    Wi-Fi management, software updates, the sensors and the SSH status
    report are left out of [world]: they send [status], [wifi] and
    [sensors] frames of their own and neither read nor write [config].
    Two parts of them that keep state of their own are modelled apart,
    each over a record of its variables: the list of Wi-Fi devices that
    [updateNetif] maintains, and the progress counters of a software
    update. *)

From stdpp Require Import gmap strings list pretty.

Local Open Scope Z_scope.

(** ** Values *)

Inductive jsval :=
| JUndef
| JNull
| JBool (b : bool)
| JNum (z : Z)
| JStr (s : string).

#[global] Instance jsval_eq_dec : EqDecision jsval.
Proof. solve_decision. Defined.

(** ToBoolean of the values above. *)
Definition truthy (v : jsval) : bool :=
  match v with
  | JUndef | JNull => false
  | JBool b => b
  | JNum z => negb (z =? 0)
  | JStr s => negb (String.eqb s "")
  end.

(** [o.k] on an object without inherited property [k]. *)
Definition js_get (o : gmap string jsval) (k : string) : jsval :=
  default JUndef (o !! k).

(** The property names every plain object ([{}]) inherits from
    [Object.prototype]; each of them reads as a function or an object,
    hence as a truthy value, on any plain object. *)
Definition object_prototype_keys : list string :=
  [ "constructor"; "__proto__"; "hasOwnProperty"; "isPrototypeOf";
    "propertyIsEnumerable"; "toLocaleString"; "toString"; "valueOf";
    "__defineGetter__"; "__defineSetter__"; "__lookupGetter__";
    "__lookupSetter__" ].

(** [JSON.stringify] of an object of scalars, as the document that
    [JSON.parse] reads back: a key whose value is [undefined] is left out. *)
Definition JSON_stringify (o : gmap string jsval) : gmap string jsval :=
  filter (λ kv, kv.2 ≠ JUndef) o.

Definition nl : string := String (Ascii.ascii_of_nat 10) EmptyString.

(** ** Data model *)

(** An entry of [netif]: [{ip, txb, tp, enabled}]. *)
Record netif_entry := {
  ip : string;
  txb : Z;
  tp : Z;
  enabled : bool
}.

#[global] Instance netif_entry_eq_dec : EqDecision netif_entry.
Proof. solve_decision. Defined.

(** Objects whose key order is observable ([netif], iterated with
    [for ... in], and the [Map] of persistent notifications) are association
    lists in insertion order.  [aput] is [o[k] = v] / [Map.set]: an existing
    key keeps its place. *)
Fixpoint aget {A} (k : string) (l : list (string * A)) : option A :=
  match l with
  | [] => None
  | (k', v) :: l => if String.eqb k k' then Some v else aget k l
  end.

Fixpoint aput {A} (k : string) (v : A) (l : list (string * A)) : list (string * A) :=
  match l with
  | [] => [(k, v)]
  | (k', v') :: l =>
      if String.eqb k k' then (k', v) :: l else (k', v') :: aput k v l
  end.

Fixpoint adel {A} (k : string) (l : list (string * A)) : list (string * A) :=
  match l with
  | [] => []
  | (k', v') :: l => if String.eqb k k' then l else (k', v') :: adel k l
  end.

(** The [notification] object built by [notificationSend]. *)
Record notification := {
  n_name : string;
  n_type : string;
  n_msg : string;
  n_is_dismissable : bool;
  n_is_persistent : bool;
  n_duration : Z
}.

#[global] Instance notification_eq_dec : EqDecision notification.
Proof. solve_decision. Defined.

(** A value of the [persistentNotifications] map: the notification's own
    fields, copied by [Object.assign], and the two timestamps. *)
Record pnotif := {
  pn_body : notification;
  updated : Z;
  last_sent : option Z
}.

(** A connection object: a client of [wss.clients] or the tunnel socket. *)
Record conn := {
  isAuthed : bool;
  authToken : option string;
  lastActive : Z;
  senderId : jsval
}.

(** A connection on which nothing has been set yet. *)
Definition new_conn : conn :=
  {| isAuthed := false; authToken := None; lastActive := 0; senderId := JUndef |}.

(** The [data] of an outgoing frame; the constructor fixes the message
    type that [buildMsg] puts it under. *)
Inductive payload :=
| PStatusStreaming (is_streaming : bool)
| PStatusFull (is_streaming updating : bool)
| PStatusSetPassword
| PStatusRemote
| PStatusRemoteError (error : string)
| PConfig (c : gmap string jsval)
| PPipelines
| PNetif (t : list (string * netif_entry))
| PSensors
| PRevisions
| PNotificationShow (ns : list notification)
| PNotificationRemove (names : list string)
| PBitrate (max_br : Z)
| PAuth (success : bool) (auth_token : option string).

(** What a file holds: text, or a JSON document. *)
Inductive fcontent :=
| FText (s : string)
| FJson (doc : gmap string jsval).

(** The observable actions of the daemon.
    [EBroadcastLocal d activeMin except] is the loop of [broadcastMsgLocal]:
    the one frame built from [d] goes to every client [c] of [wss.clients]
    with [c !== except], [c.lastActive >= activeMin] and [c.isAuthed]. *)
Inductive event :=
| ESend (c : nat) (data : payload) (id : jsval)
| EBroadcastLocal (data : payload) (activeMin : Z) (except : option nat)
| EWriteFile (path : string) (content : fcontent)
| ESignal (sig prog : string)
| ESpawnLoop (prog : string) (args : list string) (cooldown : Z)
| ETerminate (c : nat)
| ESetTimeout (fn : string) (ms : Z)
| EClearTimeout (fn : string)
| EConnect (c : nat) (bindIp : string).

(** The globals of the daemon.  [conns] is the heap of connection objects,
    addressed by identity; [remoteWs] points into it.  [reads] counts the
    calls of [getms] made so far. *)
Record world := {
  config : gmap string jsval;
  sshPasswordHash : jsval;
  tempTokens : gset string;
  persistentTokens : gset string;
  netif : list (string * netif_entry);
  persistentNotifications : list (string * pnotif);
  isStreaming : bool;
  softUpdateStatus : bool;
  conns : gmap nat conn;
  remoteWs : option nat;
  remoteStatusHandled : bool;
  remoteConnectTimer : bool;
  prevRemoteBindAddr : Z;
  reads : nat;
  fs : gmap string fcontent;
  log : list event
}.

Definition w_config (f : gmap string jsval → gmap string jsval) (w : world) : world :=
  {| config := f (config w); sshPasswordHash := sshPasswordHash w;
     tempTokens := tempTokens w; persistentTokens := persistentTokens w;
     netif := netif w; persistentNotifications := persistentNotifications w;
     isStreaming := isStreaming w; softUpdateStatus := softUpdateStatus w;
     conns := conns w; remoteWs := remoteWs w;
     remoteStatusHandled := remoteStatusHandled w;
     remoteConnectTimer := remoteConnectTimer w;
     prevRemoteBindAddr := prevRemoteBindAddr w; reads := reads w;
     fs := fs w; log := log w |}.

Definition w_sshPasswordHash (v : jsval) (w : world) : world :=
  {| config := config w; sshPasswordHash := v;
     tempTokens := tempTokens w; persistentTokens := persistentTokens w;
     netif := netif w; persistentNotifications := persistentNotifications w;
     isStreaming := isStreaming w; softUpdateStatus := softUpdateStatus w;
     conns := conns w; remoteWs := remoteWs w;
     remoteStatusHandled := remoteStatusHandled w;
     remoteConnectTimer := remoteConnectTimer w;
     prevRemoteBindAddr := prevRemoteBindAddr w; reads := reads w;
     fs := fs w; log := log w |}.

Definition w_tokens (ft fp : gset string → gset string) (w : world) : world :=
  {| config := config w; sshPasswordHash := sshPasswordHash w;
     tempTokens := ft (tempTokens w); persistentTokens := fp (persistentTokens w);
     netif := netif w; persistentNotifications := persistentNotifications w;
     isStreaming := isStreaming w; softUpdateStatus := softUpdateStatus w;
     conns := conns w; remoteWs := remoteWs w;
     remoteStatusHandled := remoteStatusHandled w;
     remoteConnectTimer := remoteConnectTimer w;
     prevRemoteBindAddr := prevRemoteBindAddr w; reads := reads w;
     fs := fs w; log := log w |}.

Definition w_netif (t : list (string * netif_entry)) (w : world) : world :=
  {| config := config w; sshPasswordHash := sshPasswordHash w;
     tempTokens := tempTokens w; persistentTokens := persistentTokens w;
     netif := t; persistentNotifications := persistentNotifications w;
     isStreaming := isStreaming w; softUpdateStatus := softUpdateStatus w;
     conns := conns w; remoteWs := remoteWs w;
     remoteStatusHandled := remoteStatusHandled w;
     remoteConnectTimer := remoteConnectTimer w;
     prevRemoteBindAddr := prevRemoteBindAddr w; reads := reads w;
     fs := fs w; log := log w |}.

Definition w_persistentNotifications
    (f : list (string * pnotif) → list (string * pnotif)) (w : world) : world :=
  {| config := config w; sshPasswordHash := sshPasswordHash w;
     tempTokens := tempTokens w; persistentTokens := persistentTokens w;
     netif := netif w; persistentNotifications := f (persistentNotifications w);
     isStreaming := isStreaming w; softUpdateStatus := softUpdateStatus w;
     conns := conns w; remoteWs := remoteWs w;
     remoteStatusHandled := remoteStatusHandled w;
     remoteConnectTimer := remoteConnectTimer w;
     prevRemoteBindAddr := prevRemoteBindAddr w; reads := reads w;
     fs := fs w; log := log w |}.

Definition w_isStreaming (b : bool) (w : world) : world :=
  {| config := config w; sshPasswordHash := sshPasswordHash w;
     tempTokens := tempTokens w; persistentTokens := persistentTokens w;
     netif := netif w; persistentNotifications := persistentNotifications w;
     isStreaming := b; softUpdateStatus := softUpdateStatus w;
     conns := conns w; remoteWs := remoteWs w;
     remoteStatusHandled := remoteStatusHandled w;
     remoteConnectTimer := remoteConnectTimer w;
     prevRemoteBindAddr := prevRemoteBindAddr w; reads := reads w;
     fs := fs w; log := log w |}.

Definition w_conns (f : gmap nat conn → gmap nat conn) (w : world) : world :=
  {| config := config w; sshPasswordHash := sshPasswordHash w;
     tempTokens := tempTokens w; persistentTokens := persistentTokens w;
     netif := netif w; persistentNotifications := persistentNotifications w;
     isStreaming := isStreaming w; softUpdateStatus := softUpdateStatus w;
     conns := f (conns w); remoteWs := remoteWs w;
     remoteStatusHandled := remoteStatusHandled w;
     remoteConnectTimer := remoteConnectTimer w;
     prevRemoteBindAddr := prevRemoteBindAddr w; reads := reads w;
     fs := fs w; log := log w |}.

Definition w_remote (ws : option nat) (handled timer : bool) (prev : Z)
    (w : world) : world :=
  {| config := config w; sshPasswordHash := sshPasswordHash w;
     tempTokens := tempTokens w; persistentTokens := persistentTokens w;
     netif := netif w; persistentNotifications := persistentNotifications w;
     isStreaming := isStreaming w; softUpdateStatus := softUpdateStatus w;
     conns := conns w; remoteWs := ws;
     remoteStatusHandled := handled;
     remoteConnectTimer := timer;
     prevRemoteBindAddr := prev; reads := reads w;
     fs := fs w; log := log w |}.

Definition w_reads (n : nat) (w : world) : world :=
  {| config := config w; sshPasswordHash := sshPasswordHash w;
     tempTokens := tempTokens w; persistentTokens := persistentTokens w;
     netif := netif w; persistentNotifications := persistentNotifications w;
     isStreaming := isStreaming w; softUpdateStatus := softUpdateStatus w;
     conns := conns w; remoteWs := remoteWs w;
     remoteStatusHandled := remoteStatusHandled w;
     remoteConnectTimer := remoteConnectTimer w;
     prevRemoteBindAddr := prevRemoteBindAddr w; reads := n;
     fs := fs w; log := log w |}.

Definition w_fs (f : gmap string fcontent → gmap string fcontent) (w : world) : world :=
  {| config := config w; sshPasswordHash := sshPasswordHash w;
     tempTokens := tempTokens w; persistentTokens := persistentTokens w;
     netif := netif w; persistentNotifications := persistentNotifications w;
     isStreaming := isStreaming w; softUpdateStatus := softUpdateStatus w;
     conns := conns w; remoteWs := remoteWs w;
     remoteStatusHandled := remoteStatusHandled w;
     remoteConnectTimer := remoteConnectTimer w;
     prevRemoteBindAddr := prevRemoteBindAddr w; reads := reads w;
     fs := f (fs w); log := log w |}.

Definition w_log (f : list event → list event) (w : world) : world :=
  {| config := config w; sshPasswordHash := sshPasswordHash w;
     tempTokens := tempTokens w; persistentTokens := persistentTokens w;
     netif := netif w; persistentNotifications := persistentNotifications w;
     isStreaming := isStreaming w; softUpdateStatus := softUpdateStatus w;
     conns := conns w; remoteWs := remoteWs w;
     remoteStatusHandled := remoteStatusHandled w;
     remoteConnectTimer := remoteConnectTimer w;
     prevRemoteBindAddr := prevRemoteBindAddr w; reads := reads w;
     fs := fs w; log := f (log w) |}.

(** ** The handler monad *)

Definition M (A : Type) : Type := world → A * world.

#[global] Instance M_ret : MRet M := λ A x w, (x, w).
#[global] Instance M_bind : MBind M :=
  λ A B f m w, let '(a, w') := m w in f a w'.

Definition gets {A} (f : world → A) : M A := λ w, (f w, w).
Definition modify (f : world → world) : M unit := λ w, ((), f w).
Definition emit (e : event) : M unit := modify (w_log (λ l, l ++ [e])).
Definition when (b : bool) (m : M unit) : M unit := if b then m else mret ().

(** The world a handler leaves behind, and what it logged. *)
Definition exec {A} (m : M A) (w : world) : world := (m w).2.
Definition eval {A} (m : M A) (w : world) : A := (m w).1.

(** ** Constants and environment *)

Definition CONFIG_FILE : string := "config.json".
Definition AUTH_TOKENS_FILE : string := "auth_tokens.json".
Definition BCRYPT_ROUNDS : Z := 10.
Definition ACTIVE_TO : Z := 15000.
Definition remoteTimeout : Z := 5000.
Definition remoteConnectTimeout : Z := 10000.

(** The fields of [setup.json] that the modelled handlers read. *)
Record Setup := {
  belacoderExec : string;
  srtlaSendExec : string;
  bitrate_file : string;
  ips_file : string;
  ssh_user : option string
}.

(** Field updates of a connection object. *)
Definition c_isAuthed (b : bool) (k : conn) : conn :=
  {| isAuthed := b; authToken := authToken k;
     lastActive := lastActive k; senderId := senderId k |}.
Definition c_authToken (t : option string) (k : conn) : conn :=
  {| isAuthed := isAuthed k; authToken := t;
     lastActive := lastActive k; senderId := senderId k |}.
Definition c_lastActive (t : Z) (k : conn) : conn :=
  {| isAuthed := isAuthed k; authToken := authToken k;
     lastActive := t; senderId := senderId k |}.
Definition c_senderId (v : jsval) (k : conn) : conn :=
  {| isAuthed := isAuthed k; authToken := authToken k;
     lastActive := lastActive k; senderId := v |}.

(** Reading and writing the object behind a connection reference. *)
Definition conn_get (c : nat) (w : world) : conn := default new_conn (conns w !! c).
Definition conn_set (c : nat) (f : conn → conn) : M unit :=
  modify (w_conns (λ m, <[c := f (default new_conn (m !! c))]> m)).

Section Daemon.

(** [setup.json], read once at startup. *)
Variable setup : Setup.

(** The result of [getPipelines()]: pipeline id to path. *)
Variable pipelines : gmap string string.

(** [bcrypt.hashSync(password, rounds)]. *)
Variable hashSync : string → Z → string.

(** The monotonic clock: [hrtime n] is what the [n]-th call of [getms]
    returns. *)
Variable hrtime : nat → Z.

Definition getms : M Z :=
  λ w, (hrtime (reads w), w_reads (S (reads w)) w).

Definition writeFileSync (path : string) (content : fcontent) : M unit :=
  modify (w_fs (<[path := content]>)) ;;
  emit (EWriteFile path content).

(** [spawnSync("killall", ['-SIG', prog])]. *)
Definition killall (sig prog : string) : M unit := emit (ESignal sig prog).

(** *** WS helpers *)

Definition remoteAuthed (w : world) : option nat :=
  match remoteWs w with
  | Some r => if isAuthed (conn_get r w) then Some r else None
  | None => None
  end.

Definition broadcastMsgLocal (data : payload) (activeMin : Z) (except : option nat)
    : M unit :=
  emit (EBroadcastLocal data activeMin except).

Definition broadcastMsg (data : payload) (activeMin : Z) : M unit :=
  broadcastMsgLocal data activeMin None ;;
  r ← gets remoteAuthed;
  match r with
  | Some r => emit (ESend r data JUndef)
  | None => mret ()
  end.

Definition broadcastMsgExcept (c : nat) (data : payload) : M unit :=
  broadcastMsgLocal data 0 (Some c) ;;
  r ← gets remoteAuthed;
  match r with
  | Some r =>
      id ← gets (λ w, senderId (conn_get c w));
      emit (ESend r data id)
  | None => mret ()
  end.

(** *** Persistent store *)

Definition saveConfig : M unit :=
  h ← gets sshPasswordHash;
  modify (w_config (<["ssh_pass_hash" := h]>)) ;;
  c ← gets (λ w, JSON_stringify (config w));
  modify (w_config (delete "ssh_pass_hash")) ;;
  writeFileSync CONFIG_FILE (FJson c).

(** *** Notification system *)

(** Returns [Some false] when the send is refused, [None] when it is held
    back by the rate limit ([return;]) and [Some true] when it went out. *)
Definition notificationSend (c : option nat) (name type msg : string)
    (duration : Z) (isPersistent isDismissable : bool) : M (option bool) :=
  if isPersistent && (match c with Some _ => true | None => false end)
  then mret (Some false)
  else
    let notification :=
      {| n_name := name; n_type := type; n_msg := msg;
         n_is_dismissable := isDismissable; n_is_persistent := isPersistent;
         n_duration := duration |} in
    doSend ←
      (if isPersistent then
         pn ← gets (λ w, aget name (persistentNotifications w));
         doSend ←
           match pn ≫= last_sent with
           | Some ls =>
               if ls =? 0 then mret true
               else now ← getms; mret (negb (ls + 1000 >? now))
           | None => mret true
           end;
         u ← getms;
         ls ← (if doSend : bool then s ← getms; mret (Some s)
               else mret (pn ≫= last_sent));
         modify (w_persistentNotifications
                   (aput name {| pn_body := notification; updated := u;
                                 last_sent := ls |})) ;;
         mret doSend
       else mret true);
    if negb doSend then mret None
    else
      let notificationMsg := PNotificationShow [notification] in
      match c with
      | Some c =>
          id ← gets (λ w, senderId (conn_get c w));
          emit (ESend c notificationMsg id)
      | None => broadcastMsg notificationMsg 0
      end ;;
      mret (Some true).

(** *** Streaming supervisor *)

Definition startError (c : nat) (msg : string) (id : jsval) : M bool :=
  originalId ← gets (λ w, senderId (conn_get c w));
  when (bool_decide (id ≠ JUndef)) (conn_set c (c_senderId id)) ;;
  notificationSend (Some c) "start_error" "error" msg 10 false true ;;
  when (bool_decide (id ≠ JUndef)) (conn_set c (c_senderId originalId)) ;;
  emit (ESend c (PStatusStreaming false) JUndef) ;;
  mret false.

(** [params.max_br] is [None] when it is [undefined] or [null].  The text
    written is [minBr*1000 + "\n" + config.max_br*1000 + "\n"], where
    [config.max_br] was assigned [params.max_br] two lines above and
    [saveConfig] leaves that key alone. *)
Definition setBitrate (max_br : option Z) : M (option Z) :=
  let minBr := 300 in
  match max_br with
  | None => mret None
  | Some b =>
      if (b <? minBr) || (b >? 12000) then mret None
      else
        modify (w_config (<["max_br" := JNum b]>)) ;;
        saveConfig ;;
        writeFileSync (bitrate_file setup)
          (FText (pretty (minBr * 1000) +:+ nl +:+ pretty (b * 1000) +:+ nl)) ;;
        killall "HUP" "belacoder" ;;
        mret (Some b)
  end.


(** The body of [start]'s request. *)
Record start_params := {
  delay : option Z;
  pipeline : option string;
  max_br : option Z;
  srt_latency : option Z;
  srt_streamid : option string;
  srtla_addr : option string;
  srtla_port : option Z
}.

(** [pipelines[id].path] when [id] is one of the discovered pipelines; for
    any other [id], inherited names included, [searchPipelines] returns
    [null] or [undefined], which [pipeline == null] treats alike. *)
Definition searchPipelines (id : string) : option string := pipelines !! id.

Definition sendStatus (c : nat) : M unit :=
  s ← gets isStreaming;
  u ← gets softUpdateStatus;
  emit (ESend c (PStatusFull s u) JUndef).

Definition updateStatus (status : bool) : M unit :=
  modify (w_isStreaming status) ;;
  broadcastMsg (PStatusStreaming status) 0.

Definition genSrtlaIpList : M Z :=
  t ← gets netif;
  let list_count :=
    foldl (λ (acc : string * Z) (i : string * netif_entry),
             if enabled i.2 then (acc.1 +:+ ip i.2 +:+ nl, acc.2 + 1) else acc)
          ("", 0) t in
  writeFileSync (ips_file setup) (FText list_count.1) ;;
  mret list_count.2.

Definition updateSrtlaIps : M unit :=
  genSrtlaIpList ;;
  killall "HUP" "srtla_send".

Definition spawnStreamingLoop (command : string) (args : list string) (cooldown : Z)
    : M unit :=
  s ← gets isStreaming;
  when s (emit (ESpawnLoop command args cooldown)).

(** A lookup that [updateConfig] has handed to [dns.lookup], with what its
    callback closes over: the connection, the fields of the request, all
    present and in range by then, the path of the pipeline, and
    [conn.senderId] as saved before the lookup. *)
Record lookup := {
  l_conn : nat;
  l_delay : Z;
  l_pipeline : string;
  l_max_br : Z;
  l_srt_latency : Z;
  l_srt_streamid : string;
  l_srtla_addr : string;
  l_srtla_port : Z;
  l_path : string;
  l_senderId : jsval
}.

(** The checks of [updateConfig], up to the call of [dns.lookup], after
    which the function returns; the result is the lookup left pending, if
    any. *)
Definition updateConfig (c : nat) (params : start_params) : M (option lookup) :=
  match delay params with
  | None => startError c "audio delay not specified" JUndef ;; mret None
  | Some d =>
  if (d <? -2000) || (d >? 2000)
  then startError c ("invalid delay " +:+ pretty d) JUndef ;; mret None
  else
  match pipeline params with
  | None => startError c "pipeline not specified" JUndef ;; mret None
  | Some id =>
  match searchPipelines id with
  | None => startError c "pipeline not found" JUndef ;; mret None
  | Some pipeline =>
  bitrate ← setBitrate (max_br params);
  match bitrate with
  | None => startError c "invalid bitrate range: " JUndef ;; mret None
  | Some br =>
  match srt_latency params with
  | None => startError c "SRT latency not specified" JUndef ;; mret None
  | Some lat =>
  if (lat <? 100) || (lat >? 10000)
  then startError c ("invalid SRT latency " +:+ pretty lat +:+ " ms") JUndef ;; mret None
  else
  match srt_streamid params with
  | None => startError c "SRT streamid not specified" JUndef ;; mret None
  | Some streamid =>
  match srtla_addr params with
  | None => startError c "SRTLA address not specified" JUndef ;; mret None
  | Some addr =>
  match srtla_port params with
  | None => startError c "SRTLA port not specified" JUndef ;; mret None
  | Some port =>
  if (port <=? 0) || (port >? 65535)
  then startError c ("invalid SRTLA port " +:+ pretty port) JUndef ;; mret None
  else
    senderId ← gets (λ w, senderId (conn_get c w));
    mret (Some {| l_conn := c; l_delay := d; l_pipeline := id; l_max_br := br;
                  l_srt_latency := lat; l_srt_streamid := streamid;
                  l_srtla_addr := addr; l_srtla_port := port;
                  l_path := pipeline; l_senderId := senderId |})
  end end end end end end end end.

(** The callback of [dns.lookup] in [updateConfig]: [resolved] is
    [err == null], [callback] the function that [updateConfig] was given. *)
Definition updateConfig_callback (l : lookup) (resolved : bool)
    (callback : string → M unit) : M unit :=
  if resolved then
    modify (w_config (<["delay" := JNum (l_delay l)]>)) ;;
    modify (w_config (<["pipeline" := JStr (l_pipeline l)]>)) ;;
    modify (w_config (<["max_br" := JNum (l_max_br l)]>)) ;;
    modify (w_config (<["srt_latency" := JNum (l_srt_latency l)]>)) ;;
    modify (w_config (<["srt_streamid" := JStr (l_srt_streamid l)]>)) ;;
    modify (w_config (<["srtla_addr" := JStr (l_srtla_addr l)]>)) ;;
    modify (w_config (<["srtla_port" := JNum (l_srtla_port l)]>)) ;;
    saveConfig ;;
    cfg ← gets config;
    broadcastMsgExcept (l_conn l) (PConfig cfg) ;;
    callback (l_path l)
  else
    startError (l_conn l) ("failed to resolve SRTLA addr " +:+ l_srtla_addr l)
      (l_senderId l) ;;
    mret ().

(** [start] returns when [updateConfig] does. *)
Definition start (c : nat) (params : start_params) : M (option lookup) :=
  s ← gets isStreaming;
  u ← gets softUpdateStatus;
  if s || u then sendStatus c ;; mret None
  else updateConfig c params.

(** The function that [start] gives to [updateConfig]; [senderId] is
    [conn.senderId] as [start] saved it.  The child processes are started
    with the values just stored in [config]. *)
Definition start_callback (c : nat) (senderId : jsval) (pipeline : string) : M unit :=
  n ← genSrtlaIpList;
  if n <? 1 then
    startError c "Failed to start, no available network connections" senderId ;;
    mret ()
  else
    modify (w_isStreaming true) ;;
    cfg ← gets config;
    let show v := match v with
                  | JNum z => pretty z | JStr s => s | _ => "" end in
    spawnStreamingLoop (srtlaSendExec setup)
      [ "9000"; show (js_get cfg "srtla_addr"); show (js_get cfg "srtla_port");
        ips_file setup ] 100 ;;
    let belacoderArgs :=
      [ pipeline; "127.0.0.1"; "9000"; "-d"; show (js_get cfg "delay");
        "-b"; bitrate_file setup; "-l"; show (js_get cfg "srt_latency") ] ++
      (if bool_decide (js_get cfg "srt_streamid" ≠ JStr "")
       then [ "-s"; show (js_get cfg "srt_streamid") ] else []) in
    spawnStreamingLoop (belacoderExec setup) belacoderArgs 2000 ;;
    updateStatus true.

Definition stop : M unit :=
  updateStatus false ;;
  killall "TERM" "srtla_send" ;;
  killall "TERM" "belacoder".

(** *** Network interface list *)

(** One block of [ifconfig]'s output as the regular expressions of
    [updateNetif] read it: the text before the first colon, the address
    after [inet] if there is one, and the byte count after [TX packets]
    ([None] when that line is missing: [txBytes[0]] then throws and the
    block is skipped by the [catch]).  Interface names are the operating
    system's; they are taken not to be names that [netif] inherits from
    [Object.prototype]. *)
Record ifblock := {
  blk_name : string;
  blk_inet : option string;
  blk_tx : option Z
}.

(** One turn of the loop over the blocks: [acc] is [newints] and
    [foundNewInt], [old] is [netif], which the loop only reads. *)
Definition scanBlock (old : list (string * netif_entry))
    (acc : list (string * netif_entry) * bool) (int : ifblock)
    : list (string * netif_entry) * bool :=
  let name := blk_name int in
  if String.eqb name "lo" || String.prefix "docker" name || String.prefix "l4tbr" name
  then acc
  else
    match blk_inet int with
    | None => acc
    | Some inetAddr =>
        match blk_tx int with
        | None => acc
        | Some txBytes =>
            let tp := match aget name old with
                      | Some o => txBytes - txb o
                      | None => 0
                      end in
            let enabled := match aget name old with
                           | Some o => if negb (enabled o) then false else true
                           | None => true
                           end in
            let newints :=
              aput name {| ip := inetAddr; txb := txBytes; tp := tp;
                           enabled := enabled |} acc.1 in
            let foundNewInt :=
              match aget name old with
              | Some o => if String.eqb (ip o) inetAddr then acc.2 else true
              | None => true
              end in
            (newints, foundNewInt)
        end
    end.

(** The callback of [exec("ifconfig", ...)]; [stdout] is [None] when the
    command failed.  The bookkeeping of Wi-Fi devices that the same loop
    feeds does not touch [netif] and is left out. *)
Definition updateNetif (stdout : option (list ifblock)) : M unit :=
  match stdout with
  | None => mret ()
  | Some interfaces =>
      old ← gets netif;
      let scan := foldl (scanBlock old) ([], false) interfaces in
      let newints := scan.1 in
      let foundNewInt := scan.2 in
      modify (w_netif newints) ;;
      now ← getms;
      broadcastMsg (PNetif newints) (now - ACTIVE_TO) ;;
      s ← gets isStreaming;
      when (foundNewInt && s) updateSrtlaIps
  end.

Definition countActiveNetif : M Z :=
  t ← gets netif;
  mret (foldl (λ (count : Z) (int : string * netif_entry),
                 if enabled int.2 then count + 1 else count) 0 t).

(** The [netif] request of a client; [m_enabled] is [None] when
    [msg.enabled] is neither [true] nor [false].  [msg.ip] is a string, so
    a name that [netif] only inherits (its value has no [ip]) returns at
    the address test, like a name that is absent. *)
Record netif_msg := {
  m_name : string;
  m_ip : string;
  m_enabled : option bool
}.

Definition handleNetif (c : nat) (msg : netif_msg) : M unit :=
  t ← gets netif;
  match aget (m_name msg) t with
  | None => mret ()
  | Some int =>
      if negb (String.eqb (ip int) (m_ip msg)) then mret ()
      else
        match m_enabled msg with
        | Some en =>
            n ← countActiveNetif;
            if negb en && enabled int && (n =? 1) then
              notificationSend (Some c) "netif_disable_all" "error"
                "Can't disable all networks" 10 false true ;;
              mret ()
            else
              modify (w_netif (aput (m_name msg)
                         {| ip := ip int; txb := txb int; tp := tp int;
                            enabled := en |} t)) ;;
              s ← gets isStreaming;
              when s updateSrtlaIps
        | None => mret ()
        end ;;
        t' ← gets netif;
        emit (ESend c (PNetif t') JUndef)
  end.

(** *** Notifications replayed to a new client *)

(** [_notificationIsLive]: [None] is [false].  For whole numbers,
    [Math.ceil(duration - ms / 1000)] is [duration] less the floor of
    [ms / 1000]. *)
Definition _notificationIsLive (n : pnotif) : M (option Z) :=
  if n_duration (pn_body n) =? 0 then mret (Some 0)
  else
    now ← getms;
    let remainingDuration := n_duration (pn_body n) - (now - updated n) / 1000 in
    if remainingDuration <=? 0 then
      modify (w_persistentNotifications (adel (n_name (pn_body n)))) ;;
      mret None
    else mret (Some remainingDuration).

(** The loop of [notificationSendPersistent] over the entries of the map. *)
Fixpoint liveNotifications (l : list (string * pnotif)) : M (list notification) :=
  match l with
  | [] => mret []
  | n :: l =>
      remainingDuration ← _notificationIsLive n.2;
      rest ← liveNotifications l;
      mret (match remainingDuration with
            | Some d =>
                {| n_name := n_name (pn_body n.2); n_type := n_type (pn_body n.2);
                   n_msg := n_msg (pn_body n.2);
                   n_is_dismissable := n_is_dismissable (pn_body n.2);
                   n_is_persistent := n_is_persistent (pn_body n.2);
                   n_duration := d |} :: rest
            | None => rest
            end)
  end.

Definition notificationSendPersistent (c : nat) : M unit :=
  pns ← gets persistentNotifications;
  notifications ← liveNotifications pns;
  emit (ESend c (PNotificationShow notifications) JUndef).

(** *** SSH control *)

(** How the two commands of [resetSshPassword] ended: [passwd] failed, the
    hash could not be read back, or the account now has [password] and the
    shadow file has [hash]. *)
Inductive ssh_reset :=
| PasswdFailed
| HashUnavailable
| PasswdSet (password hash : string).

(** [resetSshPassword] with the callbacks of its two commands, of which
    the first, when [passwd] succeeds, only issues the second. *)
Definition resetSshPassword (c : nat) (outcome : ssh_reset) : M unit :=
  match ssh_user setup with
  | None => mret ()
  | Some user =>
      match outcome with
      | PasswdFailed =>
          notificationSend (Some c) "ssh_pass_reset" "error"
            ("Failed to reset the SSH password for " +:+ user) 10 false true ;;
          mret ()
      | HashUnavailable => mret ()
      | PasswdSet password hash =>
          modify (w_config (<["ssh_pass" := JStr password]>)) ;;
          modify (w_sshPasswordHash (JStr hash)) ;;
          saveConfig ;;
          cfg ← gets config;
          broadcastMsg (PConfig cfg) 0
      end
  end.

(** *** Authentication *)

Definition setPassword (c : nat) (password : string) (isRemote : bool) : M unit :=
  authed ← gets (λ w, isAuthed (conn_get c w));
  hash ← gets (λ w, js_get (config w) "password_hash");
  if authed || (negb isRemote && negb (truthy hash)) then
    let minLen := 8 in
    if Z.of_nat (String.length password) <? minLen then
      notificationSend (Some c) "belaui_pass_length" "error"
        ("Minimum password length: " +:+ pretty minLen +:+ " characters")
        10 false true ;;
      mret ()
    else
      modify (w_config (<["password_hash" := JStr (hashSync password BCRYPT_ROUNDS)]>)) ;;
      modify (w_config (delete "password")) ;;
      saveConfig
  else mret ().

Definition savePersistentTokens : M unit :=
  t ← gets persistentTokens;
  writeFileSync AUTH_TOKENS_FILE (FJson (gset_to_gmap (JBool true) t)).

(** [token] is the value of [crypto.randomBytes(32).toString('base64')]. *)
Definition genAuthToken (isPersistent : bool) (token : string) : M string :=
  (if isPersistent then
     modify (w_tokens id ({[ token ]} ∪.)) ;;
     savePersistentTokens
   else modify (w_tokens ({[ token ]} ∪.) id)) ;;
  mret token.

Definition sendInitialStatus (c : nat) : M unit :=
  cfg ← gets config;
  emit (ESend c (PConfig cfg) JUndef) ;;
  emit (ESend c PPipelines JUndef) ;;
  sendStatus c ;;
  t ← gets netif;
  emit (ESend c (PNetif t) JUndef) ;;
  emit (ESend c PSensors JUndef) ;;
  emit (ESend c PRevisions JUndef) ;;
  notificationSendPersistent c.

Definition connAuth (c : nat) (sendToken : option string) : M unit :=
  conn_set c (c_isAuthed true) ;;
  emit (ESend c (PAuth true sendToken) JUndef) ;;
  sendInitialStatus c.

(** The [auth] request: [a_password] and [a_token] are [Some] when the
    field is a string. *)
Record auth_msg := {
  a_password : option string;
  a_persistent_token : bool;
  a_token : option string
}.

(** [tokens[t]] read as a condition, on a token object created as [{}]:
    true for a stored token (the stored value is [true]) and for a name
    the object inherits. *)
Definition has_token (tokens : gset string) (t : string) : bool :=
  bool_decide (t ∈ tokens) || bool_decide (t ∈ object_prototype_keys).

(** A comparison that [tryAuth] has handed to [bcrypt.compare]: the
    arguments, and what the callback closes over. *)
Record compare := {
  k_conn : nat;
  k_password : string;
  k_hash : jsval;
  k_persistent_token : bool
}.

(** [handleMessage] passes an [auth] request here only when it did not
    come through the remote tunnel.  With a password, the request returns
    once the comparison is issued; the result is the comparison left
    pending, if any. *)
Definition tryAuth (c : nat) (msg : auth_msg) : M (option compare) :=
  hash ← gets (λ w, js_get (config w) "password_hash");
  if negb (truthy hash) then
    emit (ESend c (PAuth false None) JUndef) ;;
    mret None
  else
    match a_password msg with
    | Some password =>
        mret (Some {| k_conn := c; k_password := password; k_hash := hash;
                      k_persistent_token := a_persistent_token msg |})
    | None =>
        match a_token msg with
        | Some t =>
            tt ← gets tempTokens;
            pt ← gets persistentTokens;
            if has_token tt t || has_token pt t then
              connAuth c None ;;
              conn_set c (c_authToken (Some t)) ;;
              mret None
            else
              emit (ESend c (PAuth false None) JUndef) ;;
              mret None
        | None => mret None
        end
    end.

(** The callback of [bcrypt.compare]: [matched] is
    [match == true && err == undefined], and [fresh] the token that
    [genAuthToken] draws. *)
Definition tryAuth_callback (k : compare) (matched : bool) (fresh : string) : M unit :=
  if matched then
    token ← genAuthToken (k_persistent_token k) fresh;
    conn_set (k_conn k) (c_authToken (Some token)) ;;
    connAuth (k_conn k) (Some token)
  else
    notificationSend (Some (k_conn k)) "auth" "error" "Invalid password" 0 false true ;;
    mret ().

(** *** Remote *)

(** [msg] is the value under the key ['auth/encoder'] of the [remote]
    object, [None] when the key is absent. *)
Definition handleRemote (c : nat) (msg : option jsval) : M unit :=
  match msg with
  | None => mret ()
  | Some v =>
      if bool_decide (v = JBool true) then
        conn_set c (c_isAuthed true) ;;
        sendInitialStatus c ;;
        now ← getms;
        broadcastMsgLocal PStatusRemote (now - ACTIVE_TO) None
      else
        now ← getms;
        broadcastMsgLocal (PStatusRemoteError "key") (now - ACTIVE_TO) None ;;
        modify (λ w, w_remote (remoteWs w) true (remoteConnectTimer w)
                       (prevRemoteBindAddr w) w) ;;
        emit (ETerminate c)
  end.

Definition getRemoteBindAddr : M (option string) :=
  t ← gets netif;
  let netList := t.*1 in
  if Z.of_nat (length netList) <? 1 then
    modify (λ w, w_remote (remoteWs w) (remoteStatusHandled w)
                   (remoteConnectTimer w) (-1) w) ;;
    mret None
  else
    prev ← gets prevRemoteBindAddr;
    let prev := if prev + 1 >=? Z.of_nat (length netList) then 0 else prev + 1 in
    modify (λ w, w_remote (remoteWs w) (remoteStatusHandled w)
                   (remoteConnectTimer w) prev w) ;;
    mret (ip <$> (netList !! Z.to_nat prev ≫= λ k, aget k t)).

(** The [close] handler of the tunnel socket [c]. *)
Definition remoteClose (c : nat) : M unit :=
  emit (ESetTimeout "remoteConnect" 1000) ;;
  modify (λ w, w_remote None (remoteStatusHandled w) true (prevRemoteBindAddr w) w) ;;
  handled ← gets remoteStatusHandled;
  if negb handled then
    now ← getms;
    broadcastMsgLocal (PStatusRemoteError "network") (now - ACTIVE_TO) None
  else mret ().

(** [sock] is the socket object that [new ws(...)] would create. *)
Definition remoteConnect (sock : nat) : M unit :=
  timer ← gets remoteConnectTimer;
  when timer
    (emit (EClearTimeout "remoteConnect") ;;
     modify (λ w, w_remote (remoteWs w) (remoteStatusHandled w) false
                    (prevRemoteBindAddr w) w)) ;;
  key ← gets (λ w, js_get (config w) "remote_key");
  if truthy key then
    bindIp ← getRemoteBindAddr;
    match bindIp with
    | Some bindIp =>
        if String.eqb bindIp "" then
          emit (ESetTimeout "remoteConnect" 1000) ;;
          modify (λ w, w_remote (remoteWs w) (remoteStatusHandled w) true
                         (prevRemoteBindAddr w) w)
        else
          modify (λ w, w_remote (Some sock) false (remoteConnectTimer w)
                         (prevRemoteBindAddr w) w) ;;
          emit (EConnect sock bindIp) ;;
          now ← getms;
          conn_set sock (λ _, c_lastActive (now + remoteConnectTimeout - remoteTimeout)
                                new_conn)
    | None =>
        emit (ESetTimeout "remoteConnect" 1000) ;;
        modify (λ w, w_remote (remoteWs w) (remoteStatusHandled w) true
                       (prevRemoteBindAddr w) w)
    end
  else mret ().

Definition remoteKeepalive : M unit :=
  r ← gets remoteWs;
  match r with
  | Some r =>
      last ← gets (λ w, lastActive (conn_get r w));
      now ← getms;
      when (last + remoteTimeout <? now) (emit (ETerminate r))
  | None => mret ()
  end.

Definition setRemoteKey (key : jsval) (sock : nat) : M unit :=
  modify (w_config (<["remote_key" := key]>)) ;;
  saveConfig ;;
  r ← gets remoteWs;
  match r with
  | Some r =>
      modify (λ w, w_remote (remoteWs w) true (remoteConnectTimer w)
                     (prevRemoteBindAddr w) w) ;;
      emit (ETerminate r)
  | None => mret ()
  end ;;
  remoteConnect sock ;;
  cfg ← gets config;
  broadcastMsg (PConfig cfg) 0.

(** *** The [config] request *)

Record config_msg := {
  cm_password : option string;
  cm_remote_key : option jsval
}.

Definition handleConfig (c : nat) (msg : config_msg) (isRemote : bool) (sock : nat)
    : M unit :=
  match cm_password msg with
  | Some password => setPassword c password isRemote
  | None => mret ()
  end ;;
  authed ← gets (λ w, isAuthed (conn_get c w));
  if negb authed then mret ()
  else
    match cm_remote_key msg with
    | Some key => setRemoteKey key sock
    | None => mret ()
    end.

(** *** Message dispatch *)

(** A top-level field of a frame.  [FOther] is a field that
    [handleMessage] has no case for, or one of [command] and [wifi], which
    act on parts of the system outside this model. *)
Inductive field :=
| FAuth (m : auth_msg)
| FConfig (m : config_msg)
| FKeepalive
| FStart (params : start_params)
| FStop
| FBitrate (max_br : option Z)
| FNetif (m : netif_msg)
| FLogout
| FOther.

(** A parsed frame: its fields, in the order of [for ... in]. *)
Definition message := list field.

(** [for (const type in msg) { body }]. *)
Fixpoint for_in (msg : message) (body : field → M unit) : M unit :=
  match msg with
  | [] => mret ()
  | f :: msg => body f ;; for_in msg body
  end.

Definition handleMessage (c : nat) (msg : message) (isRemote : bool) (sock : nat)
    : M unit :=
  when (negb isRemote)
    (for_in msg (λ f,
       match f with
       | FAuth m => tryAuth c m ;; mret ()
       | _ => mret ()
       end)) ;;
  for_in msg (λ f,
    match f with
    | FConfig m => handleConfig c m isRemote sock
    | _ => mret ()
    end) ;;
  authed ← gets (λ w, isAuthed (conn_get c w));
  if negb authed then mret ()
  else
    for_in msg (λ f,
      match f with
      | FStart params => start c params ;; mret ()
      | FStop => stop
      | FBitrate max_br =>
          s ← gets isStreaming;
          if s : bool then
            br ← setBitrate max_br;
            match br with
            | Some br => broadcastMsgExcept c (PBitrate br)
            | None => mret ()
            end
          else mret ()
      | FNetif m => handleNetif c m
      | FLogout =>
          token ← gets (λ w, authToken (conn_get c w));
          match token with
          | Some t =>
              if String.eqb t "" then mret ()
              else
                modify (w_tokens (.∖ {[ t ]}) id) ;;
                pt ← gets persistentTokens;
                if has_token pt t then
                  modify (w_tokens id (.∖ {[ t ]})) ;;
                  savePersistentTokens
                else mret ()
          | None => mret ()
          end ;;
          conn_set c (c_isAuthed false) ;;
          conn_set c (c_authToken None)
      | _ => mret ()
      end) ;;
    now ← getms;
    conn_set c (c_lastActive now).

(** The [message] handler of the tunnel socket [c].  [remote] is the
    [remote] field of the frame when it is an object, given by the value
    of its ['auth/encoder'] key; [msg] holds the fields left once [remote]
    is deleted, and [id] is the frame's [id]. *)
Definition remoteHandleMsg (c : nat) (remote : option (option jsval))
    (msg : message) (id : jsval) (sock : nat) : M unit :=
  match remote with
  | Some r => handleRemote c r
  | None => mret ()
  end ;;
  when (1 <=? Z.of_nat (length msg))
    (conn_set c (c_senderId id) ;;
     handleMessage c msg true sock ;;
     conn_set c (c_senderId JUndef)) ;;
  now ← getms;
  conn_set c (c_lastActive now).

(** The [connection] handler of [wss]; [c] is the new connection
    object. *)
Definition connection (c : nat) : M unit :=
  now ← getms;
  conn_set c (λ _, c_lastActive now new_conn) ;;
  hash ← gets (λ w, js_get (config w) "password_hash");
  when (negb (truthy hash)) (emit (ESend c PStatusSetPassword JUndef)).

(** *** The event loop *)

(** The calls that the script makes itself before the event loop takes
    over, as far as they touch the globals: [remoteConnect()] and
    [stop()]. *)
Definition main (sock : nat) : M unit :=
  remoteConnect sock ;;
  stop.

(** What the event loop runs: the script itself, and then a handler for
    each new client, frame from a client or from the relay, close of the
    tunnel socket, timer, and completion of [ifconfig], of an SSH password
    reset, of a password comparison or of a DNS lookup. *)
Inductive request :=
| Main (sock : nat)
| Connection (c : nat)
| Message (c : nat) (msg : message) (sock : nat)
| RemoteMessage (c : nat) (remote : option (option jsval))
    (msg : message) (id : jsval) (sock : nat)
| RemoteClosed (c : nat)
| RemoteConnectTimer (sock : nat)
| RemoteKeepaliveTimer
| NetifPolled (stdout : option (list ifblock))
| SshPasswordReset (c : nat) (outcome : ssh_reset)
| PasswordCompared (k : compare) (matched : bool) (fresh : string)
| AddressResolved (l : lookup) (resolved : bool).

Definition handle (r : request) : M unit :=
  match r with
  | Main sock => main sock
  | Connection c => connection c
  | Message c msg sock => handleMessage c msg false sock
  | RemoteMessage c remote msg id sock => remoteHandleMsg c remote msg id sock
  | RemoteClosed c => remoteClose c
  | RemoteConnectTimer sock => remoteConnect sock
  | RemoteKeepaliveTimer => remoteKeepalive
  | NetifPolled stdout => updateNetif stdout
  | SshPasswordReset c outcome => resetSshPassword c outcome
  | PasswordCompared k matched fresh => tryAuth_callback k matched fresh
  | AddressResolved l resolved =>
      updateConfig_callback l resolved (start_callback (l_conn l) (l_senderId l))
  end.

Definition run (rs : list request) (w : world) : world :=
  foldl (λ (w : world) (r : request), exec (handle r) w) w rs.

End Daemon.

(** ** Vocabulary of the specification *)

(** [preserves I m φ]: run in a world where [I] holds, the handler [m]
    leaves a world where [I] holds and returns a value satisfying [φ]. *)
Definition preserves (I : world → Prop) {A} (m : M A) (φ : A → Prop) : Prop :=
  ∀ w, I w → I (m w).2 ∧ φ (m w).1.

(** The keys that the handlers assign in [config]. *)
Definition config_keys : list string :=
  [ "max_br"; "delay"; "pipeline"; "srt_latency"; "srt_streamid";
    "srtla_addr"; "srtla_port"; "remote_key"; "ssh_pass"; "password_hash" ].

(** Events whose content is not constrained by any of the invariants
    below, given which [config] payloads are acceptable. *)
Definition good_event (good_cfg : gmap string jsval → Prop) (e : event) : Prop :=
  match e with
  | ESend _ (PConfig c) _ | EBroadcastLocal (PConfig c) _ _ => good_cfg c
  | EWriteFile _ _ => False
  | _ => True
  end.

(** A frame that does not show the key [k] of [config]. *)
Definition frame_lacks (k : string) (e : event) : Prop :=
  match e with
  | ESend _ (PConfig c) _ | EBroadcastLocal (PConfig c) _ _ => c !! k = None
  | _ => True
  end.

(** A write that does not put the key [k] into [config.json]. *)
Definition doc_lacks (k : string) (e : event) : Prop :=
  match e with
  | EWriteFile path (FJson doc) => path = CONFIG_FILE → doc !! k = None
  | _ => True
  end.

(** [k] is not a key of [config], and no frame after the first [n] events
    has shown it. *)
Definition hidden_from_frames (k : string) (n : nat) (w : world) : Prop :=
  config w !! k = None ∧ Forall (frame_lacks k) (drop n (log w)).

(** [k] is not a key of [config] nor of [config.json], and no write after
    the first [n] events has stored it. *)
Definition hidden_from_disk (k : string) (n : nat) (w : world) : Prop :=
  config w !! k = None ∧
  Forall (doc_lacks k) (drop n (log w)) ∧
  ∀ doc, fs w !! CONFIG_FILE = Some (FJson doc) → doc !! k = None.

(** What [config.json] holds under [ssh_pass_hash], given the hash in
    memory. *)
Definition stored_hash (h : jsval) : option jsval :=
  if decide (h = JUndef) then None else Some h.

Definition disk_hash_ok (w : world) : Prop :=
  ∀ doc, fs w !! CONFIG_FILE = Some (FJson doc) →
         doc !! "ssh_pass_hash" = stored_hash (sshPasswordHash w).

(** Requests that set [remoteStatusHandled]: a reply of the relay to the
    key other than [true], and a [config] request carrying a
    [remote_key]. *)
Definition rekey_message (msg : message) : Prop :=
  ∃ m, FConfig m ∈ msg ∧ cm_remote_key m ≠ None.

Definition sets_handled (r : request) : Prop :=
  match r with
  | Message _ msg _ => rekey_message msg
  | RemoteMessage _ remote msg _ _ =>
      (∃ v, remote = Some (Some v) ∧ v ≠ JBool true) ∨ rekey_message msg
  | _ => False
  end.

(** Requests that may clear [remoteStatusHandled], by calling
    [remoteConnect]: the script itself, the reconnect timer, and again a
    [config] request carrying a [remote_key]. *)
Definition reconnects (r : request) : Prop :=
  match r with
  | Main _ | RemoteConnectTimer _ => True
  | Message _ msg _ => rekey_message msg
  | RemoteMessage _ _ msg _ _ => rekey_message msg
  | _ => False
  end.

(** The frame [{remote: {'auth/encoder': false}}], received on the tunnel
    socket [c]. *)
Definition key_rejected (c sock : nat) : request :=
  RemoteMessage c (Some (Some (JBool false))) [] JUndef sock.

(** The events a handler appended, given the world before and after. *)
Definition new_events (w w' : world) : list event :=
  drop (length (log w)) (log w').

(** What [broadcastMsg] sends for the notification [n] in the world [w]:
    the frame for the local clients, and its copy for the tunnel when the
    tunnel is authenticated. *)
Definition notification_frames (n : notification) (w : world) : list event :=
  EBroadcastLocal (PNotificationShow [n]) 0 None ::
  match remoteAuthed w with
  | Some r => [ESend r (PNotificationShow [n]) JUndef]
  | None => []
  end.

(** The notification and the reply of [startError]. *)
Definition start_error (c : nat) (msg : string) (id : jsval) : list event :=
  [ ESend c (PNotificationShow
      [ {| n_name := "start_error"; n_type := "error"; n_msg := msg;
           n_is_dismissable := true; n_is_persistent := false;
           n_duration := 10 |} ]) id;
    ESend c (PStatusStreaming false) JUndef ].


(** *** Startup *)

(** The globals once the files are read, before [main]: [file] is the
    parsed [config.json], [tokens] the keys of the parsed
    [auth_tokens.json]; [None] when the file cannot be read or parsed. *)
Definition startup (file : option (gmap string jsval)) (tokens : option (gset string))
    : world :=
  {| config := match file with
               | Some doc => delete "ssh_pass_hash" doc
               | None => ∅
               end;
     sshPasswordHash := match file with
                        | Some doc => js_get doc "ssh_pass_hash"
                        | None => JUndef
                        end;
     tempTokens := ∅;
     persistentTokens := default ∅ tokens;
     netif := [];
     persistentNotifications := [];
     isStreaming := false;
     softUpdateStatus := false;
     conns := ∅;
     remoteWs := None;
     remoteStatusHandled := false;
     remoteConnectTimer := false;
     prevRemoteBindAddr := -1;
     reads := 0;
     fs := (match file with
            | Some doc => {[ CONFIG_FILE := FJson doc ]}
            | None => ∅
            end) ∪
           (match tokens with
            | Some t => {[ AUTH_TOKENS_FILE := FJson (gset_to_gmap (JBool true) t) ]}
            | None => ∅
            end);
     log := [] |}.

(** ** A concrete appliance

    One environment and a few worlds, on which the statements below are
    evaluated. *)

Definition ex_setup : Setup :=
  {| belacoderExec := "/usr/bin/belacoder";
     srtlaSendExec := "/usr/bin/srtla_send";
     bitrate_file := "/tmp/belacoder_br";
     ips_file := "/tmp/srtla_ips";
     ssh_user := Some "user" |}.

Definition ex_pipeline : string := "8f5b1c0e9a7d43f2b6c1d0e4a3f9b8c7d6e5f4a3".

Definition ex_pipelines : gmap string string :=
  {[ ex_pipeline := "/usr/share/belacoder/pipelines/generic/h264_camlink" ]}.

(** Stand-ins for bcrypt and for the clock (a reading every 400 ms). *)
Definition ex_hashSync (password : string) (rounds : Z) : string :=
  "$2b$" +:+ pretty rounds +:+ "$" +:+ password.
Definition ex_hrtime (n : nat) : Z := 5000 + 400 * Z.of_nat n.

(** A token as [genAuthToken] draws them. *)
Definition ex_token : string := "q83vdDXVpA0sIxyM1zT9yXw2mTqC5Hn0a7Jc4e1RkUo=".

Local Abbreviation ex_run := (run ex_setup ex_pipelines ex_hashSync ex_hrtime).

(** An idle appliance whose stored maximum bitrate is 4000 kbps. *)
Definition ex_idle : world :=
  startup (Some {[ "max_br" := JNum 4000 ]}) None.

(** A [start] request whose SRT latency, 50 ms, is out of range; every
    field checked before it is valid. *)
Definition ex_start : start_params :=
  {| delay := Some 0; pipeline := Some ex_pipeline; max_br := Some 6000;
     srt_latency := Some 50; srt_streamid := Some "";
     srtla_addr := Some "1.2.3.4"; srtla_port := Some 5000 |}.

(** An appliance left with one interface, which is disabled: the enabled
    wired interface it had next to it has been unplugged. *)
Definition ex_wifi_only : world :=
  w_netif [ ("wlan0", {| ip := "192.168.1.7"; txb := 0; tp := 0;
                         enabled := false |}) ]
    (startup None None).

(** How the appliance gets there: both interfaces are up, the operator
    sets a password, logs in and disables the wireless one, and the wired
    one disappears from the next poll. *)
Definition ex_unplugged : list request :=
  let eth0 := {| blk_name := "eth0"; blk_inet := Some "10.0.0.2"; blk_tx := Some 0 |} in
  let wlan0 :=
    {| blk_name := "wlan0"; blk_inet := Some "192.168.1.7"; blk_tx := Some 0 |} in
  [ Main 0;
    NetifPolled (Some [ eth0; wlan0 ]);
    Connection 1;
    Message 1 [ FConfig {| cm_password := Some "hunter2x"; cm_remote_key := None |} ] 0;
    Message 1 [ FAuth {| a_password := Some "hunter2x"; a_persistent_token := false;
                         a_token := None |} ] 0;
    PasswordCompared
      {| k_conn := 1; k_password := "hunter2x";
         k_hash := JStr (ex_hashSync "hunter2x" 10); k_persistent_token := false |}
      true ex_token;
    Message 1 [ FNetif {| m_name := "wlan0"; m_ip := "192.168.1.7";
                          m_enabled := Some false |} ] 0;
    NetifPolled (Some [ wlan0 ]) ].

(** An interface whose counter stood at 1000 bytes and is read as 400 at
    the next poll. *)
Definition ex_polled : world :=
  w_netif [ ("eth0", {| ip := "10.0.0.2"; txb := 1000; tp := 0;
                        enabled := true |}) ]
    (startup None None).
Definition ex_blocks : list ifblock :=
  [ {| blk_name := "eth0"; blk_inet := Some "10.0.0.2"; blk_tx := Some 400 |} ].

(** An appliance started without [config.json], hence without password,
    next to an [auth_tokens.json] that holds a token. *)
Definition ex_no_password : world := startup None (Some {[ ex_token ]}).

(** The same appliance with a password configured. *)
Definition ex_with_password : world :=
  startup (Some {[ "password_hash" := JStr (ex_hashSync "hunter2x" 10) ]})
    (Some {[ ex_token ]}).

(** An appliance with a remote key and one interface. *)
Definition ex_keyed : world :=
  w_netif [ ("eth0", {| ip := "10.0.0.2"; txb := 1000; tp := 0;
                        enabled := true |}) ]
    (startup (Some {[ "remote_key" := JStr "bad" ]}) None).

(** A first run: no file at all; the daemon starts and the operator sets a
    password. *)
Definition ex_first_run : list request :=
  [ Main 0;
    Message 1 [ FConfig {| cm_password := Some "hunter2x"; cm_remote_key := None |} ] 0 ].

(** ** The list of Wi-Fi devices *)

(** An entry of [wifiDeviceHwAddr]: [inetAddr] is [None] for [null], the
    block of [ifconfig] having no IPv4 address, and [removed] is [false]
    also for an entry that has no such property.  The keys are the names
    of interfaces, taken not to be names that the object inherits. *)
Record wifi_device := {
  hwAddr : string;
  inetAddr : option string;
  removed : bool
}.

(** The three variables of the list. *)
Record wifi_list := {
  wifiDeviceHwAddr : gmap string wifi_device;
  wiFiDeviceListIsModified : bool;
  wiFiDeviceListIsUpdating : bool
}.

(** In the three functions of an update, [None] is the exception
    thrown. *)
Definition wiFiDeviceListStartUpdate (s : wifi_list) : option wifi_list :=
  if wiFiDeviceListIsUpdating s then None
  else
    Some {| wifiDeviceHwAddr :=
              (λ d, {| hwAddr := hwAddr d; inetAddr := inetAddr d; removed := true |})
                <$> wifiDeviceHwAddr s;
            wiFiDeviceListIsUpdating := true;
            wiFiDeviceListIsModified := false |}.

Definition wiFiDeviceListAdd (ifname hw : string) (inet : option string)
    (s : wifi_list) : option wifi_list :=
  if negb (wiFiDeviceListIsUpdating s) then None
  else
    match wifiDeviceHwAddr s !! ifname with
    | Some d =>
        let '(d, modified) :=
          if negb (String.eqb (hwAddr d) hw)
          then ({| hwAddr := hw; inetAddr := inetAddr d; removed := removed d |}, true)
          else (d, wiFiDeviceListIsModified s) in
        let '(d, modified) :=
          if negb (bool_decide (inetAddr d = inet))
          then ({| hwAddr := hwAddr d; inetAddr := inet; removed := removed d |}, true)
          else (d, modified) in
        let d := {| hwAddr := hwAddr d; inetAddr := inetAddr d; removed := false |} in
        Some {| wifiDeviceHwAddr := <[ifname := d]> (wifiDeviceHwAddr s);
                wiFiDeviceListIsModified := modified;
                wiFiDeviceListIsUpdating := wiFiDeviceListIsUpdating s |}
    | None =>
        Some {| wifiDeviceHwAddr :=
                  <[ifname := {| hwAddr := hw; inetAddr := inet; removed := false |}]>
                    (wifiDeviceHwAddr s);
                wiFiDeviceListIsModified := true;
                wiFiDeviceListIsUpdating := wiFiDeviceListIsUpdating s |}
    end.

Definition wiFiDeviceListEndUpdate (s : wifi_list) : option (bool * wifi_list) :=
  if negb (wiFiDeviceListIsUpdating s) then None
  else
    let kept := filter (λ kd, removed kd.2 = false) (wifiDeviceHwAddr s) in
    let modified :=
      if bool_decide (map_Forall (λ _ d, removed d = false) (wifiDeviceHwAddr s))
      then wiFiDeviceListIsModified s else true in
    Some (modified,
          {| wifiDeviceHwAddr := kept;
             wiFiDeviceListIsModified := modified;
             wiFiDeviceListIsUpdating := false |}).

Definition wifiDeviceListGetAddr (ifname : string) (s : wifi_list) : option string :=
  hwAddr <$> wifiDeviceHwAddr s !! ifname.

(** One block of [ifconfig]'s output as [updateNetif] reads it for this
    list: the name, and the addresses after [ether] and [inet], if any. *)
Record wifi_block := {
  wb_name : string;
  wb_ether : option string;
  wb_inet : option string
}.

(** What the loop of [updateNetif] does to the list for one block: a
    [wlan] interface that has a hardware address is added, an exception
    being swallowed by the [catch] of the loop. *)
Definition updateNetif_wifi_block (s : wifi_list) (int : wifi_block) : wifi_list :=
  if String.prefix "wlan" (wb_name int) then
    match wb_ether int with
    | Some hw => default s (wiFiDeviceListAdd (wb_name int) hw (wb_inet int) s)
    | None => s
    end
  else s.

(** The calls by which [updateNetif] keeps the list: it starts an update,
    goes through the blocks, and ends the update.  The result is what
    [wiFiDeviceListEndUpdate] returns. *)
Definition updateNetif_wifi (interfaces : list wifi_block) (s : wifi_list)
    : option (bool * wifi_list) :=
  s ← wiFiDeviceListStartUpdate s;
  wiFiDeviceListEndUpdate (foldl updateNetif_wifi_block s interfaces).

(** The devices of a list, by name: the hardware address and the IPv4
    address. *)
Definition wifi_devices (s : wifi_list) : gmap string (string * option string) :=
  (λ d, (hwAddr d, inetAddr d)) <$> wifiDeviceHwAddr s.

(** A block that names a Wi-Fi device, and the devices of a report of
    [ifconfig], a later block of the same name replacing an earlier one. *)
Definition wifi_named (int : wifi_block) : bool :=
  String.prefix "wlan" (wb_name int) && bool_decide (is_Some (wb_ether int)).

Definition wifi_report_block (m : gmap string (string * option string))
    (int : wifi_block) : gmap string (string * option string) :=
  if String.prefix "wlan" (wb_name int) then
    match wb_ether int with
    | Some hw => <[wb_name int := (hw, wb_inet int)]> m
    | None => m
    end
  else m.

Definition wifi_report (interfaces : list wifi_block)
    : gmap string (string * option string) :=
  foldl wifi_report_block ∅ interfaces.

(** ** Progress of a software update *)

(** [softUpdateStatus] while an update runs. *)
Record soft_update := {
  downloading : Z;
  unpacking : Z;
  setting_up : Z;
  total : Z
}.

(** What the [data] handler of [apt-get]'s output reads in a chunk: the
    result of [parseUpgradePackageCount] ([None] for [undefined]), the
    number after the first [Get:] if there is one, and how many times
    [Unpacking ] and [Setting up ] occur. *)
Record apt_chunk := {
  ch_count : option Z;
  ch_get : option Z;
  ch_unpacking : nat;
  ch_setting_up : nat
}.

(** The [data] handler of [aptUpgrade.stdout]: the new status, and
    [sendUpdate], on which the status is broadcast. *)
Definition aptUpgrade_stdout (data : apt_chunk) (s : soft_update)
    : soft_update * bool :=
  let sendUpdate := false in
  let '(s, sendUpdate) :=
    if total s =? 0 then
      match ch_count data with
      | Some count =>
          ({| downloading := downloading s; unpacking := unpacking s;
              setting_up := setting_up s; total := count |}, true)
      | None => (s, sendUpdate)
      end
    else (s, sendUpdate) in
  let '(s, sendUpdate) :=
    if negb (downloading s =? total s) then
      match ch_get data with
      | Some i =>
          if i >? downloading s then
            ({| downloading := Z.min i (total s); unpacking := unpacking s;
                setting_up := setting_up s; total := total s |}, true)
          else (s, sendUpdate)
      | None => (s, sendUpdate)
      end
    else (s, sendUpdate) in
  let '(s, sendUpdate) :=
    match ch_unpacking data with
    | O => (s, sendUpdate)
    | S _ =>
        ({| downloading := total s;
            unpacking := Z.min (unpacking s + Z.of_nat (ch_unpacking data)) (total s);
            setting_up := setting_up s; total := total s |}, true)
    end in
  let '(s, sendUpdate) :=
    match ch_setting_up data with
    | O => (s, sendUpdate)
    | S _ =>
        ({| downloading := downloading s; unpacking := unpacking s;
            setting_up := Z.min (setting_up s + Z.of_nat (ch_setting_up data)) (total s);
            total := total s |}, true)
    end in
  (s, sendUpdate).

(** The counters of a status are between 0 and the total. *)
Definition in_progress (s : soft_update) : Prop :=
  0 ≤ downloading s ≤ total s ∧ 0 ≤ unpacking s ≤ total s ∧
  0 ≤ setting_up s ≤ total s.

(** ** Vocabulary of the further properties *)

(** The addresses of the enabled interfaces, in the order of [netif]. *)
Definition enabled_ips (t : list (string * netif_entry)) : list string :=
  ip <$> filter (λ e, enabled e = true) t.*2.

(** One line per item. *)
Definition unlines (l : list string) : string :=
  foldr (λ a s, a +:+ nl +:+ s) "" l.

(** How a value of [config] reads among the arguments of a command. *)
Definition show_arg (v : jsval) : string :=
  match v with
  | JNum z => pretty z
  | JStr s => s
  | _ => ""
  end.

(** The frames of [broadcastMsg]: the one for the local clients, and its
    copy for the tunnel when the tunnel is authenticated. *)
Definition broadcast_frames (d : payload) (activeMin : Z) (w : world) : list event :=
  EBroadcastLocal d activeMin None ::
  match remoteAuthed w with
  | Some r => [ESend r d JUndef]
  | None => []
  end.



(** [config.json], when it holds a document, holds [config] as it is in
    memory, with the SSH hash added. *)
Definition config_saved (w : world) : Prop :=
  ∀ doc, fs w !! CONFIG_FILE = Some (FJson doc) →
         doc = JSON_stringify (<["ssh_pass_hash" := sshPasswordHash w]> (config w)).

(** [auth_tokens.json], when it holds a document, holds the persistent
    tokens as they are in memory. *)
Definition tokens_saved (w : world) : Prop :=
  ∀ doc, fs w !! AUTH_TOKENS_FILE = Some (FJson doc) →
         doc = gset_to_gmap (JBool true) (persistentTokens w).

(** What holds of the globals whenever the event loop is idle. *)
Definition consistent (w : world) : Prop :=
  config_saved w ∧ tokens_saved w ∧ -1 ≤ prevRemoteBindAddr w.

(** The same with [config] changed and not saved yet. *)
Definition unsaved (w : world) : Prop :=
  tokens_saved w ∧ -1 ≤ prevRemoteBindAddr w.

(** A handler that starts by changing [config] keeps [consistent] if it
    saves before it does anything else. *)
Definition saves {A} (m : M A) (φ : A → Prop) : Prop :=
  ∀ w, unsaved w → consistent (m w).2 ∧ φ (m w).1.

(** A file as [JSON.parse] reads it back: the document the daemon wrote;
    a missing file, and the text of the bitrate and uplink files, make
    [JSON.parse] or [readFileSync] throw. *)
Definition read_json (f : option fcontent) : option (gmap string jsval) :=
  match f with
  | Some (FJson doc) => Some doc
  | _ => None
  end.

(** The globals of a daemon that is started again on the files that [w]
    leaves behind. *)
Definition reload (w : world) : world :=
  w_fs (λ _, fs w)
    (startup (read_json (fs w !! CONFIG_FILE))
             (dom <$> read_json (fs w !! AUTH_TOKENS_FILE))).

(** A document as [JSON.parse] yields them: no key holds [undefined]. *)
Definition parsed (doc : gmap string jsval) : Prop :=
  ∀ k, doc !! k ≠ Some JUndef.

(** A frame that holds an [auth] request with a token and no password. *)
Definition presents_token (msg : message) : Prop :=
  ∃ m t, FAuth m ∈ msg ∧ a_password m = None ∧ a_token m = Some t.

(** A block of [ifconfig]'s output that [updateNetif] enters into the
    table: not the loopback, a Docker or an [l4tbr] bridge, and with an
    IPv4 address and a [TX packets] line. *)
Definition listed (int : ifblock) : bool :=
  negb (String.eqb (blk_name int) "lo" || String.prefix "docker" (blk_name int)
        || String.prefix "l4tbr" (blk_name int))
  && bool_decide (is_Some (blk_inet int)) && bool_decide (is_Some (blk_tx int)).

(** A listed block whose interface is not in the table [old], or is there
    with another address. *)
Definition moved (old : list (string * netif_entry)) (int : ifblock) : Prop :=
  listed int = true ∧
  ∃ a, blk_inet int = Some a ∧ ∀ o, aget (blk_name int) old = Some o → ip o ≠ a.

(** The connection [c] is not authenticated. *)
Definition unauthenticated (c : nat) (w : world) : Prop :=
  isAuthed (conn_get c w) = false.

(** An [auth] request with a token, and no password, that [tryAuth]
    accepts in the world [w]. *)
Definition valid_token (w : world) (m : auth_msg) : Prop :=
  truthy (js_get (config w) "password_hash") = true ∧
  a_password m = None ∧
  ∃ t, a_token m = Some t ∧
       has_token (tempTokens w) t || has_token (persistentTokens w) t = true.

(** The string [t] is in neither token set. *)
Definition unissued (t : string) (w : world) : Prop :=
  (t ∉ tempTokens w) ∧ (t ∉ persistentTokens w).

(** * Properties *)

Set Default Proof Using "Type*".

Ltac mrun :=
  cbv beta iota zeta delta
    [mbind M_bind mret M_ret gets modify emit when writeFileSync killall
     exec eval];
  cbn [fst snd negb andb orb];
  cbv beta iota zeta delta
    [mbind M_bind mret M_ret gets modify emit when writeFileSync killall
     exec eval];
  cbn [fst snd negb andb orb].

(** Projections of updated worlds. *)
Ltac wsimpl :=
  cbn [config sshPasswordHash tempTokens persistentTokens netif
       persistentNotifications isStreaming softUpdateStatus conns remoteWs
       remoteStatusHandled remoteConnectTimer prevRemoteBindAddr reads fs log
       w_config w_sshPasswordHash w_tokens w_netif w_persistentNotifications
       w_isStreaming w_conns w_remote w_reads w_fs w_log fst snd].

Tactic Notation "wsimpl" "in" hyp(H) :=
  cbn [config sshPasswordHash tempTokens persistentTokens netif
       persistentNotifications isStreaming softUpdateStatus conns remoteWs
       remoteStatusHandled remoteConnectTimer prevRemoteBindAddr reads fs log
       w_config w_sshPasswordHash w_tokens w_netif w_persistentNotifications
       w_isStreaming w_conns w_remote w_reads w_fs w_log fst snd] in H.

(** ** Rules for [preserves] *)

Lemma preserves_ret (I : world → Prop) {A} (x : A) :
  preserves I (mret x) (λ _, True).
Proof. by intros w HI. Qed.

Lemma preserves_bind (I : world → Prop) {A B} (m : M A) (k : A → M B) φ ψ :
  preserves I m φ → (∀ a, φ a → preserves I (k a) ψ) → preserves I (m ≫= k) ψ.
Proof.
  intros Hm Hk w HI. destruct (Hm w HI) as [HI' Ha].
  unfold mbind, M_bind. destruct (m w) as [a w']. by apply Hk.
Qed.

Lemma preserves_gets (I : world → Prop) {A} (f : world → A) (φ : A → Prop) :
  (∀ w, I w → φ (f w)) → preserves I (gets f) φ.
Proof. intros Hf w HI. split; [done|by apply Hf]. Qed.

Lemma preserves_modify (I : world → Prop) (f : world → world) :
  (∀ w, I w → I (f w)) → preserves I (modify f) (λ _, True).
Proof. intros Hf w HI. split; [by apply Hf|done]. Qed.

Lemma preserves_when (I : world → Prop) (b : bool) (m : M unit) :
  preserves I m (λ _, True) → preserves I (when b m) (λ _, True).
Proof. destruct b; [done|]. intros _. apply preserves_ret. Qed.

Lemma preserves_weaken (I : world → Prop) {A} (m : M A) (φ : A → Prop) :
  preserves I m φ → preserves I m (λ _, True).
Proof. intros Hm w HI. by destruct (Hm w HI). Qed.

Lemma preserves_after (I : world → Prop) (f : world → world) (m : M unit)
    {B} (k : M B) (ψ : B → Prop) :
  (∀ w, I w → I (exec m (f w))) → preserves I k ψ →
  preserves I (modify f ≫= λ _, m ≫= λ _, k) ψ.
Proof.
  intros Hm Hk w HI. specialize (Hm w HI). unfold exec in Hm.
  unfold mbind, M_bind, modify. destruct (m (f w)) as [[] w']. by apply Hk.
Qed.

(** ** Invariants that every handler keeps

    The handlers are checked once against an invariant [I] of which only
    its stability under the elementary updates is known; [tolerant] and
    [resettable] say whether [I] survives [remoteStatusHandled] being set
    and being cleared. *)

Section Stable.
Variable setup : Setup.
Variable pipelines : gmap string string.
Variable hashSync : string → Z → string.
Variable hrtime : nat → Z.

Variable I : world → Prop.
Variable good_cfg : gmap string jsval → Prop.
Variable tolerant resettable : Prop.

Hypothesis I_config : ∀ w, I w → good_cfg (config w).
Hypothesis I_reads : ∀ n w, I w → I (w_reads n w).
Hypothesis I_netif : ∀ t w, I w → I (w_netif t w).
Hypothesis I_conns : ∀ f w, I w → I (w_conns f w).
Hypothesis I_tokens : ∀ f g w, I w → I (w_tokens f g w).
Hypothesis I_streaming : ∀ b w, I w → I (w_isStreaming b w).
Hypothesis I_notifications : ∀ f w, I w → I (w_persistentNotifications f w).
Hypothesis I_remote : ∀ ws h t p w,
  I w →
  h = remoteStatusHandled w ∨ (h = true ∧ tolerant) ∨ (h = false ∧ resettable) →
  I (w_remote ws h t p w).
Hypothesis I_emit : ∀ e w, I w → good_event good_cfg e → I (w_log (λ l, l ++ [e]) w).
Hypothesis I_write_text : ∀ path s, preserves I (writeFileSync path (FText s)) (λ _, True).
Hypothesis I_write_tokens : ∀ doc,
  preserves I (writeFileSync AUTH_TOKENS_FILE (FJson doc)) (λ _, True).
Hypothesis I_saveConfig : preserves I saveConfig (λ _, True).
Hypothesis I_config_set : ∀ k v w,
  k ∈ config_keys → I w → I (w_config (<[k := v]>) w).
Hypothesis I_config_delete : ∀ w, I w → I (w_config (delete "password") w).
Hypothesis I_ssh_hash : ∀ h w, I w → I (exec saveConfig (w_sshPasswordHash h w)).

Lemma pres_emit e : good_event good_cfg e → preserves I (emit e) (λ _, True).
Proof. intros He. apply preserves_modify. intros w HI. by apply I_emit. Qed.

Lemma pres_gets_config : preserves I (gets config) good_cfg.
Proof. by apply preserves_gets. Qed.

Lemma pres_gets {A} (f : world → A) : preserves I (gets f) (λ _, True).
Proof. by apply preserves_gets. Qed.

Create HintDb pres.

Ltac pres_post :=
  lazymatch goal with
  | |- @preserves _ ?A _ ?φ =>
      tryif is_evar φ then unify φ (λ _ : A, True) else idtac
  end.

Ltac pres_side :=
  lazymatch goal with
  | |- I _ =>
      first [ assumption
            | apply I_reads | apply I_netif | apply I_conns | apply I_tokens
            | apply I_streaming | apply I_notifications
            | apply I_config_delete
            | apply I_config_set; [by apply (bool_decide_unpack _); vm_compute|]
            | apply I_remote; [|by auto 6] ]; try assumption
  | |- good_event _ _ => cbn; done
  | |- _ => idtac
  end.

Ltac pres_step :=
  lazymatch goal with
  | |- preserves _ (mret _) _ => apply preserves_ret
  | |- preserves _ (_ ≫= _) _ => eapply preserves_bind; [|intros ? ?]
  | |- preserves _ (gets config) _ => apply pres_gets_config
  | |- preserves _ (gets _) _ => apply pres_gets
  | |- preserves _ (modify _) _ => apply preserves_modify; intros ? ?; pres_side
  | |- preserves _ (emit _) _ => apply pres_emit; pres_side
  | |- preserves _ (when _ _) _ => apply preserves_when
  | |- preserves _ (match ?x with _ => _ end) _ =>
      pres_post; first [progress cbv beta iota | destruct x eqn:?]
  | |- preserves _ _ _ => first [ by eauto with pres | eapply preserves_weaken; by eauto with pres ]
  end.

Ltac pres := repeat pres_step.

Lemma pres_getms : preserves I (getms hrtime) (λ _, True).
Proof. intros w HI. split; [|done]. by apply I_reads. Qed.
Hint Resolve pres_getms I_write_text I_write_tokens I_saveConfig : pres.

Lemma pres_conn_set c f : preserves I (conn_set c f) (λ _, True).
Proof. unfold conn_set. pres. Qed.
Hint Resolve pres_conn_set : pres.

Lemma pres_killall sig prog : preserves I (killall sig prog) (λ _, True).
Proof. unfold killall. pres. Qed.
Hint Resolve pres_killall : pres.

Lemma pres_broadcastMsgLocal d a ex :
  good_event good_cfg (EBroadcastLocal d a ex) →
  preserves I (broadcastMsgLocal d a ex) (λ _, True).
Proof. intros Hd. unfold broadcastMsgLocal. by apply pres_emit. Qed.

Lemma pres_broadcastMsg d a :
  good_event good_cfg (EBroadcastLocal d a None) →
  preserves I (broadcastMsg d a) (λ _, True).
Proof.
  intros Hd. unfold broadcastMsg.
  eapply preserves_bind; [by apply pres_broadcastMsgLocal|intros _ _].
  eapply preserves_bind; [apply pres_gets|intros [r|] _].
  - apply pres_emit. by destruct d.
  - apply preserves_ret.
Qed.

Lemma pres_broadcastMsgExcept c d :
  good_event good_cfg (EBroadcastLocal d 0 None) →
  preserves I (broadcastMsgExcept c d) (λ _, True).
Proof.
  intros Hd. unfold broadcastMsgExcept.
  eapply preserves_bind; [apply pres_broadcastMsgLocal; by destruct d|intros _ _].
  eapply preserves_bind; [apply pres_gets|intros [r|] _].
  - eapply preserves_bind; [apply pres_gets|intros id _].
    apply pres_emit. by destruct d.
  - apply preserves_ret.
Qed.

Lemma pres_broadcast_plain d a :
  (∀ c, d ≠ PConfig c) → preserves I (broadcastMsg d a) (λ _, True).
Proof. intros Hd. apply pres_broadcastMsg. destruct d; try done. by destruct (Hd c). Qed.

Lemma pres_notificationSend c name type msg duration isPersistent isDismissable :
  preserves I (notificationSend hrtime c name type msg duration isPersistent isDismissable)
    (λ _, True).
Proof.
  unfold notificationSend. pres. by apply pres_broadcast_plain.
Qed.
Hint Resolve pres_notificationSend : pres.

Lemma pres_startError c msg id : preserves I (startError hrtime c msg id) (λ _, True).
Proof. unfold startError. pres. Qed.
Hint Resolve pres_startError : pres.

Lemma pres_setBitrate max_br : preserves I (setBitrate setup max_br) (λ _, True).
Proof. unfold setBitrate. pres. Qed.
Hint Resolve pres_setBitrate : pres.

Lemma pres_sendStatus c : preserves I (sendStatus c) (λ _, True).
Proof. unfold sendStatus. pres. Qed.
Hint Resolve pres_sendStatus : pres.

Lemma pres_updateStatus b : preserves I (updateStatus b) (λ _, True).
Proof. unfold updateStatus. pres. by apply pres_broadcast_plain. Qed.
Hint Resolve pres_updateStatus : pres.

Lemma pres_genSrtlaIpList : preserves I (genSrtlaIpList setup) (λ _, True).
Proof. unfold genSrtlaIpList. pres. Qed.
Hint Resolve pres_genSrtlaIpList : pres.

Lemma pres_updateSrtlaIps : preserves I (updateSrtlaIps setup) (λ _, True).
Proof. unfold updateSrtlaIps. pres. Qed.
Hint Resolve pres_updateSrtlaIps : pres.

Lemma pres_spawnStreamingLoop command args cooldown :
  preserves I (spawnStreamingLoop command args cooldown) (λ _, True).
Proof. unfold spawnStreamingLoop. pres. Qed.
Hint Resolve pres_spawnStreamingLoop : pres.

Lemma pres_updateConfig c params :
  preserves I (updateConfig setup pipelines hrtime c params) (λ _, True).
Proof. unfold updateConfig. pres. Qed.
Hint Resolve pres_updateConfig : pres.

Lemma pres_updateConfig_callback l resolved callback :
  (∀ p, preserves I (callback p) (λ _, True)) →
  preserves I (updateConfig_callback hrtime l resolved callback) (λ _, True).
Proof.
  intros Hcb. unfold updateConfig_callback. pres. by apply pres_broadcastMsgExcept.
Qed.

Lemma pres_start c params :
  preserves I (start setup pipelines hrtime c params) (λ _, True).
Proof. unfold start. pres. Qed.
Hint Resolve pres_start : pres.

Lemma pres_start_callback c senderId pipeline :
  preserves I (start_callback setup hrtime c senderId pipeline) (λ _, True).
Proof. unfold start_callback. pres. Qed.

Lemma pres_stop : preserves I stop (λ _, True).
Proof. unfold stop. pres. Qed.
Hint Resolve pres_stop : pres.

Lemma pres_updateNetif stdout : preserves I (updateNetif setup hrtime stdout) (λ _, True).
Proof. unfold updateNetif. pres. by apply pres_broadcast_plain. Qed.
Hint Resolve pres_updateNetif : pres.

Lemma pres_countActiveNetif : preserves I countActiveNetif (λ _, True).
Proof. unfold countActiveNetif. pres. Qed.
Hint Resolve pres_countActiveNetif : pres.

Lemma pres_handleNetif c msg : preserves I (handleNetif setup hrtime c msg) (λ _, True).
Proof. unfold handleNetif. pres. Qed.
Hint Resolve pres_handleNetif : pres.

Lemma pres__notificationIsLive n : preserves I (_notificationIsLive hrtime n) (λ _, True).
Proof. unfold _notificationIsLive. pres. Qed.
Hint Resolve pres__notificationIsLive : pres.

Lemma pres_liveNotifications l : preserves I (liveNotifications hrtime l) (λ _, True).
Proof. induction l as [|n l IH]; cbn [liveNotifications]; pres. Qed.
Hint Resolve pres_liveNotifications : pres.

Lemma pres_notificationSendPersistent c :
  preserves I (notificationSendPersistent hrtime c) (λ _, True).
Proof. unfold notificationSendPersistent. pres. Qed.
Hint Resolve pres_notificationSendPersistent : pres.

Lemma pres_resetSshPassword c outcome :
  preserves I (resetSshPassword setup hrtime c outcome) (λ _, True).
Proof.
  unfold resetSshPassword.
  destruct (ssh_user setup) as [user|]; [|apply preserves_ret].
  destruct outcome as [| |password hash]; [pres..|].
  eapply preserves_bind; [pres|intros _ _].
  apply preserves_after; [apply I_ssh_hash|].
  pres. by apply pres_broadcastMsg.
Qed.
Hint Resolve pres_resetSshPassword : pres.

Lemma pres_setPassword c password isRemote :
  preserves I (setPassword hashSync hrtime c password isRemote) (λ _, True).
Proof. unfold setPassword. pres. Qed.
Hint Resolve pres_setPassword : pres.

Lemma pres_savePersistentTokens : preserves I savePersistentTokens (λ _, True).
Proof. unfold savePersistentTokens. pres. Qed.
Hint Resolve pres_savePersistentTokens : pres.

Lemma pres_genAuthToken isPersistent token :
  preserves I (genAuthToken isPersistent token) (λ _, True).
Proof. unfold genAuthToken. pres. Qed.
Hint Resolve pres_genAuthToken : pres.

Lemma pres_sendInitialStatus c : preserves I (sendInitialStatus hrtime c) (λ _, True).
Proof. unfold sendInitialStatus. pres. Qed.
Hint Resolve pres_sendInitialStatus : pres.

Lemma pres_connAuth c sendToken : preserves I (connAuth hrtime c sendToken) (λ _, True).
Proof. unfold connAuth. pres. Qed.
Hint Resolve pres_connAuth : pres.

Lemma pres_tryAuth c msg : preserves I (tryAuth hrtime c msg) (λ _, True).
Proof. unfold tryAuth. pres. Qed.
Hint Resolve pres_tryAuth : pres.

Lemma pres_tryAuth_callback k matched fresh :
  preserves I (tryAuth_callback hrtime k matched fresh) (λ _, True).
Proof. unfold tryAuth_callback. pres. Qed.

Lemma pres_handleRemote c msg :
  (∀ v, msg = Some v → v = JBool true ∨ tolerant) →
  preserves I (handleRemote hrtime c msg) (λ _, True).
Proof.
  intros Hmsg. unfold handleRemote.
  destruct msg as [v|]; [|apply preserves_ret].
  destruct (Hmsg v eq_refl) as [->|Ht].
  - rewrite bool_decide_eq_true_2 by done. pres. by apply pres_broadcastMsgLocal.
  - pres; by apply pres_broadcastMsgLocal.
Qed.

Lemma pres_getRemoteBindAddr : preserves I getRemoteBindAddr (λ _, True).
Proof. unfold getRemoteBindAddr. pres. Qed.
Hint Resolve pres_getRemoteBindAddr : pres.

Lemma pres_remoteClose c : preserves I (remoteClose hrtime c) (λ _, True).
Proof. unfold remoteClose. pres. by apply pres_broadcastMsgLocal. Qed.
Hint Resolve pres_remoteClose : pres.

Lemma pres_remoteConnect sock :
  resettable → preserves I (remoteConnect hrtime sock) (λ _, True).
Proof. intros Hr. unfold remoteConnect. pres. Qed.

Lemma pres_remoteKeepalive : preserves I (remoteKeepalive hrtime) (λ _, True).
Proof. unfold remoteKeepalive. pres. Qed.
Hint Resolve pres_remoteKeepalive : pres.

Lemma pres_setRemoteKey key sock :
  tolerant → resettable → preserves I (setRemoteKey hrtime key sock) (λ _, True).
Proof.
  intros Ht Hr. unfold setRemoteKey. pres.
  - by apply pres_remoteConnect.
  - by apply pres_broadcastMsg.
Qed.

Lemma pres_handleConfig c msg isRemote sock :
  cm_remote_key msg = None ∨ (tolerant ∧ resettable) →
  preserves I (handleConfig hashSync hrtime c msg isRemote sock) (λ _, True).
Proof.
  intros Hmsg. unfold handleConfig. pres.
  destruct Hmsg as [?|[Ht Hr]]; [congruence|]. by apply pres_setRemoteKey.
Qed.

Lemma pres_for_in msg body :
  (∀ f, f ∈ msg → preserves I (body f) (λ _, True)) →
  preserves I (for_in msg body) (λ _, True).
Proof.
  induction msg as [|f msg IH]; intros Hbody; cbn [for_in]; [apply preserves_ret|].
  eapply preserves_bind; [apply Hbody; by left|intros _ _].
  apply IH. intros f' Hf'. apply Hbody. by right.
Qed.

Lemma pres_handleMessage c msg isRemote sock :
  ¬ rekey_message msg ∨ (tolerant ∧ resettable) →
  preserves I (handleMessage setup pipelines hashSync hrtime c msg isRemote sock)
    (λ _, True).
Proof.
  intros Hmsg. unfold handleMessage.
  eapply preserves_bind; [|intros _ _; eapply preserves_bind; [|intros _ _]].
  - apply preserves_when, pres_for_in. intros f _. pres.
  - apply pres_for_in. intros f Hf. destruct f; try apply preserves_ret.
    apply pres_handleConfig. destruct Hmsg as [Hm|?]; [|by right].
    left. destruct (cm_remote_key m) eqn:Hkey; [|done].
    destruct Hm. exists m. split; [done|congruence].
  - pres. apply pres_for_in. intros f _. pres. by apply pres_broadcastMsgExcept.
Qed.

Lemma pres_remoteHandleMsg c remote msg id sock :
  let r := RemoteMessage c remote msg id sock in
  ¬ sets_handled r ∨ tolerant → ¬ reconnects r ∨ resettable →
  preserves I (remoteHandleMsg setup pipelines hashSync hrtime c remote msg id sock)
    (λ _, True).
Proof.
  intros r Hs Hr. unfold remoteHandleMsg. pres.
  - apply pres_handleRemote. intros v ->. destruct Hs as [Hs|?]; [|by right].
    destruct (decide (v = JBool true)); [by left|].
    destruct Hs. left. by exists v.
  - apply pres_handleMessage.
    destruct Hs as [Hs|Ht]; [left; intros Hm; apply Hs; by right|].
    destruct Hr as [Hr|Hr]; [left; intros Hm; by apply Hr|].
    by right.
Qed.

Lemma pres_connection c : preserves I (connection hrtime c) (λ _, True).
Proof. unfold connection. pres. Qed.

Lemma pres_main sock : resettable → preserves I (main hrtime sock) (λ _, True).
Proof. intros Hr. unfold main. pres. by apply pres_remoteConnect. Qed.

Lemma pres_handle r :
  ¬ sets_handled r ∨ tolerant → ¬ reconnects r ∨ resettable →
  preserves I (handle setup pipelines hashSync hrtime r) (λ _, True).
Proof.
  intros Hs Hr. destruct r; cbn [handle]; try by eauto with pres.
  - apply pres_main. cbn in Hr. by destruct Hr as [[]|].
  - apply pres_connection.
  - apply pres_handleMessage. cbn in Hs, Hr.
    destruct Hs as [?|?]; [by left|]. destruct Hr as [?|?]; [by left|by right].
  - by apply pres_remoteHandleMsg.
  - apply pres_remoteConnect. cbn in Hr. by destruct Hr as [[]|].
  - apply pres_tryAuth_callback.
  - apply pres_updateConfig_callback. intros p. apply pres_start_callback.
Qed.

Lemma pres_run rs : ∀ w,
  Forall (λ r, (¬ sets_handled r ∨ tolerant) ∧ (¬ reconnects r ∨ resettable)) rs →
  I w → I (run setup pipelines hashSync hrtime rs w).
Proof.
  induction rs as [|r rs IH]; intros w Hrs HI; [done|].
  apply Forall_cons in Hrs as [[Hs Hr] Hrs]. cbn [run foldl]. apply IH; [done|].
  by apply pres_handle.
Qed.

End Stable.

(** ** The invariants *)

Lemma saveConfig_run w :
  saveConfig w =
    let doc := JSON_stringify (<["ssh_pass_hash" := sshPasswordHash w]> (config w)) in
    ((), w_log (λ l, l ++ [EWriteFile CONFIG_FILE (FJson doc)])
           (w_fs (<[CONFIG_FILE := FJson doc]>)
              (w_config (delete "ssh_pass_hash")
                 (w_config (<["ssh_pass_hash" := sshPasswordHash w]>) w)))).
Proof. reflexivity. Qed.

Lemma saved_doc_lookup (h : jsval) (c : gmap string jsval) (k : string) :
  k ≠ "ssh_pass_hash" → c !! k = None →
  JSON_stringify (<["ssh_pass_hash" := h]> c) !! k = None.
Proof.
  intros Hk Hc. unfold JSON_stringify. apply map_lookup_filter_None. left.
  by rewrite lookup_insert_ne.
Qed.

Lemma saved_doc_hash (h : jsval) (c : gmap string jsval) :
  JSON_stringify (<["ssh_pass_hash" := h]> c) !! "ssh_pass_hash" = stored_hash h.
Proof.
  unfold JSON_stringify, stored_hash. destruct (decide (h = JUndef)) as [->|Hh].
  - apply map_lookup_filter_None. right. intros v. rewrite lookup_insert_eq.
    intros [= <-]. cbn. tauto.
  - apply map_lookup_filter_Some. by rewrite lookup_insert_eq.
Qed.

Lemma config_after_save (h : jsval) (c : gmap string jsval) (k : string) :
  c !! k = None → delete "ssh_pass_hash" (<["ssh_pass_hash" := h]> c) !! k = None.
Proof.
  intros Hc. apply lookup_delete_None.
  destruct (decide ("ssh_pass_hash" = k)); [by left|right].
  by rewrite lookup_insert_ne.
Qed.

Lemma Forall_drop_snoc {A} (P : A → Prop) (n : nat) (l : list A) (x : A) :
  Forall P (drop n l) → P x → Forall P (drop n (l ++ [x])).
Proof.
  intros Hl Hx. rewrite drop_app. apply Forall_app. split; [done|].
  apply Forall_drop. by apply Forall_singleton.
Qed.

Lemma not_config_key (k k' : string) : k ∉ config_keys → k' ∈ config_keys → k' ≠ k.
Proof. intros Hk Hk' ->. done. Qed.

Section Invariants.
Variable setup : Setup.
Variable pipelines : gmap string string.
Variable hashSync : string → Z → string.
Variable hrtime : nat → Z.

Local Abbreviation run := (run setup pipelines hashSync hrtime).

(** A key that no handler assigns stays out of [config] and out of every
    [config] frame. *)
Lemma hidden_from_frames_run (k : string) (n : nat) (rs : list request) (w : world) :
  k ∉ config_keys → hidden_from_frames k n w → hidden_from_frames k n (run rs w).
Proof.
  intros Hk. apply (pres_run setup pipelines hashSync hrtime
    (hidden_from_frames k n) (λ c, c !! k = None) True True).
  all: try (intros; match goal with H : hidden_from_frames _ _ _ |- _ => exact H end).
  - by intros w' [? ?].
  - intros e w' [Hc Hl] He. split; [done|]. wsimpl. apply Forall_drop_snoc; [done|].
    by destruct e as [? [] ?|[] ? ?| | | | | | |].
  - intros path s w' [Hc Hl]. split; [|done]. split; [done|].
    mrun. wsimpl. by apply Forall_drop_snoc.
  - intros doc w' [Hc Hl]. split; [|done]. split; [done|].
    mrun. wsimpl. by apply Forall_drop_snoc.
  - intros w' [Hc Hl]. split; [|done]. rewrite saveConfig_run. split; cbv zeta; wsimpl.
    + by apply config_after_save.
    + by apply Forall_drop_snoc.
  - intros k' v w' Hk' [Hc Hl]. split; [|done]. wsimpl.
    rewrite lookup_insert_ne; [done|]. by apply not_config_key.
  - intros w' [Hc Hl]. split; [|done]. wsimpl. apply lookup_delete_None. by right.
  - intros h w' [Hc Hl]. unfold exec. rewrite saveConfig_run. split; cbv zeta; wsimpl.
    + by apply config_after_save.
    + by apply Forall_drop_snoc.
  - apply Forall_forall. intros. tauto.
Qed.

(** A key that no handler assigns, other than [ssh_pass_hash], is never
    written to [config.json]. *)
Lemma hidden_from_disk_run (k : string) (n : nat) (rs : list request) (w : world) :
  k ∉ config_keys → k ≠ "ssh_pass_hash" →
  hidden_from_disk k n w → hidden_from_disk k n (run rs w).
Proof.
  intros Hk Hs. apply (pres_run setup pipelines hashSync hrtime
    (hidden_from_disk k n) (λ _, True) True True).
  all: try (intros; match goal with H : hidden_from_disk _ _ _ |- _ => exact H end).
  - done.
  - intros e w' (Hc & Hl & Hf) He. split; [done|]. split; [|done]. wsimpl.
    apply Forall_drop_snoc; [done|]. by destruct e.
  - intros path s w' (Hc & Hl & Hf). split; [|done]. split; [done|].
    mrun. wsimpl. split; [by apply Forall_drop_snoc|]. intros doc.
    destruct (decide (path = CONFIG_FILE)) as [->|Hne].
    + by rewrite lookup_insert_eq.
    + rewrite lookup_insert_ne by done. apply Hf.
  - intros doc w' (Hc & Hl & Hf). split; [|done]. split; [done|].
    mrun. wsimpl. split; [by apply Forall_drop_snoc|]. intros doc'.
    rewrite lookup_insert_ne by done. apply Hf.
  - intros w' (Hc & Hl & Hf). split; [|done]. rewrite saveConfig_run.
    split; [|split]; cbv zeta; wsimpl.
    + by apply config_after_save.
    + apply Forall_drop_snoc; [done|]. intros _. by apply saved_doc_lookup.
    + intros doc. rewrite lookup_insert_eq. intros [= <-]. by apply saved_doc_lookup.
  - intros k' v w' Hk' (Hc & Hl & Hf). split; [|done]. wsimpl.
    rewrite lookup_insert_ne; [done|]. by apply not_config_key.
  - intros w' (Hc & Hl & Hf). split; [|done]. wsimpl. apply lookup_delete_None. by right.
  - intros h w' (Hc & Hl & Hf). unfold exec. rewrite saveConfig_run.
    split; [|split]; cbv zeta; wsimpl.
    + by apply config_after_save.
    + apply Forall_drop_snoc; [done|]. intros _. by apply saved_doc_lookup.
    + intros doc. rewrite lookup_insert_eq. intros [= <-]. by apply saved_doc_lookup.
  - apply Forall_forall. intros. tauto.
Qed.

(** [config.json] holds the hash that is in memory, when there is one. *)
Lemma disk_hash_ok_run (rs : list request) (w : world) :
  disk_hash_ok w → disk_hash_ok (run rs w).
Proof.
  apply (pres_run setup pipelines hashSync hrtime
    disk_hash_ok (λ _, True) True True).
  all: try (intros; match goal with H : disk_hash_ok _ |- _ => exact H end).
  - done.
  - intros path s w' Hw. split; [|done]. intros doc. mrun. wsimpl.
    destruct (decide (path = CONFIG_FILE)) as [->|Hne].
    + by rewrite lookup_insert_eq.
    + rewrite lookup_insert_ne by done. apply Hw.
  - intros doc w' Hw. split; [|done]. intros doc'. mrun. wsimpl.
    rewrite lookup_insert_ne by done. apply Hw.
  - intros w' Hw. split; [|done]. rewrite saveConfig_run. intros doc.
    cbv zeta. wsimpl. rewrite lookup_insert_eq. intros [= <-]. apply saved_doc_hash.
  - intros h w' Hw. unfold exec. rewrite saveConfig_run. intros doc.
    cbv zeta. wsimpl. rewrite lookup_insert_eq. intros [= <-]. apply saved_doc_hash.
  - apply Forall_forall. intros. tauto.
Qed.

(** Left alone by key rejections and rekeys, [remoteStatusHandled] stays
    clear. *)
Lemma handled_clear_run (rs : list request) (w : world) :
  Forall (λ r, ¬ sets_handled r) rs →
  remoteStatusHandled w = false → remoteStatusHandled (run rs w) = false.
Proof.
  intros Hrs. apply (pres_run setup pipelines hashSync hrtime
    (λ w, remoteStatusHandled w = false) (λ _, True) False True).
  all: try (intros; match goal with H : remoteStatusHandled _ = false |- _ => exact H end).
  - done.
  - intros ws h t p w' Hw [->|[[_ []]|[-> _]]]; done.
  - intros path s w' Hw. by split.
  - intros doc w' Hw. by split.
  - intros w' Hw. by split.
  - eapply Forall_impl; [exact Hrs|]. intros r Hr. cbv beta in *. tauto.
Qed.

(** Left alone by reconnections, [remoteStatusHandled] stays set. *)
Lemma handled_set_run (rs : list request) (w : world) :
  Forall (λ r, ¬ reconnects r) rs →
  remoteStatusHandled w = true → remoteStatusHandled (run rs w) = true.
Proof.
  intros Hrs. apply (pres_run setup pipelines hashSync hrtime
    (λ w, remoteStatusHandled w = true) (λ _, True) True False).
  all: try (intros; match goal with H : remoteStatusHandled _ = true |- _ => exact H end).
  - done.
  - intros ws h t p w' Hw [->|[[-> _]|[_ []]]]; done.
  - intros path s w' Hw. by split.
  - intros doc w' Hw. by split.
  - intros w' Hw. by split.
  - eapply Forall_impl; [exact Hrs|]. intros r Hr. cbv beta in *. tauto.
Qed.

End Invariants.

(** ** Association lists *)

Lemma aget_aput_eq {A} k (v : A) l : aget k (aput k v l) = Some v.
Proof.
  induction l as [|[k' v'] l IH]; simpl.
  - by rewrite String.eqb_refl.
  - destruct (String.eqb_spec k k') as [->|Hne]; simpl.
    + by rewrite String.eqb_refl.
    + by destruct (String.eqb_spec k k').
Qed.

Lemma aget_aput_ne {A} k k' (v : A) l : k ≠ k' → aget k' (aput k v l) = aget k' l.
Proof.
  intros Hne. induction l as [|[k0 v0] l IH]; simpl.
  - destruct (String.eqb_spec k' k); congruence.
  - destruct (String.eqb_spec k k0) as [->|Hk]; simpl.
    + destruct (String.eqb_spec k' k0); congruence.
    + by rewrite IH.
Qed.

Lemma exec_bind {A B} (m : M A) (k : A → M B) (w : world) :
  exec (m ≫= k) w = exec (k (eval m w)) (exec m w).
Proof. unfold exec, eval, mbind, M_bind. by destruct (m w). Qed.

Lemma run_nil setup pipelines hashSync hrtime (w : world) :
  run setup pipelines hashSync hrtime [] w = w.
Proof. reflexivity. Qed.

Lemma run_one setup pipelines hashSync hrtime (r : request) (w : world) :
  run setup pipelines hashSync hrtime [r] w =
  exec (handle setup pipelines hashSync hrtime r) w.
Proof. reflexivity. Qed.

Lemma new_events_app w w' l : log w' = log w ++ l → new_events w w' = l.
Proof. unfold new_events. intros ->. by rewrite drop_app_length. Qed.

(** An event is not in a list of events of other kinds. *)
Ltac not_in_list :=
  let H := fresh in
  intros H;
  repeat (apply elem_of_cons in H as [H|H]; [discriminate|]);
  by apply elem_of_nil in H.

(** ** The handlers, one by one *)

Section Handlers.
Variable setup : Setup.
Variable pipelines : gmap string string.
Variable hashSync : string → Z → string.
Variable hrtime : nat → Z.

(** *** Bitrate *)

(** A bitrate that is missing or out of range is refused, and nothing
    changes. *)
Lemma setBitrate_refuse (max_br : option Z) (w : world) :
  match max_br with
  | None => True
  | Some b => b < 300 ∨ 12000 < b
  end →
  setBitrate setup max_br w = (None, w).
Proof.
  destruct max_br as [b|]; [|done].
  intros Hb. unfold setBitrate.
  destruct (Z.ltb_spec b 300), (Z.gtb_spec b 12000); simpl; try done; lia.
Qed.

(** A bitrate in range is stored and written out, and the encoder is
    told. *)
Lemma setBitrate_accept (b : Z) (w : world) :
  300 ≤ b ≤ 12000 →
  setBitrate setup (Some b) w =
    (Some b,
     exec (killall "HUP" "belacoder")
       (exec (writeFileSync (bitrate_file setup)
                (FText ("300000" +:+ nl +:+ pretty (b * 1000) +:+ nl)))
          (exec saveConfig (w_config (<["max_br" := JNum b]>) w)))).
Proof.
  intros Hb. unfold setBitrate.
  destruct (Z.ltb_spec b 300); [lia|].
  destruct (Z.gtb_spec b 12000); [lia|].
  reflexivity.
Qed.

Lemma saved_doc_max_br (h : jsval) (b : Z) (c : gmap string jsval) :
  JSON_stringify (<["ssh_pass_hash" := h]> (<["max_br" := JNum b]> c)) !! "max_br" =
    Some (JNum b).
Proof.
  unfold JSON_stringify. apply map_lookup_filter_Some. split; [|done].
  rewrite lookup_insert_ne by done. by rewrite lookup_insert_eq.
Qed.


(** *** Network interfaces *)

(** What [updateNetif] promises of an entry [e] stored under [name], given
    the table [old] of the previous poll. *)
Lemma scanBlock_entry old acc int name e :
  (∀ name e, aget name acc.1 = Some e →
     tp e = match aget name old with Some o => txb e - txb o | None => 0 end ∧
     enabled e = match aget name old with Some o => enabled o | None => true end) →
  aget name (scanBlock old acc int).1 = Some e →
  tp e = match aget name old with Some o => txb e - txb o | None => 0 end ∧
  enabled e = match aget name old with Some o => enabled o | None => true end.
Proof.
  intros Hacc. unfold scanBlock.
  destruct (_ || _); [apply Hacc|].
  destruct (blk_inet int) as [inetAddr|]; [|apply Hacc].
  destruct (blk_tx int) as [txBytes|]; [|apply Hacc].
  cbn [fst]. destruct (decide (blk_name int = name)) as [<-|Hne].
  - rewrite aget_aput_eq. intros [= <-]. cbn.
    destruct (aget (blk_name int) old) as [o|]; [|done].
    by destruct (enabled o).
  - rewrite aget_aput_ne by done. apply Hacc.
Qed.

Lemma scan_entries old blocks : ∀ acc,
  (∀ name e, aget name acc.1 = Some e →
     tp e = match aget name old with Some o => txb e - txb o | None => 0 end ∧
     enabled e = match aget name old with Some o => enabled o | None => true end) →
  ∀ name e, aget name (foldl (scanBlock old) acc blocks).1 = Some e →
     tp e = match aget name old with Some o => txb e - txb o | None => 0 end ∧
     enabled e = match aget name old with Some o => enabled o | None => true end.
Proof.
  induction blocks as [|b blocks IH]; intros acc Hacc; [done|].
  cbn [foldl]. apply IH. intros name e. by apply scanBlock_entry.
Qed.

Lemma updateNetif_netif blocks w :
  netif (exec (updateNetif setup hrtime (Some blocks)) w) =
  (foldl (scanBlock (netif w)) ([], false) blocks).1.
Proof.
  unfold updateNetif, updateSrtlaIps, genSrtlaIpList, getms, broadcastMsg,
    broadcastMsgLocal.
  mrun. destruct (remoteAuthed _); mrun; wsimpl;
    destruct (_ && isStreaming w); mrun; done.
Qed.

(** C4, amended.  After a poll, the throughput of an interface that was in
    the previous table is the new transmitted-byte counter less the
    previous one, whatever its sign; an interface seen for the first time
    reports 0; the [enabled] flag is the previous one, [true] for a new
    interface. *)
Theorem updateNetif_throughput (blocks : list ifblock) (w : world)
    (name : string) (e : netif_entry) :
  aget name (netif (exec (updateNetif setup hrtime (Some blocks)) w)) = Some e →
  tp e = match aget name (netif w) with
         | Some o => txb e - txb o
         | None => 0
         end ∧
  enabled e = match aget name (netif w) with
              | Some o => enabled o
              | None => true
              end.
Proof. rewrite updateNetif_netif. by apply scan_entries. Qed.

Lemma count_foldl_shift (t : list (string * netif_entry)) : ∀ n,
  foldl (λ (count : Z) (int : string * netif_entry),
           if enabled int.2 then count + 1 else count) n t =
  n + foldl (λ (count : Z) (int : string * netif_entry),
           if enabled int.2 then count + 1 else count) 0 t.
Proof.
  induction t as [|[k e] t IH]; intros n; cbn [foldl]; [lia|].
  rewrite IH, (IH (if enabled (k, e).2 then 0 + 1 else 0)).
  cbn [snd]. destruct (enabled e); lia.
Qed.






(** *** Passwords *)

(** The notification of [setPassword] for a password that is too short. *)
Lemma pass_length_message :
  "Minimum password length: " +:+ pretty 8 +:+ " characters" =
  "Minimum password length: 8 characters".
Proof. reflexivity. Qed.

(** A permitted request with a password of 8 characters or more stores
    the hash, drops any [password] key and saves. *)
Lemma setPassword_accept w c password isRemote :
  isAuthed (conn_get c w) = true ∨
    (truthy (js_get (config w) "password_hash") = false ∧ isRemote = false) →
  (8 ≤ String.length password)%nat →
  exec (setPassword hashSync hrtime c password isRemote) w =
    exec saveConfig
      (w_config (delete "password")
         (w_config (<["password_hash" := JStr (hashSync password 10)]>) w)).
Proof.
  intros Hperm Hlen. unfold setPassword. rewrite !exec_bind.
  match goal with |- context [if ?b then _ else _] =>
    assert (b = true) as -> by
      (unfold eval; mrun; destruct Hperm as [->|[-> ->]]; [done|apply orb_true_r])
  end.
  assert ((Z.of_nat (String.length password) <? 8) = false) as ->
    by (apply Z.ltb_ge; lia).
  by rewrite !exec_bind.
Qed.

(** C6.  [setPassword] acts exactly when the connection is authenticated,
    or no password is configured and the request is not remote.  It then
    answers a password of fewer than 8 characters with the error
    notification [Minimum password length: 8 characters], leaving [config]
    and the files alone, and for a longer one stores the bcrypt hash of
    cost 10 under [password_hash] and writes [config.json]. *)
Theorem setPassword_spec (w : world) (c : nat) (password : string) (isRemote : bool) :
  let w' := exec (setPassword hashSync hrtime c password isRemote) w in
  let permitted :=
    isAuthed (conn_get c w) = true ∨
    (truthy (js_get (config w) "password_hash") = false ∧ isRemote = false) in
  let hash := JStr (hashSync password 10) in
  (¬ permitted → w' = w) ∧
  (permitted → (String.length password < 8)%nat →
     config w' = config w ∧ fs w' = fs w ∧
     new_events w w' =
       [ ESend c (PNotificationShow
           [ {| n_name := "belaui_pass_length"; n_type := "error";
                n_msg := "Minimum password length: 8 characters";
                n_is_dismissable := true; n_is_persistent := false;
                n_duration := 10 |} ]) (senderId (conn_get c w)) ]) ∧
  (permitted → (8 ≤ String.length password)%nat →
     config w' !! "password_hash" = Some hash ∧
     ∃ doc, doc !! "password_hash" = Some hash ∧
            fs w' !! CONFIG_FILE = Some (FJson doc) ∧
            new_events w w' = [ EWriteFile CONFIG_FILE (FJson doc) ]).
Proof.
  intros w' permitted hash. subst w' permitted. unfold setPassword.
  cbv beta iota zeta delta [mbind M_bind mret M_ret gets exec].
  destruct (isAuthed (conn_get c w)) eqn:Hauth;
    destruct isRemote;
    destruct (truthy (js_get (config w) "password_hash")) eqn:Hhash;
    cbn [orb andb negb fst snd].
  all: split; [try done; intros Hno; destruct Hno; auto|].
  all: split; [intros Hp Hlen|intros Hp Hlen].
  all: try (destruct Hp as [?|[? ?]]; discriminate).
  all: try (assert ((Z.of_nat (String.length password) <? 8) = true) as ->
              by (apply Z.ltb_lt; lia);
            unfold notificationSend; mrun; wsimpl;
            rewrite pass_length_message;
            split; [done|split; [done|by apply new_events_app]]).
  all: assert ((Z.of_nat (String.length password) <? 8) = false) as ->
         by (apply Z.ltb_ge; lia).
  all: mrun; rewrite saveConfig_run; mrun; wsimpl.
  all: split;
    [ rewrite lookup_delete_ne by done; rewrite lookup_insert_ne by done;
      rewrite lookup_delete_ne by done; by rewrite lookup_insert_eq |].
  all: eexists; split; [|split; [by rewrite lookup_insert_eq|by apply new_events_app]].
  all: unfold JSON_stringify; apply map_lookup_filter_Some; split; [|done].
  all: rewrite lookup_insert_ne by done; rewrite lookup_delete_ne by done.
  all: by rewrite lookup_insert_eq.
Qed.

(** *** Token authentication *)

(** Replaying the persistent notifications reads the clock and prunes the
    map, and touches nothing else. *)
Lemma liveNotifications_frame l : ∀ w,
  ∃ pns n, (liveNotifications hrtime l w).2 =
           w_reads n (w_persistentNotifications (λ _, pns) w).
Proof.
  induction l as [|[k p] l IH]; intros w.
  - exists (persistentNotifications w), (reads w). by destruct w.
  - cbn [liveNotifications]. unfold _notificationIsLive, getms. mrun.
    destruct (n_duration (pn_body p) =? 0); mrun.
    + destruct (IH w) as (pns & n & Hw).
      destruct (liveNotifications hrtime l w) as [ns w1]. cbn [snd] in *.
      by exists pns, n.
    + destruct (_ <=? 0); mrun.
      all: match goal with
           | |- context [liveNotifications hrtime ?l0 ?w0] =>
               destruct (IH w0) as (pns & n & Hw);
               destruct (liveNotifications hrtime l0 w0) as [ns w1]
           end.
      all: cbn [snd] in *; exists pns, n; by rewrite Hw.
Qed.

Lemma sendInitialStatus_frame c w :
  let w' := exec (sendInitialStatus hrtime c) w in
  conns w' = conns w ∧
  ∃ rest, log w' = log w ++ ESend c (PConfig (config w)) JUndef :: rest.
Proof.
  unfold sendInitialStatus, sendStatus, notificationSendPersistent. mrun. wsimpl.
  match goal with
  | |- context [liveNotifications hrtime ?l ?w0] =>
      destruct (liveNotifications_frame l w0) as (pns & n & Hw);
      destruct (liveNotifications hrtime l w0) as [ns w1]
  end.
  cbn [snd] in *. subst w1. wsimpl. split; [done|].
  eexists. rewrite <- !app_assoc. reflexivity.
Qed.

Lemma has_token_plain (s : gset string) (t : string) :
  t ∉ object_prototype_keys → has_token s t = bool_decide (t ∈ s).
Proof.
  intros Ht. unfold has_token.
  rewrite (bool_decide_eq_false_2 (t ∈ object_prototype_keys)) by done.
  apply orb_false_r.
Qed.

(** The three ways a token request can go. *)
Lemma tryAuth_token_run w c t persistent :
  exec (tryAuth hrtime c
    {| a_password := None; a_persistent_token := persistent; a_token := Some t |}) w =
  if negb (truthy (js_get (config w) "password_hash"))
  then exec (emit (ESend c (PAuth false None) JUndef)) w
  else if has_token (tempTokens w) t || has_token (persistentTokens w) t
       then exec (connAuth hrtime c None ;; conn_set c (c_authToken (Some t))) w
       else exec (emit (ESend c (PAuth false None) JUndef)) w.
Proof.
  unfold tryAuth, exec.
  cbv beta iota zeta delta [mbind M_bind mret M_ret gets a_password a_token].
  destruct (negb _); [done|]. destruct (_ || _); [|done].
  by destruct (connAuth hrtime c None w) as [[] w1].
Qed.

Lemma tryAuth_token_accept w c t :
  let w' := exec (connAuth hrtime c None ;; conn_set c (c_authToken (Some t))) w in
  conn_get c w' = c_authToken (Some t) (c_isAuthed true (conn_get c w)) ∧
  ∃ rest, new_events w w' = ESend c (PAuth true None) JUndef :: rest.
Proof.
  intros w'. subst w'. unfold connAuth. rewrite !exec_bind.
  set (w0 := exec (emit _) (exec (conn_set c (c_isAuthed true)) w)).
  destruct (sendInitialStatus_frame c w0) as (Hconns & rest & Hlog).
  set (w1 := exec (sendInitialStatus hrtime c) w0) in *. split.
  - unfold conn_get, conn_set, exec, modify. wsimpl.
    rewrite lookup_insert_eq, Hconns. subst w0. unfold conn_set, exec; mrun; wsimpl.
    by rewrite lookup_insert_eq.
  - eexists. apply new_events_app.
    assert (log (exec (conn_set c (c_authToken (Some t))) w1) = log w1) as -> by done.
    rewrite Hlog. subst w0. unfold conn_set, exec; mrun; wsimpl.
    rewrite <- app_assoc. reflexivity.
Qed.

(** C5, amended.  For a token that is not one of the property names a
    token table inherits, an [auth] request carrying it succeeds exactly
    when a password is configured and the token is in the transient or in
    the persistent set.  On success the connection is marked authenticated
    and remembers the token; otherwise it is sent [{success: false}] and
    stays as it was. *)
Theorem tryAuth_token (w : world) (c : nat) (t : string) (persistent : bool) :
  let msg := {| a_password := None; a_persistent_token := persistent;
                a_token := Some t |} in
  let w' := exec (tryAuth hrtime c msg) w in
  let succeeds := ESend c (PAuth true None) JUndef ∈ new_events w w' in
  t ∉ object_prototype_keys →
  (succeeds ↔
     truthy (js_get (config w) "password_hash") = true ∧
     (t ∈ tempTokens w ∨ t ∈ persistentTokens w)) ∧
  (succeeds →
     isAuthed (conn_get c w') = true ∧ authToken (conn_get c w') = Some t) ∧
  (¬ succeeds →
     conns w' = conns w ∧
     new_events w w' = [ ESend c (PAuth false None) JUndef ]).
Proof.
  intros msg w' succeeds Ht. subst succeeds w' msg.
  rewrite tryAuth_token_run, !has_token_plain by done.
  destruct (truthy (js_get (config w) "password_hash")) eqn:Hhash; cbn [negb].
  - destruct (decide (t ∈ tempTokens w ∨ t ∈ persistentTokens w)) as [Hin|Hout].
    + assert (bool_decide (t ∈ tempTokens w) || bool_decide (t ∈ persistentTokens w)
              = true) as ->.
      { apply orb_true_iff. by rewrite !bool_decide_eq_true. }
      destruct (tryAuth_token_accept w c t) as (Hconn & rest & Hev).
      rewrite Hconn, Hev. split; [|split].
      * split; [intros _; split; [reflexivity|exact Hin]|].
        intros _. apply elem_of_cons. by left.
      * intros _. split; reflexivity.
      * intros Hno. destruct Hno. apply elem_of_cons. by left.
    + assert (bool_decide (t ∈ tempTokens w) || bool_decide (t ∈ persistentTokens w)
              = false) as ->.
      { apply orb_false_iff. rewrite !bool_decide_eq_false.
        split; intros ?; apply Hout; [by left|by right]. }
      assert (new_events w (exec (emit (ESend c (PAuth false None) JUndef)) w) =
              [ESend c (PAuth false None) JUndef]) as ->
        by (by apply new_events_app).
      split; [|split].
      * split; [not_in_list|]. intros [_ Hin]. by destruct Hout.
      * not_in_list.
      * intros _. split; reflexivity.
  - assert (new_events w (exec (emit (ESend c (PAuth false None) JUndef)) w) =
            [ESend c (PAuth false None) JUndef]) as ->
      by (by apply new_events_app).
    split; [|split].
    + split; [not_in_list|]. intros [? _]. discriminate.
    + not_in_list.
    + intros _. split; reflexivity.
Qed.

(** *** Persistent notifications *)

Section Persistent.
Variables (name type msg : string) (duration : Z) (isDismissable : bool).

Let n : notification :=
  {| n_name := name; n_type := type; n_msg := msg;
     n_is_dismissable := isDismissable; n_is_persistent := true;
     n_duration := duration |}.
Let send : M (option bool) :=
  notificationSend hrtime None name type msg duration true isDismissable.

(** A send that finds no earlier emission to compare with goes out. *)
Lemma send_first w :
  match aget name (persistentNotifications w) ≫= last_sent with
  | Some ls => ls = 0
  | None => True
  end →
  eval send w = Some true ∧
  new_events w (exec send w) = notification_frames n w ∧
  persistentNotifications (exec send w) =
    aput name {| pn_body := n; updated := hrtime (reads w);
                 last_sent := Some (hrtime (S (reads w))) |}
      (persistentNotifications w) ∧
  reads (exec send w) = S (S (reads w)).
Proof.
  intros Hold. subst send n. unfold notificationSend, eval, exec.
  cbv beta iota zeta delta [mbind M_bind mret M_ret gets modify andb].
  fold (aget name (persistentNotifications w) ≫= last_sent) in *.
  destruct (aget name (persistentNotifications w) ≫= last_sent) as [ls|].
  - subst ls. cbn [Z.eqb]. cbv beta iota zeta.
    unfold getms, broadcastMsg, broadcastMsgLocal,
      notification_frames, remoteAuthed, conn_get. mrun. wsimpl.
    destruct (remoteWs w) as [r|]; [destruct (isAuthed _)|].
    all: mrun; wsimpl; split; [done|]; split; [|done].
    all: apply new_events_app; wsimpl; by rewrite <- ?app_assoc.
  - unfold getms, broadcastMsg, broadcastMsgLocal,
      notification_frames, remoteAuthed, conn_get. mrun. wsimpl.
    destruct (remoteWs w) as [r|]; [destruct (isAuthed _)|].
    all: mrun; wsimpl; split; [done|]; split; [|done].
    all: apply new_events_app; wsimpl; by rewrite <- ?app_assoc.
Qed.

(** Less than a second after the last emission, a send only updates the
    stored entry. *)
Lemma send_limited w ls :
  aget name (persistentNotifications w) ≫= last_sent = Some ls → ls ≠ 0 →
  hrtime (reads w) < ls + 1000 →
  eval send w = None ∧
  new_events w (exec send w) = [] ∧
  persistentNotifications (exec send w) =
    aput name {| pn_body := n; updated := hrtime (S (reads w));
                 last_sent := Some ls |}
      (persistentNotifications w) ∧
  reads (exec send w) = S (S (reads w)).
Proof.
  intros Hold Hls Hnow. subst send n. unfold notificationSend, eval, exec.
  cbv beta iota zeta delta [mbind M_bind mret M_ret gets modify andb].
  fold (aget name (persistentNotifications w) ≫= last_sent) in *.
  rewrite Hold. apply Z.eqb_neq in Hls. rewrite Hls.
  unfold getms. mrun. wsimpl.
  assert ((ls + 1000 >? hrtime (reads w)) = true) as ->
    by (apply Z.gtb_lt; lia).
  mrun. wsimpl. split; [done|]. split; [|done].
  apply new_events_app. wsimpl. by rewrite app_nil_r.
Qed.

(** A second or more after the last emission, a send goes out again. *)
Lemma send_again w ls :
  aget name (persistentNotifications w) ≫= last_sent = Some ls → ls ≠ 0 →
  ls + 1000 ≤ hrtime (reads w) →
  eval send w = Some true ∧
  new_events w (exec send w) = notification_frames n w ∧
  persistentNotifications (exec send w) =
    aput name {| pn_body := n; updated := hrtime (S (reads w));
                 last_sent := Some (hrtime (S (S (reads w)))) |}
      (persistentNotifications w) ∧
  reads (exec send w) = S (S (S (reads w))).
Proof.
  intros Hold Hls Hnow. subst send n. unfold notificationSend, eval, exec.
  cbv beta iota zeta delta [mbind M_bind mret M_ret gets modify andb].
  fold (aget name (persistentNotifications w) ≫= last_sent) in *.
  rewrite Hold. apply Z.eqb_neq in Hls. rewrite Hls.
  unfold getms. mrun. wsimpl.
  assert ((ls + 1000 >? hrtime (reads w)) = false) as ->.
  { destruct (Z.gtb_spec (ls + 1000) (hrtime (reads w))); [lia|done]. }
  unfold broadcastMsg, broadcastMsgLocal, notification_frames, remoteAuthed,
    conn_get. mrun. wsimpl.
  destruct (remoteWs w) as [r|]; [destruct (isAuthed _)|].
  all: mrun; wsimpl; split; [done|]; split; [|done].
  all: apply new_events_app; wsimpl; by rewrite <- ?app_assoc.
Qed.

(** C7.  A persistent notification addressed to one connection is
    refused: nothing is stored and nothing is sent.  Broadcast, a first
    send of a name goes out as one frame and stores both time stamps; a
    second send less than a second after that emission sends nothing,
    refreshes [updated] and keeps [last_sent]; a later send, a second or
    more after the emission, goes out as one frame again and moves
    [last_sent].  The clock is taken never to read 0, which [last_sent]
    would confuse with no emission. *)
Theorem notificationSend_persistent (w : world) :
  (∀ c, notificationSend hrtime (Some c) name type msg duration true isDismissable w
        = (Some false, w)) ∧
  (aget name (persistentNotifications w) = None →
   let w1 := exec send w in
   let w2 := exec send w1 in
   let sent := hrtime (S (reads w)) in
   sent ≠ 0 → hrtime (reads w1) < sent + 1000 →
   new_events w w1 = notification_frames n w ∧
   aget name (persistentNotifications w1) =
     Some {| pn_body := n; updated := hrtime (reads w); last_sent := Some sent |} ∧
   new_events w1 w2 = [] ∧
   aget name (persistentNotifications w2) =
     Some {| pn_body := n; updated := hrtime (S (reads w1)); last_sent := Some sent |} ∧
   ∀ w3, aget name (persistentNotifications w3) =
         aget name (persistentNotifications w2) →
         sent + 1000 ≤ hrtime (reads w3) →
         new_events w3 (exec send w3) = notification_frames n w3 ∧
         aget name (persistentNotifications (exec send w3)) =
           Some {| pn_body := n; updated := hrtime (S (reads w3));
                   last_sent := Some (hrtime (S (S (reads w3)))) |}).
Proof.
  split; [done|].
  intros Hnew w1 w2 sent Hsent Hgap.
  destruct (send_first w) as (_ & Hev1 & Hpn1 & Hr1); [by rewrite Hnew|].
  fold w1 in Hev1, Hpn1, Hr1.
  assert (aget name (persistentNotifications w1) =
          Some {| pn_body := n; updated := hrtime (reads w);
                  last_sent := Some sent |}) as Hget1
    by (rewrite Hpn1; apply aget_aput_eq).
  destruct (send_limited w1 sent) as (_ & Hev2 & Hpn2 & Hr2);
    [by rewrite Hget1|done|done|].
  fold w2 in Hev2, Hpn2, Hr2.
  assert (aget name (persistentNotifications w2) =
          Some {| pn_body := n; updated := hrtime (S (reads w1));
                  last_sent := Some sent |}) as Hget2
    by (rewrite Hpn2; apply aget_aput_eq).
  split; [done|]. split; [done|]. split; [done|]. split; [done|].
  intros w3 Hsame Hlate.
  destruct (send_again w3 sent) as (_ & Hev3 & Hpn3 & _);
    [by rewrite Hsame, Hget2|done|done|].
  split; [done|]. rewrite Hpn3. apply aget_aput_eq.
Qed.

End Persistent.

(** *** The remote tunnel *)

Local Abbreviation run := (run setup pipelines hashSync hrtime).

Lemma key_rejected_run w c sock :
  let w1 := run [key_rejected c sock] w in
  remoteStatusHandled w1 = true ∧
  new_events w w1 =
    [ EBroadcastLocal (PStatusRemoteError "key") (hrtime (reads w) - ACTIVE_TO) None;
      ETerminate c ].
Proof.
  rewrite run_one. cbn [key_rejected handle].
  unfold remoteHandleMsg, handleRemote. rewrite bool_decide_eq_false_2 by done.
  change (1 <=? Z.of_nat (length (@nil field))) with false.
  unfold getms, broadcastMsgLocal, conn_set. mrun. wsimpl. split; [done|].
  apply new_events_app. wsimpl. by rewrite <- ?app_assoc.
Qed.

Lemma remoteClose_run w c :
  let w' := exec (remoteClose hrtime c) w in
  remoteConnectTimer w' = true ∧ remoteWs w' = None ∧
  new_events w w' =
    ESetTimeout "remoteConnect" 1000 ::
    if remoteStatusHandled w then []
    else [ EBroadcastLocal (PStatusRemoteError "network")
             (hrtime (reads w) - ACTIVE_TO) None ].
Proof.
  unfold remoteClose, getms, broadcastMsgLocal. mrun. wsimpl.
  destruct (remoteStatusHandled w); mrun; wsimpl.
  all: split; [done|]; split; [done|].
  all: apply new_events_app; wsimpl; by rewrite <- ?app_assoc.
Qed.

Lemma remoteConnect_connected w sock bindIp :
  EConnect sock bindIp ∈ new_events w (exec (remoteConnect hrtime sock) w) →
  remoteStatusHandled (exec (remoteConnect hrtime sock) w) = false.
Proof.
  unfold remoteConnect, getRemoteBindAddr, getms, conn_set. mrun. wsimpl.
  repeat (case_match; simplify_eq; mrun; wsimpl); try done.
  all: erewrite new_events_app
         by (wsimpl; rewrite <- ?app_assoc;
             first [reflexivity | symmetry; apply app_nil_r]).
  all: cbn [app]; not_in_list.
Qed.

(** C8.  When the relay answers the key with [false], the daemon
    broadcasts the [key] error to the local clients once and terminates
    the socket, and the close that follows, whatever is handled in between
    short of a reconnection, only arms the reconnect timer.  A close on a
    socket that [remoteConnect] opened, with no key rejection and no rekey
    since, arms the timer for 1 s and broadcasts the [network] error. *)
Theorem remote_key_rejection (w : world) (c sock : nat) :
  let w1 := run [key_rejected c sock] w in
  new_events w w1 =
    [ EBroadcastLocal (PStatusRemoteError "key") (hrtime (reads w) - ACTIVE_TO) None;
      ETerminate c ] ∧
  (∀ rs c', Forall (λ r, ¬ reconnects r) rs →
     let w2 := run rs w1 in
     new_events w2 (run [RemoteClosed c'] w2) =
       [ ESetTimeout "remoteConnect" 1000 ]) ∧
  (∀ w0 sock' bindIp rs c',
     let wc := run [RemoteConnectTimer sock'] w0 in
     EConnect sock' bindIp ∈ new_events w0 wc →
     Forall (λ r, ¬ sets_handled r) rs →
     let w2 := run rs wc in
     new_events w2 (run [RemoteClosed c'] w2) =
       [ ESetTimeout "remoteConnect" 1000;
         EBroadcastLocal (PStatusRemoteError "network")
           (hrtime (reads w2) - ACTIVE_TO) None ]).
Proof.
  intros w1. destruct (key_rejected_run w c sock) as [Hflag Hev]. fold w1 in Hflag, Hev.
  split; [done|]. split.
  - intros rs c' Hrs w2.
    assert (remoteStatusHandled w2 = true) as Hset by (by apply handled_set_run).
    destruct (remoteClose_run w2 c') as (_ & _ & Hclose).
    rewrite run_one. cbn [handle]. rewrite Hclose. by rewrite Hset.
  - intros w0 sock' bindIp rs c' wc Hconn Hrs w2.
    assert (remoteStatusHandled w2 = false) as Hclear.
    { apply handled_clear_run; [done|]. by eapply remoteConnect_connected. }
    destruct (remoteClose_run w2 c') as (_ & _ & Hclose).
    rewrite run_one. cbn [handle]. rewrite Hclose. by rewrite Hclear.
Qed.

(** *** Secrets *)

Lemma startup_disk_hash_ok file tokens :
  (∀ doc, file = Some doc → doc !! "ssh_pass_hash" ≠ Some JUndef) →
  disk_hash_ok (startup file tokens).
Proof.
  intros Hfile doc. unfold startup. wsimpl.
  destruct file as [doc0|]; last first.
  { rewrite lookup_union_r by done. destruct tokens; [|done].
    by rewrite lookup_singleton_ne. }
  rewrite (lookup_union_Some_l _ _ _ (FJson doc0)) by apply lookup_singleton_eq.
  intros [= <-]. unfold js_get, stored_hash.
  specialize (Hfile doc0 eq_refl).
  destruct (doc0 !! "ssh_pass_hash") as [v|] eqn:Hv; cbn [default].
  - case_decide as Hd; [|done]. destruct Hfile. f_equal. exact Hd.
  - by case_decide.
Qed.

(** C9, amended.  In every world the daemon reaches from its start,
    [config] has no key [ssh_pass_hash] and no [config] frame sent so far
    shows one, while [config.json], as last written, holds under that key
    the hash kept in memory, when one is kept: when none is, the file has
    no such key either. *)
Theorem ssh_pass_hash_hidden (file : option (gmap string jsval))
    (tokens : option (gset string)) (rs : list request) :
  (∀ doc, file = Some doc → doc !! "ssh_pass_hash" ≠ Some JUndef) →
  let w := run rs (startup file tokens) in
  config w !! "ssh_pass_hash" = None ∧
  Forall (frame_lacks "ssh_pass_hash") (log w) ∧
  (∀ doc, fs w !! CONFIG_FILE = Some (FJson doc) →
          doc !! "ssh_pass_hash" = stored_hash (sshPasswordHash w)).
Proof.
  intros Hfile w.
  assert (hidden_from_frames "ssh_pass_hash" 0 w) as [Hc Hl].
  { apply hidden_from_frames_run; [by apply (bool_decide_unpack _); vm_compute|].
    split; [|done]. unfold startup. wsimpl.
    destruct file; [apply lookup_delete_eq|done]. }
  split; [done|]. split; [done|].
  by apply disk_hash_ok_run, startup_disk_hash_ok.
Qed.

(** C10.  A successful [setPassword] leaves no key [password] in
    [config], stores the bcrypt hash, and from then on, whatever the daemon
    handles, no [config] frame shows a key [password], no write puts one
    into [config.json], and [config.json] has none. *)
Theorem password_never_stored (w : world) (c : nat) (password : string)
    (isRemote : bool) (rs : list request) :
  isAuthed (conn_get c w) = true ∨
    (truthy (js_get (config w) "password_hash") = false ∧ isRemote = false) →
  (8 ≤ String.length password)%nat →
  let w1 := exec (setPassword hashSync hrtime c password isRemote) w in
  let w2 := run rs w1 in
  config w1 !! "password" = None ∧
  config w1 !! "password_hash" = Some (JStr (hashSync password 10)) ∧
  config w2 !! "password" = None ∧
  Forall (frame_lacks "password") (new_events w w2) ∧
  Forall (doc_lacks "password") (new_events w w2) ∧
  (∀ doc, fs w2 !! CONFIG_FILE = Some (FJson doc) → doc !! "password" = None).
Proof.
  intros Hperm Hlen w1 w2.
  pose proof (setPassword_accept w c password isRemote Hperm Hlen) as Hw1.
  fold w1 in Hw1. unfold exec in Hw1. rewrite saveConfig_run in Hw1.
  cbv zeta in Hw1. cbn [snd] in Hw1.
  assert (config w1 !! "password" = None) as Hnone.
  { rewrite Hw1. wsimpl. apply config_after_save, lookup_delete_eq. }
  assert (config w1 !! "password_hash" = Some (JStr (hashSync password 10))) as Hhash.
  { rewrite Hw1. wsimpl. rewrite lookup_delete_ne by done.
    rewrite lookup_insert_ne by done. rewrite lookup_delete_ne by done.
    by rewrite lookup_insert_eq. }
  assert (∃ doc, doc !! "password" = None ∧
                 fs w1 !! CONFIG_FILE = Some (FJson doc) ∧
                 new_events w w1 = [EWriteFile CONFIG_FILE (FJson doc)])
    as (doc & Hdoc & Hfile & Hev).
  { eexists. split; [|split].
    - apply saved_doc_lookup; [done|apply lookup_delete_eq].
    - rewrite Hw1. wsimpl. apply lookup_insert_eq.
    - apply new_events_app. rewrite Hw1. wsimpl. reflexivity. }
  assert (hidden_from_frames "password" (length (log w)) w1) as Hf.
  { split; [done|]. fold (new_events w w1). rewrite Hev. by apply Forall_singleton. }
  assert (hidden_from_disk "password" (length (log w)) w1) as Hd.
  { split; [done|]. fold (new_events w w1). rewrite Hev. split.
    - apply Forall_singleton. by intros _.
    - intros doc'. rewrite Hfile. by intros [= <-]. }
  apply (hidden_from_frames_run setup pipelines hashSync hrtime "password" _ rs)
    in Hf as [Hc2 Hf2]; [|by apply (bool_decide_unpack _); vm_compute].
  apply (hidden_from_disk_run setup pipelines hashSync hrtime "password" _ rs)
    in Hd as (_ & Hd2 & Hfs2); [|by apply (bool_decide_unpack _); vm_compute|done].
  done.
Qed.

End Handlers.

(** ** Starting a stream *)

Section Start.
Variable setup : Setup.
Variable pipelines : gmap string string.
Variable hrtime : nat → Z.

Lemma startError_run w c msg :
  startError hrtime c msg JUndef w =
    (false, w_log (λ l, l ++ [ESend c (PStatusStreaming false) JUndef])
              (w_log (λ l, l ++ [ESend c (PNotificationShow
                 [ {| n_name := "start_error"; n_type := "error"; n_msg := msg;
                      n_is_dismissable := true; n_is_persistent := false;
                      n_duration := 10 |} ]) (senderId (conn_get c w))]) w)).
Proof. reflexivity. Qed.

Lemma in_range (lo hi x : Z) : lo ≤ x ≤ hi → (x <? lo) || (x >? hi) = false.
Proof.
  intros Hx. apply orb_false_iff. split; [apply Z.ltb_ge; lia|].
  destruct (Z.gtb_spec x hi); [lia|done].
Qed.

Lemma out_of_range (lo hi x : Z) : x < lo ∨ hi < x → (x <? lo) || (x >? hi) = true.
Proof.
  intros Hx. apply orb_true_iff. destruct Hx; [left; apply Z.ltb_lt; lia|].
  right. destruct (Z.gtb_spec x hi); [done|lia].
Qed.

(** A request that fails no later than at the bitrate leaves the
    appliance as it was, the two frames of [startError] apart. *)
Lemma start_rejected_at_bitrate w c params d id path :
  isStreaming w = false → softUpdateStatus w = false →
  delay params = Some d → -2000 ≤ d ≤ 2000 →
  pipeline params = Some id → pipelines !! id = Some path →
  match max_br params with
  | Some b => b < 300 ∨ 12000 < b
  | None => True
  end →
  let w' := exec (start setup pipelines hrtime c params) w in
  config w' = config w ∧ fs w' = fs w ∧ isStreaming w' = false ∧
  new_events w w' =
    start_error c "invalid bitrate range: " (senderId (conn_get c w)).
Proof.
  intros Hs Hu Hd Hd' Hp Hp' Hb w'. subst w'. unfold start, exec.
  cbv beta iota zeta delta [mbind M_bind mret M_ret gets].
  rewrite Hs, Hu. cbn [orb]. unfold updateConfig.
  cbv beta iota zeta delta [mbind M_bind mret M_ret gets].
  rewrite Hd, Hp. unfold searchPipelines. rewrite Hp', (in_range _ _ _ Hd').
  rewrite (setBitrate_refuse setup _ w Hb). rewrite startError_run. wsimpl.
  repeat split; try done.
  apply new_events_app. wsimpl. by rewrite <- app_assoc.
Qed.

(** A request that passes the bitrate and fails at the SRT latency has by
    then stored the bitrate, written both files and signalled the
    encoder. *)
Lemma start_rejected_at_latency w c params d id path b lat :
  isStreaming w = false → softUpdateStatus w = false →
  delay params = Some d → -2000 ≤ d ≤ 2000 →
  pipeline params = Some id → pipelines !! id = Some path →
  max_br params = Some b → 300 ≤ b ≤ 12000 →
  srt_latency params = Some lat → lat < 100 ∨ 10000 < lat →
  let w' := exec (start setup pipelines hrtime c params) w in
  let text := FText ("300000" +:+ nl +:+ pretty (b * 1000) +:+ nl) in
  isStreaming w' = false ∧
  config w' !! "max_br" = Some (JNum b) ∧
  fs w' !! bitrate_file setup = Some text ∧
  ∃ doc, doc !! "max_br" = Some (JNum b) ∧
    new_events w w' =
      [ EWriteFile CONFIG_FILE (FJson doc);
        EWriteFile (bitrate_file setup) text;
        ESignal "HUP" "belacoder" ] ++
      start_error c ("invalid SRT latency " +:+ pretty lat +:+ " ms")
        (senderId (conn_get c w)).
Proof.
  intros Hs Hu Hd Hd' Hp Hp' Hb Hb' Hl Hl' w' text. subst w'. unfold start, exec.
  cbv beta iota zeta delta [mbind M_bind mret M_ret gets].
  rewrite Hs, Hu. cbn [orb]. unfold updateConfig.
  cbv beta iota zeta delta [mbind M_bind mret M_ret gets].
  rewrite Hd, Hp. unfold searchPipelines.
  rewrite Hp', Hb, Hl, (in_range _ _ _ Hd'), (out_of_range _ _ _ Hl').
  rewrite (setBitrate_accept setup b w Hb'). rewrite startError_run.
  unfold exec. rewrite saveConfig_run. mrun. wsimpl.
  split; [done|]. split.
  { rewrite lookup_delete_ne by done. rewrite lookup_insert_ne by done.
    by rewrite lookup_insert_eq. }
  split; [by rewrite lookup_insert_eq|].
  eexists. split; [apply saved_doc_max_br|].
  apply new_events_app. wsimpl. unfold conn_get. wsimpl.
  rewrite <- !app_assoc. reflexivity.
Qed.

(** A request that passes every check has by then done what [setBitrate]
    does, and leaves a lookup pending. *)
Lemma start_lookup_issued w c params d id path b lat streamid addr port :
  isStreaming w = false → softUpdateStatus w = false →
  delay params = Some d → -2000 ≤ d ≤ 2000 →
  pipeline params = Some id → pipelines !! id = Some path →
  max_br params = Some b → 300 ≤ b ≤ 12000 →
  srt_latency params = Some lat → 100 ≤ lat ≤ 10000 →
  srt_streamid params = Some streamid →
  srtla_addr params = Some addr →
  srtla_port params = Some port → 1 ≤ port ≤ 65535 →
  start setup pipelines hrtime c params w =
    (Some {| l_conn := c; l_delay := d; l_pipeline := id; l_max_br := b;
             l_srt_latency := lat; l_srt_streamid := streamid;
             l_srtla_addr := addr; l_srtla_port := port; l_path := path;
             l_senderId := senderId (conn_get c w) |},
     exec (setBitrate setup (Some b)) w).
Proof.
  intros Hs Hu Hd Hd' Hp Hp' Hb Hb' Hl Hl' Hi Ha Ho Ho'. unfold start.
  cbv beta iota zeta delta [mbind M_bind mret M_ret gets].
  rewrite Hs, Hu. cbn [orb]. unfold updateConfig.
  cbv beta iota zeta delta [mbind M_bind mret M_ret gets].
  rewrite Hd, Hp. unfold searchPipelines.
  rewrite Hp', Hb, Hl, Hi, Ha, Ho, (in_range _ _ _ Hd'), (in_range _ _ _ Hl').
  assert (((port <=? 0) || (port >? 65535)) = false) as ->.
  { apply orb_false_iff. split; [apply Z.leb_gt; lia|].
    destruct (Z.gtb_spec port 65535); [lia|done]. }
  unfold exec. by rewrite (setBitrate_accept setup b w Hb').
Qed.

(** A lookup that fails is answered with the two frames of [startError],
    and nothing else changes. *)
Lemma lookup_failed w l callback :
  let w' := exec (updateConfig_callback hrtime l false callback) w in
  config w' = config w ∧ fs w' = fs w ∧ isStreaming w' = isStreaming w ∧
  new_events w w' =
    start_error (l_conn l) ("failed to resolve SRTLA addr " +:+ l_srtla_addr l)
      (if decide (l_senderId l = JUndef)
       then senderId (conn_get (l_conn l) w) else l_senderId l).
Proof.
  unfold updateConfig_callback, startError, notificationSend, conn_set. mrun. wsimpl.
  destruct (decide (l_senderId l = JUndef)) as [Hid|Hid].
  - rewrite bool_decide_eq_false_2 by (by intros []). mrun. wsimpl.
    repeat split; try done. apply new_events_app. wsimpl. by rewrite <- app_assoc.
  - rewrite bool_decide_eq_true_2 by done. mrun. wsimpl.
    repeat split; try done. apply new_events_app. wsimpl. unfold conn_get. wsimpl.
    rewrite lookup_insert_eq. cbn [default senderId c_senderId].
    by rewrite <- app_assoc.
Qed.

End Start.

(** ** The statements on the concrete appliance *)

(** C1.  The request [ex_start], refused for its SRT latency, does not
    leave the idle appliance as it was: the stored maximum bitrate has
    gone from 4000 to 6000, [config.json] and the bitrate file have been
    written, and [belacoder] has been sent a hangup, all before the
    [start_error] notification and the [is_streaming: false] reply. *)
Theorem start_rejected_with_side_effects :
  let w' := exec (start ex_setup ex_pipelines ex_hrtime 1 ex_start) ex_idle in
  isStreaming w' = false ∧
  config ex_idle !! "max_br" = Some (JNum 4000) ∧
  config w' !! "max_br" = Some (JNum 6000) ∧
  fs ex_idle !! bitrate_file ex_setup = None ∧
  fs w' !! bitrate_file ex_setup =
    Some (FText ("300000" +:+ nl +:+ "6000000" +:+ nl)) ∧
  ∃ doc, doc !! "max_br" = Some (JNum 6000) ∧
    new_events ex_idle w' =
      [ EWriteFile CONFIG_FILE (FJson doc);
        EWriteFile (bitrate_file ex_setup)
          (FText ("300000" +:+ nl +:+ "6000000" +:+ nl));
        ESignal "HUP" "belacoder" ] ++
      start_error 1 "invalid SRT latency 50 ms" JUndef.
Proof.
  intros w'.
  assert (ex_pipelines !! ex_pipeline =
          Some "/usr/share/belacoder/pipelines/generic/h264_camlink") as Hp
    by (vm_compute; reflexivity).
  pose proof (start_rejected_at_latency ex_setup ex_pipelines ex_hrtime
                ex_idle 1 ex_start 0 ex_pipeline _ 6000 50
                eq_refl eq_refl eq_refl ltac:(lia) eq_refl Hp eq_refl ltac:(lia)
                eq_refl ltac:(lia)) as Hrun.
  cbv zeta in Hrun. fold w' in Hrun.
  assert (pretty (6000 * 1000) = "6000000") as Hbr by (vm_compute; reflexivity).
  assert ("invalid SRT latency " +:+ pretty 50 +:+ " ms" = "invalid SRT latency 50 ms")
    as Hmsg by (vm_compute; reflexivity).
  assert (senderId (conn_get 1 ex_idle) = JUndef) as Hid by (vm_compute; reflexivity).
  rewrite Hbr, Hmsg, Hid in Hrun.
  destruct Hrun as (Hs & Hc & Hf & doc & Hdoc & Hev).
  split; [exact Hs|]. split; [vm_compute; reflexivity|]. split; [exact Hc|].
  split; [vm_compute; reflexivity|]. split; [exact Hf|].
  exists doc. split; [exact Hdoc|exact Hev].
Qed.



(** The table of [ex_wifi_only] is one the daemon reaches. *)
Lemma ex_wifi_only_reached :
  netif (ex_run ex_unplugged (startup None None)) = netif ex_wifi_only.
Proof. vm_compute. reflexivity. Qed.


(** C4 as stated fails on [ex_polled]: the counter went from 1000 down to
    400, and the throughput reported is -600, not 0. *)
Lemma updateNetif_negative_throughput :
  aget "eth0" (netif (exec (updateNetif ex_setup ex_hrtime (Some ex_blocks)) ex_polled)) =
    Some {| ip := "10.0.0.2"; txb := 400; tp := -600; enabled := true |} ∧
  Z.max 0 (400 - 1000) = 0.
Proof. split; vm_compute; reflexivity. Qed.

Lemma updateNetif_throughput_witness :
  let e := {| ip := "10.0.0.2"; txb := 400; tp := -600; enabled := true |} in
  tp e = match aget "eth0" (netif ex_polled) with
         | Some o => txb e - txb o
         | None => 0
         end ∧
  enabled e = match aget "eth0" (netif ex_polled) with
              | Some o => enabled o
              | None => true
              end.
Proof.
  intros e.
  apply (updateNetif_throughput ex_setup ex_hrtime ex_blocks ex_polled "eth0" e).
  vm_compute. reflexivity.
Defined.

(** C5 as stated fails on [ex_no_password]: the token is in the persistent
    set, and the request is answered [{success: false}]. *)
Lemma tryAuth_token_without_password :
  let msg := {| a_password := None; a_persistent_token := false;
                a_token := Some ex_token |} in
  let w' := exec (tryAuth ex_hrtime 1 msg) ex_no_password in
  ex_token ∈ persistentTokens ex_no_password ∧
  new_events ex_no_password w' = [ ESend 1 (PAuth false None) JUndef ] ∧
  isAuthed (conn_get 1 w') = false.
Proof.
  intros msg w'. split; [|split].
  - unfold ex_no_password, startup. wsimpl. cbn [default]. set_solver.
  - vm_compute. reflexivity.
  - vm_compute. reflexivity.
Qed.

Lemma ex_token_plain : ex_token ∉ object_prototype_keys.
Proof. apply (bool_decide_unpack _). vm_compute. exact I. Defined.

Lemma tryAuth_token_witness :
  let msg := {| a_password := None; a_persistent_token := false;
                a_token := Some ex_token |} in
  let w' := exec (tryAuth ex_hrtime 1 msg) ex_with_password in
  isAuthed (conn_get 1 w') = true ∧ authToken (conn_get 1 w') = Some ex_token.
Proof.
  intros msg w'.
  destruct (tryAuth_token ex_hrtime ex_with_password 1 ex_token false
              ex_token_plain) as (Hiff & Hok & _).
  apply Hok, Hiff. split; [vm_compute; reflexivity|]. right.
  unfold ex_with_password, startup. wsimpl. cbn [default]. set_solver.
Defined.

(** A name that the token tables inherit opens a session although no
    token was ever issued: [tempTokens["constructor"]] is a function. *)
Lemma tryAuth_inherited_name :
  let msg := {| a_password := None; a_persistent_token := false;
                a_token := Some "constructor" |} in
  let w := startup (Some {[ "password_hash" := JStr (ex_hashSync "hunter2x" 10) ]})
             None in
  let w' := exec (tryAuth ex_hrtime 1 msg) w in
  tempTokens w = ∅ ∧ persistentTokens w = ∅ ∧
  isAuthed (conn_get 1 w') = true ∧
  head (new_events w w') = Some (ESend 1 (PAuth true None) JUndef).
Proof.
  intros msg w w'. split; [reflexivity|]. split; [reflexivity|].
  split; vm_compute; reflexivity.
Qed.

(** C6 at the first run: an unauthenticated local connection sets the
    password, and a password of five characters is refused. *)
Lemma setPassword_spec_witness :
  config (exec (setPassword ex_hashSync ex_hrtime 1 "hunter2x" false) ex_no_password)
    !! "password_hash" = Some (JStr (ex_hashSync "hunter2x" 10)) ∧
  config (exec (setPassword ex_hashSync ex_hrtime 1 "short" false) ex_no_password) =
    config ex_no_password ∧
  exec (setPassword ex_hashSync ex_hrtime 1 "hunter2x" true) ex_no_password =
    ex_no_password.
Proof.
  destruct (setPassword_spec ex_hashSync ex_hrtime ex_no_password 1 "hunter2x" false)
    as (_ & _ & Hset).
  destruct (setPassword_spec ex_hashSync ex_hrtime ex_no_password 1 "short" false)
    as (_ & Hshort & _).
  destruct (setPassword_spec ex_hashSync ex_hrtime ex_no_password 1 "hunter2x" true)
    as (Hremote & _ & _).
  assert (truthy (js_get (config ex_no_password) "password_hash") = false) as Hnone
    by (vm_compute; reflexivity).
  assert (isAuthed (conn_get 1 ex_no_password) = false) as Hanon
    by (vm_compute; reflexivity).
  split; [|split].
  - apply Hset; [by right|]. cbn. lia.
  - apply Hshort; [by right|]. cbn. lia.
  - apply Hremote. rewrite Hanon, Hnone. intros [?|[_ ?]]; discriminate.
Defined.

(** C7 on a fresh appliance, with a clock read every 400 ms: the first
    send of [belacoder] goes out, the second, 400 ms after the emission,
    does not. *)
Lemma notificationSend_persistent_witness :
  let w := startup None None in
  let send := notificationSend ex_hrtime None "belacoder" "error"
                "The encoder has stopped" 0 true true in
  let n := {| n_name := "belacoder"; n_type := "error";
              n_msg := "The encoder has stopped"; n_is_dismissable := true;
              n_is_persistent := true; n_duration := 0 |} in
  new_events w (exec send w) = notification_frames n w ∧
  new_events (exec send w) (exec send (exec send w)) = [].
Proof.
  intros w send n.
  destruct (notificationSend_persistent ex_hrtime "belacoder" "error"
              "The encoder has stopped" 0 true w) as [_ Hrun].
  destruct Hrun as (Hfirst & _ & Hsecond & _).
  - reflexivity.
  - vm_compute. discriminate.
  - vm_compute. reflexivity.
  - split; [exact Hfirst|exact Hsecond].
Defined.

(** C8 on an appliance with a key and one interface: the key is rejected,
    and the close that follows does not report a network error; after a
    reconnection, a close does. *)
Lemma remote_key_rejection_witness :
  let w := ex_run [RemoteConnectTimer 7] ex_keyed in
  let w1 := ex_run [key_rejected 7 8] w in
  let w2 := ex_run [RemoteClosed 7] w1 in
  let w3 := ex_run [RemoteConnectTimer 8] w2 in
  new_events w1 w2 = [ ESetTimeout "remoteConnect" 1000 ] ∧
  new_events w3 (ex_run [RemoteClosed 8] w3) =
    [ ESetTimeout "remoteConnect" 1000;
      EBroadcastLocal (PStatusRemoteError "network")
        (ex_hrtime (reads w3) - ACTIVE_TO) None ].
Proof.
  intros w w1 w2 w3.
  destruct (remote_key_rejection ex_setup ex_pipelines ex_hashSync ex_hrtime w 7 8)
    as (_ & Hquiet & Hloud).
  split.
  - pose proof (Hquiet (@nil request) 7%nat (Forall_nil_2 _)) as Hclose.
    cbv zeta in Hclose. rewrite run_nil in Hclose. exact Hclose.
  - assert (new_events w2 w3 =
            [ EClearTimeout "remoteConnect"; EConnect 8 "10.0.0.2" ]) as Hev
      by (vm_compute; reflexivity).
    assert (EConnect 8 "10.0.0.2" ∈ new_events w2 w3) as Hin.
    { rewrite Hev. apply elem_of_cons. right. apply elem_of_cons. by left. }
    pose proof (Hloud w2 8%nat "10.0.0.2" (@nil request) 8%nat Hin (Forall_nil_2 _))
      as Hclose.
    cbv zeta in Hclose. rewrite run_nil in Hclose. exact Hclose.
Defined.

(** C9 as stated fails at the first run: the password is set, [config.json]
    is written, and it has no key [ssh_pass_hash]. *)
Lemma ssh_pass_hash_absent_from_disk :
  let w := ex_run ex_first_run (startup None None) in
  fs w !! CONFIG_FILE =
    Some (FJson {[ "password_hash" := JStr (ex_hashSync "hunter2x" 10) ]}) ∧
  ({[ "password_hash" := JStr (ex_hashSync "hunter2x" 10) ]} : gmap string jsval)
    !! "ssh_pass_hash" = None.
Proof. split; vm_compute; reflexivity. Qed.

(** C9, amended, on an appliance whose [config.json] holds a hash. *)
Lemma ssh_pass_hash_hidden_witness :
  let file : gmap string jsval :=
    {[ "ssh_pass_hash" := JStr "user:$6$Zq1$kV0:19000:0:99999:7:::";
       "ssh_pass" := JStr "pZ4nVb2xQ0aWc9eRt7yU" ]} in
  let w := ex_run ex_first_run (startup (Some file) None) in
  config w !! "ssh_pass_hash" = None ∧
  Forall (frame_lacks "ssh_pass_hash") (log w) ∧
  (∀ doc, fs w !! CONFIG_FILE = Some (FJson doc) →
          doc !! "ssh_pass_hash" = stored_hash (sshPasswordHash w)).
Proof.
  intros file w.
  apply (ssh_pass_hash_hidden ex_setup ex_pipelines ex_hashSync ex_hrtime
           (Some file) None ex_first_run).
  intros doc [= <-]. vm_compute. discriminate.
Defined.

(** C10 at the first run, followed by a poll of the interfaces. *)
Lemma password_never_stored_witness :
  let w1 := exec (setPassword ex_hashSync ex_hrtime 1 "hunter2x" false)
              ex_no_password in
  let w2 := ex_run [ NetifPolled (Some ex_blocks) ] w1 in
  config w1 !! "password" = None ∧
  config w1 !! "password_hash" = Some (JStr (ex_hashSync "hunter2x" 10)) ∧
  config w2 !! "password" = None ∧
  Forall (frame_lacks "password") (new_events ex_no_password w2) ∧
  Forall (doc_lacks "password") (new_events ex_no_password w2) ∧
  (∀ doc, fs w2 !! CONFIG_FILE = Some (FJson doc) → doc !! "password" = None).
Proof.
  intros w1 w2.
  apply (password_never_stored ex_setup ex_pipelines ex_hashSync ex_hrtime
           ex_no_password 1 "hunter2x" false [NetifPolled (Some ex_blocks)]).
  - right. split; [vm_compute; reflexivity|reflexivity].
  - cbn. lia.
Defined.

(** * Further properties *)

Lemma string_app_assoc (a b c : string) : (a +:+ b) +:+ c = a +:+ (b +:+ c).
Proof.
  induction a as [|x a IH]; [done|].
  change (String x ((a +:+ b) +:+ c) = String x (a +:+ (b +:+ c))). by rewrite IH.
Qed.

Lemma string_app_nil_r (a : string) : a +:+ "" = a.
Proof.
  induction a as [|x a IH]; [done|].
  change (String x (a +:+ "") = String x a). by rewrite IH.
Qed.

Lemma ip_list_foldl (t : list (string * netif_entry)) : ∀ acc : string * Z,
  foldl (λ (acc : string * Z) (i : string * netif_entry),
           if enabled i.2 then (acc.1 +:+ ip i.2 +:+ nl, acc.2 + 1) else acc) acc t =
  (acc.1 +:+ unlines (enabled_ips t), acc.2 + Z.of_nat (length (enabled_ips t))).
Proof.
  induction t as [|[k e] t IH]; intros [s n]; cbn [foldl fst snd].
  - cbn. by rewrite string_app_nil_r, Z.add_0_r.
  - rewrite IH. unfold enabled_ips. cbn [fmap list_fmap snd].
    destruct (enabled e) eqn:He.
    + rewrite filter_cons_True by done. cbn [fst snd fmap list_fmap unlines foldr length].
      rewrite !string_app_assoc. f_equal. lia.
    + rewrite filter_cons_False by (by rewrite He). done.
Qed.

Lemma count_is_length (t : list (string * netif_entry)) w :
  eval countActiveNetif (w_netif t w) = Z.of_nat (length (enabled_ips t)).
Proof.
  unfold eval, countActiveNetif. mrun. wsimpl.
  induction t as [|[k e] t IH]; [done|]. cbn [foldl snd].
  rewrite count_foldl_shift, IH. unfold enabled_ips. cbn [fmap list_fmap snd].
  destruct (enabled e) eqn:He.
  - rewrite filter_cons_True by done. cbn [fmap list_fmap length]. lia.
  - rewrite filter_cons_False by (by rewrite He). lia.
Qed.

Lemma genSrtlaIpList_run (setup : Setup) (w : world) :
  genSrtlaIpList setup w =
    (Z.of_nat (length (enabled_ips (netif w))),
     w_log (λ l, l ++ [EWriteFile (ips_file setup)
                         (FText (unlines (enabled_ips (netif w))))])
       (w_fs (<[ips_file setup := FText (unlines (enabled_ips (netif w)))]>) w)).
Proof.
  unfold genSrtlaIpList. mrun. rewrite ip_list_foldl. cbn [fst snd].
  by rewrite Z.add_0_l.
Qed.

(** X1.  [genSrtlaIpList] writes to the uplink file the addresses of the
    enabled interfaces, one per line and in the order of [netif], and
    returns how many there are, which is what [countActiveNetif] counts;
    the table itself is left alone. *)
Theorem genSrtlaIpList_spec (setup : Setup) (w : world) :
  let w' := exec (genSrtlaIpList setup) w in
  let ips := enabled_ips (netif w) in
  eval (genSrtlaIpList setup) w = Z.of_nat (length ips) ∧
  eval (genSrtlaIpList setup) w = eval countActiveNetif w ∧
  fs w' !! ips_file setup = Some (FText (unlines ips)) ∧
  new_events w w' = [ EWriteFile (ips_file setup) (FText (unlines ips)) ] ∧
  netif w' = netif w.
Proof.
  intros w' ips. subst w' ips.
  assert (w_netif (netif w) w = w) as Hw by (by destruct w).
  pose proof (count_is_length (netif w) w) as Hcount. rewrite Hw in Hcount.
  rewrite Hcount. unfold eval, exec. rewrite genSrtlaIpList_run. cbn [fst snd]. wsimpl.
  split; [done|]. split; [done|]. split; [by rewrite lookup_insert_eq|].
  split; [|done]. by apply new_events_app.
Qed.

Lemma broadcastMsg_run d a w :
  broadcastMsg d a w = ((), w_log (λ l, l ++ broadcast_frames d a w) w).
Proof.
  unfold broadcastMsg, broadcastMsgLocal, broadcast_frames. mrun.
  assert (∀ e, remoteAuthed (w_log (λ l, l ++ [e]) w) = remoteAuthed w) as -> by done.
  destruct (remoteAuthed w) as [r|]; mrun; unfold w_log; cbn; by rewrite <- ?app_assoc.
Qed.

Lemma startError_log hrtime c msg id w :
  let w' := exec (startError hrtime c msg id) w in
  config w' = config w ∧ fs w' = fs w ∧ isStreaming w' = isStreaming w ∧
  netif w' = netif w ∧
  log w' = log w ++ start_error c msg
                      (if decide (id = JUndef) then senderId (conn_get c w) else id).
Proof.
  unfold startError, notificationSend, conn_set. mrun. wsimpl.
  destruct (decide (id = JUndef)) as [Hid|Hid].
  - rewrite bool_decide_eq_false_2 by (by intros []). mrun. wsimpl.
    repeat split; try done. by rewrite <- app_assoc.
  - rewrite bool_decide_eq_true_2 by done. mrun. wsimpl.
    repeat split; try done. unfold conn_get. wsimpl.
    rewrite lookup_insert_eq. cbn [default senderId c_senderId].
    by rewrite <- app_assoc.
Qed.

(** X2.  The function that [start] hands to [updateConfig] writes the
    uplink file first.  With no interface enabled it refuses with the
    [start_error] notification and starts nothing; otherwise it marks the
    appliance as streaming, spawns [srtla_send] and then [belacoder] with
    the values stored in [config] ([-s] only for a non-empty stream id),
    and broadcasts the new status. *)
Theorem start_callback_spec (setup : Setup) (hrtime : nat → Z) (c : nat)
    (senderId0 : jsval) (pipeline : string) (w : world) :
  let w' := exec (start_callback setup hrtime c senderId0 pipeline) w in
  let ips := enabled_ips (netif w) in
  let cfg := config w in
  (ips = [] →
     isStreaming w' = isStreaming w ∧
     new_events w w' =
       EWriteFile (ips_file setup) (FText "") ::
       start_error c "Failed to start, no available network connections"
         (if decide (senderId0 = JUndef) then senderId (conn_get c w) else senderId0)) ∧
  (ips ≠ [] →
     isStreaming w' = true ∧
     new_events w w' =
       [ EWriteFile (ips_file setup) (FText (unlines ips));
         ESpawnLoop (srtlaSendExec setup)
           [ "9000"; show_arg (js_get cfg "srtla_addr");
             show_arg (js_get cfg "srtla_port"); ips_file setup ] 100;
         ESpawnLoop (belacoderExec setup)
           ([ pipeline; "127.0.0.1"; "9000"; "-d"; show_arg (js_get cfg "delay");
              "-b"; bitrate_file setup; "-l"; show_arg (js_get cfg "srt_latency") ] ++
            (if decide (js_get cfg "srt_streamid" = JStr "") then []
             else [ "-s"; show_arg (js_get cfg "srt_streamid") ])) 2000 ] ++
       broadcast_frames (PStatusStreaming true) 0 w).
Proof.
  intros w' ips cfg. subst w' ips cfg. unfold start_callback, exec.
  cbv beta iota zeta delta [mbind M_bind mret M_ret gets]. rewrite genSrtlaIpList_run.
  split.
  - intros ->. cbn [length unlines foldr]. change (Z.of_nat 0 <? 1) with true.
    cbv beta iota.
    match goal with |- context [startError hrtime c ?m ?i ?w0] =>
      pose proof (startError_log hrtime c m i w0) as (_ & _ & Hs & _ & Hl);
      unfold exec in Hs, Hl; destruct (startError hrtime c m i w0) as [b w1]
    end.
    cbn [snd] in *. wsimpl in Hs. wsimpl in Hl. split; [done|].
    apply new_events_app. rewrite Hl. by rewrite <- app_assoc.
  - intros Hips.
    assert ((Z.of_nat (length (enabled_ips (netif w))) <? 1) = false) as ->.
    { apply Z.ltb_ge. destruct (enabled_ips (netif w)); [done|]. cbn [length]. lia. }
    cbv beta iota. unfold spawnStreamingLoop, updateStatus. mrun. wsimpl.
    rewrite broadcastMsg_run. mrun. wsimpl. split; [done|].
    apply new_events_app. wsimpl. rewrite <- !app_assoc. cbn [app].
    do 5 f_equal.
    by destruct (decide (js_get (config w) "srt_streamid" = JStr ""));
      [rewrite bool_decide_eq_false_2 by (by intros [])|rewrite bool_decide_eq_true_2].
Qed.

Section UpdateConfig.
Variable setup : Setup.
Variable pipelines : gmap string string.
Variable hrtime : nat → Z.









End UpdateConfig.


(** ** What the event loop keeps *)

Lemma preserves_gets_True (I : world → Prop) {A} (f : world → A) :
  preserves I (gets f) (λ _, True).
Proof. by apply preserves_gets. Qed.

Lemma saves_modify {A} (f : world → world) (k : M A) φ :
  (∀ w, unsaved w → unsaved (f w)) → saves k φ → saves (modify f ≫= λ _, k) φ.
Proof. intros Hf Hk w Hw. apply (Hk (f w)). by apply Hf. Qed.

Lemma consistent_unsaved w : consistent w → unsaved w.
Proof. by intros (_ & ? & ?). Qed.

Lemma saves_preserves {A} (m : M A) φ : saves m φ → preserves consistent m φ.
Proof. intros Hm w Hw. by apply Hm, consistent_unsaved. Qed.

Lemma saveConfig_consistent w : unsaved w → consistent (exec saveConfig w).
Proof.
  intros [Ht Hp]. unfold exec. rewrite saveConfig_run. cbv zeta.
  split; [|split]; [| |done].
  - intros doc. wsimpl. rewrite lookup_insert_eq. intros [= <-].
    f_equal. by rewrite insert_delete_eq, insert_insert_eq.
  - intros doc. wsimpl. rewrite lookup_insert_ne by done. apply Ht.
Qed.

Lemma saves_saveConfig {A} (k : M A) φ :
  preserves consistent k φ → saves (saveConfig ≫= λ _, k) φ.
Proof.
  intros Hk w Hw. pose proof (saveConfig_consistent w Hw) as Hs.
  unfold exec in Hs. unfold mbind, M_bind.
  destruct (saveConfig w) as [[] w1]. by apply Hk.
Qed.

Lemma saves_saveConfig_end : saves saveConfig (λ _, True).
Proof. intros w Hw. split; [|done]. by apply saveConfig_consistent. Qed.

Lemma tokens_resaved f :
  preserves consistent (modify (w_tokens id f) ≫= λ _, savePersistentTokens) (λ _, True).
Proof.
  intros w (Hc & Ht & Hp). split; [|done]. unfold savePersistentTokens. mrun.
  split; [|split]; [| |done].
  - intros doc. wsimpl. rewrite lookup_insert_ne by done. apply Hc.
  - intros doc. wsimpl. rewrite lookup_insert_eq. by intros [= <-].
Qed.

Section Consistent.
Variable setup : Setup.
Variable pipelines : gmap string string.
Variable hashSync : string → Z → string.
Variable hrtime : nat → Z.

Create HintDb cons.

Ltac keep_post :=
  lazymatch goal with
  | |- @preserves _ ?A _ ?φ =>
      tryif is_evar φ then unify φ (λ _ : A, True) else idtac
  end.

Ltac keep_step :=
  lazymatch goal with
  | |- preserves _ (mret _) _ => apply preserves_ret
  | |- preserves _ (modify (w_config _) ≫= _) _ =>
      apply saves_preserves;
      repeat (apply saves_modify; [let H := fresh in intros ? H; exact H|]);
      first [apply saves_saveConfig | apply saves_saveConfig_end]
  | |- preserves _ (modify (w_tokens id _) ≫= _) _ => apply tokens_resaved
  | |- preserves _ (_ ≫= _) _ => eapply preserves_bind; [|intros ? ?]
  | |- preserves _ (gets _) _ => apply preserves_gets_True
  | |- preserves _ (modify _) _ =>
      apply preserves_modify; let H := fresh in intros ? H; exact H
  | |- preserves _ (emit _) _ =>
      apply preserves_modify; let H := fresh in intros ? H; exact H
  | |- preserves _ (when _ _) _ => apply preserves_when
  | |- preserves _ (match ?x with _ => _ end) _ =>
      keep_post; first [progress cbv beta iota | destruct x eqn:?]
  | |- preserves _ _ _ =>
      first [ by eauto with cons | eapply preserves_weaken; by eauto with cons ]
  end.

Ltac keep := repeat keep_step.

Lemma cons_getms : preserves consistent (getms hrtime) (λ _, True).
Proof. intros w Hw. by split. Qed.
Hint Resolve cons_getms : cons.

Lemma cons_write_text path s :
  preserves consistent (writeFileSync path (FText s)) (λ _, True).
Proof.
  intros w (Hc & Ht & Hp). split; [|done]. mrun. split; [|split]; [| |done].
  - intros doc. wsimpl. destruct (decide (path = CONFIG_FILE)) as [->|Hne].
    + by rewrite lookup_insert_eq.
    + rewrite lookup_insert_ne by done. apply Hc.
  - intros doc. wsimpl. destruct (decide (path = AUTH_TOKENS_FILE)) as [->|Hne].
    + by rewrite lookup_insert_eq.
    + rewrite lookup_insert_ne by done. apply Ht.
Qed.
Hint Resolve cons_write_text : cons.

Lemma cons_saveConfig : preserves consistent saveConfig (λ _, True).
Proof. apply saves_preserves, saves_saveConfig_end. Qed.
Hint Resolve cons_saveConfig : cons.

Lemma cons_conn_set c f : preserves consistent (conn_set c f) (λ _, True).
Proof. unfold conn_set. keep. Qed.
Hint Resolve cons_conn_set : cons.

Lemma cons_killall sig prog : preserves consistent (killall sig prog) (λ _, True).
Proof. unfold killall. keep. Qed.
Hint Resolve cons_killall : cons.

Lemma cons_broadcastMsgLocal d a ex :
  preserves consistent (broadcastMsgLocal d a ex) (λ _, True).
Proof. unfold broadcastMsgLocal. keep. Qed.
Hint Resolve cons_broadcastMsgLocal : cons.

Lemma cons_broadcastMsg d a : preserves consistent (broadcastMsg d a) (λ _, True).
Proof. unfold broadcastMsg. keep. Qed.
Hint Resolve cons_broadcastMsg : cons.

Lemma cons_broadcastMsgExcept c d :
  preserves consistent (broadcastMsgExcept c d) (λ _, True).
Proof. unfold broadcastMsgExcept. keep. Qed.
Hint Resolve cons_broadcastMsgExcept : cons.

Lemma cons_notificationSend c name type msg duration isPersistent isDismissable :
  preserves consistent
    (notificationSend hrtime c name type msg duration isPersistent isDismissable)
    (λ _, True).
Proof. unfold notificationSend. keep. Qed.
Hint Resolve cons_notificationSend : cons.

Lemma cons_startError c msg id :
  preserves consistent (startError hrtime c msg id) (λ _, True).
Proof. unfold startError. keep. Qed.
Hint Resolve cons_startError : cons.

Lemma cons_setBitrate max_br :
  preserves consistent (setBitrate setup max_br) (λ _, True).
Proof. unfold setBitrate. keep. Qed.
Hint Resolve cons_setBitrate : cons.

Lemma cons_sendStatus c : preserves consistent (sendStatus c) (λ _, True).
Proof. unfold sendStatus. keep. Qed.
Hint Resolve cons_sendStatus : cons.

Lemma cons_updateStatus b : preserves consistent (updateStatus b) (λ _, True).
Proof. unfold updateStatus. keep. Qed.
Hint Resolve cons_updateStatus : cons.

Lemma cons_genSrtlaIpList : preserves consistent (genSrtlaIpList setup) (λ _, True).
Proof. unfold genSrtlaIpList. keep. Qed.
Hint Resolve cons_genSrtlaIpList : cons.

Lemma cons_updateSrtlaIps : preserves consistent (updateSrtlaIps setup) (λ _, True).
Proof. unfold updateSrtlaIps. keep. Qed.
Hint Resolve cons_updateSrtlaIps : cons.

Lemma cons_spawnStreamingLoop command args cooldown :
  preserves consistent (spawnStreamingLoop command args cooldown) (λ _, True).
Proof. unfold spawnStreamingLoop. keep. Qed.
Hint Resolve cons_spawnStreamingLoop : cons.

Lemma cons_updateConfig c params :
  preserves consistent (updateConfig setup pipelines hrtime c params) (λ _, True).
Proof. unfold updateConfig. keep. Qed.
Hint Resolve cons_updateConfig : cons.

Lemma cons_start_callback c senderId pipeline :
  preserves consistent (start_callback setup hrtime c senderId pipeline) (λ _, True).
Proof. unfold start_callback. keep. Qed.
Hint Resolve cons_start_callback : cons.

Lemma cons_updateConfig_callback l resolved callback :
  (∀ p, preserves consistent (callback p) (λ _, True)) →
  preserves consistent (updateConfig_callback hrtime l resolved callback) (λ _, True).
Proof.
  intros Hcb. unfold updateConfig_callback. keep.
Qed.

Lemma cons_start c params :
  preserves consistent (start setup pipelines hrtime c params) (λ _, True).
Proof. unfold start. keep. Qed.
Hint Resolve cons_start : cons.

Lemma cons_stop : preserves consistent stop (λ _, True).
Proof. unfold stop. keep. Qed.
Hint Resolve cons_stop : cons.

Lemma cons_updateNetif stdout :
  preserves consistent (updateNetif setup hrtime stdout) (λ _, True).
Proof. unfold updateNetif. keep. Qed.
Hint Resolve cons_updateNetif : cons.

Lemma cons_countActiveNetif : preserves consistent countActiveNetif (λ _, True).
Proof. unfold countActiveNetif. keep. Qed.
Hint Resolve cons_countActiveNetif : cons.

Lemma cons_handleNetif c msg :
  preserves consistent (handleNetif setup hrtime c msg) (λ _, True).
Proof. unfold handleNetif. keep. Qed.
Hint Resolve cons_handleNetif : cons.

Lemma cons__notificationIsLive n :
  preserves consistent (_notificationIsLive hrtime n) (λ _, True).
Proof. unfold _notificationIsLive. keep. Qed.
Hint Resolve cons__notificationIsLive : cons.

Lemma cons_liveNotifications l :
  preserves consistent (liveNotifications hrtime l) (λ _, True).
Proof. induction l as [|n l IH]; cbn [liveNotifications]; keep. Qed.
Hint Resolve cons_liveNotifications : cons.

Lemma cons_notificationSendPersistent c :
  preserves consistent (notificationSendPersistent hrtime c) (λ _, True).
Proof. unfold notificationSendPersistent. keep. Qed.
Hint Resolve cons_notificationSendPersistent : cons.

Lemma cons_resetSshPassword c outcome :
  preserves consistent (resetSshPassword setup hrtime c outcome) (λ _, True).
Proof.
  unfold resetSshPassword.
  destruct (ssh_user setup) as [user|]; [|apply preserves_ret].
  destruct outcome as [| |password hash]; keep.
Qed.
Hint Resolve cons_resetSshPassword : cons.

Lemma cons_setPassword c password isRemote :
  preserves consistent (setPassword hashSync hrtime c password isRemote) (λ _, True).
Proof.
  unfold setPassword. keep.
Qed.
Hint Resolve cons_setPassword : cons.

Lemma cons_genAuthToken isPersistent token :
  preserves consistent (genAuthToken isPersistent token) (λ _, True).
Proof.
  unfold genAuthToken. destruct isPersistent; keep.
Qed.
Hint Resolve cons_genAuthToken : cons.

Lemma cons_sendInitialStatus c :
  preserves consistent (sendInitialStatus hrtime c) (λ _, True).
Proof. unfold sendInitialStatus. keep. Qed.
Hint Resolve cons_sendInitialStatus : cons.

Lemma cons_connAuth c sendToken :
  preserves consistent (connAuth hrtime c sendToken) (λ _, True).
Proof. unfold connAuth. keep. Qed.
Hint Resolve cons_connAuth : cons.

Lemma cons_tryAuth c msg : preserves consistent (tryAuth hrtime c msg) (λ _, True).
Proof. unfold tryAuth. keep. Qed.
Hint Resolve cons_tryAuth : cons.

Lemma cons_tryAuth_callback k matched fresh :
  preserves consistent (tryAuth_callback hrtime k matched fresh) (λ _, True).
Proof. unfold tryAuth_callback. keep. Qed.
Hint Resolve cons_tryAuth_callback : cons.

Lemma cons_handleRemote c msg :
  preserves consistent (handleRemote hrtime c msg) (λ _, True).
Proof. unfold handleRemote. keep. Qed.
Hint Resolve cons_handleRemote : cons.

Lemma cons_getRemoteBindAddr : preserves consistent getRemoteBindAddr (λ _, True).
Proof.
  intros w (Hc & Ht & Hp). split; [|done]. unfold getRemoteBindAddr. mrun.
  destruct (_ <? 1); mrun; wsimpl; (split; [done|]); (split; [done|]); wsimpl; [lia|].
  destruct (_ >=? _); lia.
Qed.
Hint Resolve cons_getRemoteBindAddr : cons.

Lemma cons_remoteClose c : preserves consistent (remoteClose hrtime c) (λ _, True).
Proof. unfold remoteClose. keep. Qed.
Hint Resolve cons_remoteClose : cons.

Lemma cons_remoteConnect sock :
  preserves consistent (remoteConnect hrtime sock) (λ _, True).
Proof. unfold remoteConnect. keep. Qed.
Hint Resolve cons_remoteConnect : cons.

Lemma cons_remoteKeepalive : preserves consistent (remoteKeepalive hrtime) (λ _, True).
Proof. unfold remoteKeepalive. keep. Qed.
Hint Resolve cons_remoteKeepalive : cons.

Lemma cons_setRemoteKey key sock :
  preserves consistent (setRemoteKey hrtime key sock) (λ _, True).
Proof.
  unfold setRemoteKey. keep.
Qed.
Hint Resolve cons_setRemoteKey : cons.

Lemma cons_handleConfig c msg isRemote sock :
  preserves consistent (handleConfig hashSync hrtime c msg isRemote sock) (λ _, True).
Proof. unfold handleConfig. keep. Qed.
Hint Resolve cons_handleConfig : cons.

Lemma cons_for_in msg body :
  (∀ f, preserves consistent (body f) (λ _, True)) →
  preserves consistent (for_in msg body) (λ _, True).
Proof.
  intros Hbody. induction msg as [|f msg IH]; cbn [for_in]; [apply preserves_ret|].
  eapply preserves_bind; [apply Hbody|by intros _ _].
Qed.

Lemma cons_handleMessage c msg isRemote sock :
  preserves consistent
    (handleMessage setup pipelines hashSync hrtime c msg isRemote sock) (λ _, True).
Proof.
  unfold handleMessage.
  eapply preserves_bind; [|intros _ _; eapply preserves_bind; [|intros _ _]].
  - apply preserves_when, cons_for_in. intros f. keep.
  - apply cons_for_in. intros f. keep.
  - keep. apply cons_for_in. intros f. keep.
Qed.
Hint Resolve cons_handleMessage : cons.

Lemma cons_remoteHandleMsg c remote msg id sock :
  preserves consistent
    (remoteHandleMsg setup pipelines hashSync hrtime c remote msg id sock) (λ _, True).
Proof. unfold remoteHandleMsg. keep. Qed.
Hint Resolve cons_remoteHandleMsg : cons.

Lemma cons_connection c : preserves consistent (connection hrtime c) (λ _, True).
Proof. unfold connection. keep. Qed.
Hint Resolve cons_connection : cons.

Lemma cons_main sock : preserves consistent (main hrtime sock) (λ _, True).
Proof. unfold main. keep. Qed.
Hint Resolve cons_main : cons.

Lemma cons_handle r :
  preserves consistent (handle setup pipelines hashSync hrtime r) (λ _, True).
Proof.
  destruct r; cbn [handle]; try by eauto with cons.
  apply cons_updateConfig_callback. intros p. apply cons_start_callback.
Qed.

Lemma consistent_run rs : ∀ w,
  consistent w → consistent (run setup pipelines hashSync hrtime rs w).
Proof.
  induction rs as [|r rs IH]; intros w Hw; [done|].
  cbn [run foldl]. apply IH. by apply cons_handle.
Qed.

End Consistent.

Lemma stringify_parsed (doc : gmap string jsval) :
  parsed doc →
  JSON_stringify (<["ssh_pass_hash" := js_get doc "ssh_pass_hash"]>
                    (delete "ssh_pass_hash" doc)) = doc.
Proof.
  intros Hdoc. apply map_eq. intros k. unfold JSON_stringify, js_get.
  destruct (decide (k = "ssh_pass_hash")) as [->|Hk].
  - destruct (doc !! "ssh_pass_hash") as [v|] eqn:Hv; cbn [default].
    + apply map_lookup_filter_Some. rewrite lookup_insert_eq. split; [done|].
      cbn. intros ->. by apply (Hdoc "ssh_pass_hash").
    + apply map_lookup_filter_None. right. intros v. rewrite lookup_insert_eq.
      intros [= <-]. cbn. tauto.
  - destruct (doc !! k) as [v|] eqn:Hv.
    + apply map_lookup_filter_Some. rewrite lookup_insert_ne by done.
      rewrite lookup_delete_ne by done. split; [done|].
      cbn. intros ->. by apply (Hdoc k).
    + apply map_lookup_filter_None. left.
      rewrite lookup_insert_ne by done. by rewrite lookup_delete_ne.
Qed.

Lemma startup_consistent file tokens :
  (∀ doc, file = Some doc → parsed doc) → consistent (startup file tokens).
Proof.
  intros Hfile. split; [|split]; [| |done].
  - intros doc. unfold startup. wsimpl. destruct file as [doc0|].
    + rewrite (lookup_union_Some_l _ _ _ (FJson doc0)) by apply lookup_singleton_eq.
      intros [= <-]. symmetry. by apply stringify_parsed, Hfile.
    + rewrite lookup_union_r by done. destruct tokens; [|done].
      by rewrite lookup_singleton_ne.
  - intros doc. unfold startup. wsimpl.
    rewrite lookup_union_r by (by destruct file; [rewrite lookup_singleton_ne|]).
    destruct tokens as [t|]; [|done]. rewrite lookup_singleton_eq. by intros [= <-].
Qed.

(** X5.  Whenever the event loop is idle, [config.json] holds [config]
    as it is in memory together with the SSH hash, [auth_tokens.json]
    holds the persistent tokens as they are in memory, and the index of
    the last bind address is at least -1: every handler that changes one
    of them saves it before it returns. *)
Theorem files_in_sync (setup : Setup) (pipelines : gmap string string)
    (hashSync : string → Z → string) (hrtime : nat → Z)
    (file : option (gmap string jsval)) (tokens : option (gset string))
    (rs : list request) :
  (∀ doc, file = Some doc → parsed doc) →
  let w := run setup pipelines hashSync hrtime rs (startup file tokens) in
  (∀ doc, fs w !! CONFIG_FILE = Some (FJson doc) →
     doc = JSON_stringify (<["ssh_pass_hash" := sshPasswordHash w]> (config w))) ∧
  (∀ doc, fs w !! AUTH_TOKENS_FILE = Some (FJson doc) →
     doc = gset_to_gmap (JBool true) (persistentTokens w)) ∧
  -1 ≤ prevRemoteBindAddr w.
Proof.
  intros Hfile w. by apply consistent_run, startup_consistent.
Qed.




Lemma for_in_skip (msg : message) (body : field → M unit) (w : world) :
  (∀ f, f ∈ msg → body f w = ((), w)) → for_in msg body w = ((), w).
Proof.
  induction msg as [|f msg IH]; intros H; [done|].
  cbn [for_in]. unfold mbind, M_bind. rewrite H by left.
  apply IH. intros g Hg. apply H. by right.
Qed.

Section Unauthenticated.
Variable setup : Setup.
Variable pipelines : gmap string string.
Variable hashSync : string → Z → string.
Variable hrtime : nat → Z.

Lemma handleConfig_unauthenticated c m isRemote sock w :
  isAuthed (conn_get c w) = false →
  isRemote = true ∨ truthy (js_get (config w) "password_hash") = true →
  handleConfig hashSync hrtime c m isRemote sock w = ((), w).
Proof.
  intros Hc Hr. unfold handleConfig, setPassword.
  assert (negb isRemote && negb (truthy (js_get (config w) "password_hash")) = false) as Hno.
  { destruct Hr as [-> | ->]; [done|]. by rewrite andb_false_r. }
  destruct (cm_password m); mrun; rewrite ?Hc, ?Hno; mrun; by rewrite ?Hc.
Qed.

(** X7.  A frame on a connection that is not authenticated changes nothing
    and sends nothing when it comes through the tunnel of the relay, and
    also when it comes from a local client while a password is set, unless
    it presents a token: the only effect it may have is to leave a password
    comparison pending. *)
Theorem handleMessage_unauthenticated c msg isRemote sock w :
  isAuthed (conn_get c w) = false →
  isRemote = true ∨
    truthy (js_get (config w) "password_hash") = true ∧ ¬ presents_token msg →
  handleMessage setup pipelines hashSync hrtime c msg isRemote sock w = ((), w).
Proof.
  intros Hc Hr. unfold handleMessage.
  assert (when (negb isRemote)
            (for_in msg (λ f, match f with
                              | FAuth m => tryAuth hrtime c m ;; mret ()
                              | _ => mret ()
                              end)) w = ((), w)) as H1.
  { destruct Hr as [-> | [Hp Hm]]; [done|].
    destruct isRemote; [done|]. cbn [negb when].
    apply for_in_skip. intros f Hf. destruct f as [m| | | | | | | |]; try done.
    unfold tryAuth. mrun. rewrite Hp. cbn [negb].
    destruct (a_password m) eqn:Hpw; [done|].
    destruct (a_token m) as [t|] eqn:Ht; [|done].
    destruct Hm. by exists m, t. }
  assert (for_in msg (λ f, match f with
                           | FConfig m => handleConfig hashSync hrtime c m isRemote sock
                           | _ => mret ()
                           end) w = ((), w)) as H2.
  { apply for_in_skip. intros f _. destruct f; try done.
    apply handleConfig_unauthenticated; [done|]. destruct Hr as [?|[? _]]; auto. }
  unfold mbind at 1, M_bind at 1. rewrite H1.
  unfold mbind at 1, M_bind at 1. rewrite H2.
  mrun. by rewrite Hc.
Qed.

End Unauthenticated.
Section Login.
Variable setup : Setup.
Variable pipelines : gmap string string.
Variable hashSync : string → Z → string.
Variable hrtime : nat → Z.

Lemma sendInitialStatus_keeps c w :
  let w' := exec (sendInitialStatus hrtime c) w in
  config w' = config w ∧ tempTokens w' = tempTokens w ∧
  persistentTokens w' = persistentTokens w ∧ fs w' = fs w.
Proof.
  unfold sendInitialStatus, sendStatus, notificationSendPersistent. mrun. wsimpl.
  match goal with
  | |- context [liveNotifications hrtime ?l ?w0] =>
      destruct (liveNotifications_frame hrtime l w0) as (pns & n & Hw);
      destruct (liveNotifications hrtime l w0) as [ns w1]
  end.
  cbn [snd] in *. by subst w1.
Qed.

Lemma connAuth_run c tok w :
  let w0 := exec (emit (ESend c (PAuth true tok) JUndef))
              (exec (conn_set c (c_isAuthed true)) w) in
  exec (connAuth hrtime c tok) w = exec (sendInitialStatus hrtime c) w0.
Proof. unfold connAuth. by rewrite !exec_bind. Qed.

Lemma connAuth_spec c tok w :
  let w' := exec (connAuth hrtime c tok) w in
  conn_get c w' = c_isAuthed true (conn_get c w) ∧
  config w' = config w ∧ tempTokens w' = tempTokens w ∧
  persistentTokens w' = persistentTokens w ∧ fs w' = fs w ∧
  ∃ rest, log w' = log w ++
    ESend c (PAuth true tok) JUndef :: ESend c (PConfig (config w)) JUndef :: rest.
Proof.
  intros w'. subst w'. rewrite connAuth_run. cbv zeta.
  set (w0 := exec (emit _) _).
  destruct (sendInitialStatus_frame hrtime c w0) as (Hconns & rest & Hlog).
  destruct (sendInitialStatus_keeps c w0) as (Hc & Ht & Hp & Hf).
  cbv zeta in *. set (w1 := exec (sendInitialStatus hrtime c) w0) in *.
  split; [|split; [|split; [|split; [|split]]]]; try done.
  - unfold conn_get. rewrite Hconns. subst w0. unfold conn_set, exec; mrun; wsimpl.
    by rewrite lookup_insert_eq.
  - exists rest. rewrite Hlog. subst w0.
    unfold conn_set, exec; mrun; wsimpl. by rewrite <- app_assoc.
Qed.

Lemma genAuthToken_run p t w :
  genAuthToken p t w =
  (t, if p
      then w_log (.++ [EWriteFile AUTH_TOKENS_FILE
                         (FJson (gset_to_gmap (JBool true) ({[ t ]} ∪ persistentTokens w)))])
             (w_fs (<[AUTH_TOKENS_FILE :=
                       FJson (gset_to_gmap (JBool true) ({[ t ]} ∪ persistentTokens w))]>)
                (w_tokens id ({[ t ]} ∪.) w))
      else w_tokens ({[ t ]} ∪.) id w).
Proof. unfold genAuthToken, savePersistentTokens. destruct p; mrun; reflexivity. Qed.

Lemma tryAuth_callback_run k fresh w :
  exec (tryAuth_callback hrtime k true fresh) w =
  exec (connAuth hrtime (k_conn k) (Some fresh))
    (exec (conn_set (k_conn k) (c_authToken (Some fresh)))
       (genAuthToken (k_persistent_token k) fresh w).2).
Proof.
  unfold tryAuth_callback. rewrite !exec_bind. unfold eval, exec at 3.
  by rewrite genAuthToken_run.
Qed.

(** X8.  When the comparison of a login succeeds, the connection is
    authenticated and remembers the token drawn for it; the token joins the
    persistent set, and [auth_tokens.json] is rewritten with it, or joins
    the transient set and no file is touched, as the request asked.  The
    client is sent the token and then [config].  While a password is set,
    the token then authenticates any connection that presents it. *)
Theorem login_round_trip k fresh w :
  truthy (js_get (config w) "password_hash") = true →
  let c := k_conn k in
  let w' := exec (tryAuth_callback hrtime k true fresh) w in
  isAuthed (conn_get c w') = true ∧
  authToken (conn_get c w') = Some fresh ∧
  (if k_persistent_token k
   then persistentTokens w' = {[ fresh ]} ∪ persistentTokens w ∧
        tempTokens w' = tempTokens w ∧
        fs w' = <[AUTH_TOKENS_FILE :=
                   FJson (gset_to_gmap (JBool true) ({[ fresh ]} ∪ persistentTokens w))]>
                  (fs w)
   else tempTokens w' = {[ fresh ]} ∪ tempTokens w ∧
        persistentTokens w' = persistentTokens w ∧
        fs w' = fs w) ∧
  (∃ rest, new_events w w' =
     (if k_persistent_token k
      then [EWriteFile AUTH_TOKENS_FILE
              (FJson (gset_to_gmap (JBool true) ({[ fresh ]} ∪ persistentTokens w)))]
      else []) ++
     ESend c (PAuth true (Some fresh)) JUndef ::
     ESend c (PConfig (config w)) JUndef :: rest) ∧
  ∀ c' persistent,
    let again := {| a_password := None; a_persistent_token := persistent;
                    a_token := Some fresh |} in
    let w'' := exec (tryAuth hrtime c' again) w' in
    isAuthed (conn_get c' w'') = true ∧ authToken (conn_get c' w'') = Some fresh.
Proof.
  intros Hpw c w'. subst w'. rewrite tryAuth_callback_run. fold c.
  rewrite genAuthToken_run. cbn [snd].
  set (w0 := if k_persistent_token k then _ else _).
  set (w1 := exec (conn_set c (c_authToken (Some fresh))) w0).
  destruct (connAuth_spec c (Some fresh) w1) as (Hconn & Hcfg & Htt & Hpt & Hfs & rest & Hev).
  cbv zeta in *. set (w' := exec (connAuth hrtime c (Some fresh)) w1) in *.
  assert (conn_get c w1 = c_authToken (Some fresh) (conn_get c w0)) as Hc1.
  { subst w1. unfold conn_get, conn_set, exec; mrun; wsimpl. by rewrite lookup_insert_eq. }
  assert (config w1 = config w) as Hcfg1.
  { subst w1 w0. by destruct (k_persistent_token k). }
  assert (log w1 = log w ++
            (if k_persistent_token k
             then [EWriteFile AUTH_TOKENS_FILE
                     (FJson (gset_to_gmap (JBool true) ({[ fresh ]} ∪ persistentTokens w)))]
             else [])) as Hlog1.
  { subst w1 w0. destruct (k_persistent_token k).
    - reflexivity.
    - by rewrite app_nil_r. }
  assert (if k_persistent_token k
          then persistentTokens w1 = {[ fresh ]} ∪ persistentTokens w ∧
               tempTokens w1 = tempTokens w ∧
               fs w1 = <[AUTH_TOKENS_FILE :=
                          FJson (gset_to_gmap (JBool true) ({[ fresh ]} ∪ persistentTokens w))]>
                         (fs w)
          else tempTokens w1 = {[ fresh ]} ∪ tempTokens w ∧
               persistentTokens w1 = persistentTokens w ∧
               fs w1 = fs w) as Hsets.
  { subst w1 w0. by destruct (k_persistent_token k). }
  rewrite Hconn, Hc1, Htt, Hpt, Hfs.
  split; [done|]. split; [done|]. split; [done|]. split.
  - exists rest. apply new_events_app.
    rewrite Hev, Hlog1, Hcfg1. by rewrite <- app_assoc.
  - intros c' persistent. rewrite tryAuth_token_run.
    assert (config w' = config w) as -> by congruence.
    rewrite Hpw. cbn [negb].
    assert (has_token (tempTokens w') fresh || has_token (persistentTokens w') fresh = true) as ->.
    { rewrite Htt, Hpt. unfold has_token. destruct (k_persistent_token k).
      - destruct Hsets as (-> & _). rewrite (bool_decide_eq_true_2 (fresh ∈ {[fresh]} ∪ _))
          by (apply elem_of_union_l; by apply elem_of_singleton).
        by rewrite orb_true_r.
      - destruct Hsets as (-> & _). by rewrite (bool_decide_eq_true_2 (fresh ∈ {[fresh]} ∪ _))
          by (apply elem_of_union_l; by apply elem_of_singleton). }
    destruct (tryAuth_token_accept hrtime w' c' fresh) as [-> _]. done.
Qed.

(** X9.  A [logout] frame on an authenticated connection ends the
    session and revokes its token: the connection is no longer
    authenticated and forgets the token, the token leaves both sets, and
    [auth_tokens.json] is rewritten without it when it was persistent.  A
    later [auth] request with that token is answered [{success: false}] on
    any connection and authenticates nothing.  The token is a non-empty
    string other than the names a token table inherits. *)
Theorem logout_revokes c t sock w :
  isAuthed (conn_get c w) = true →
  authToken (conn_get c w) = Some t →
  t ≠ "" →
  t ∉ object_prototype_keys →
  let w' := exec (handleMessage setup pipelines hashSync hrtime c [FLogout] false sock) w in
  isAuthed (conn_get c w') = false ∧
  authToken (conn_get c w') = None ∧
  tempTokens w' = tempTokens w ∖ {[ t ]} ∧
  persistentTokens w' = persistentTokens w ∖ {[ t ]} ∧
  (if bool_decide (t ∈ persistentTokens w)
   then fs w' = <[AUTH_TOKENS_FILE :=
                   FJson (gset_to_gmap (JBool true) (persistentTokens w ∖ {[ t ]}))]> (fs w)
   else fs w' = fs w) ∧
  ∀ c' persistent,
    let again := {| a_password := None; a_persistent_token := persistent;
                    a_token := Some t |} in
    let w'' := exec (tryAuth hrtime c' again) w' in
    conns w'' = conns w' ∧
    new_events w' w'' = [ESend c' (PAuth false None) JUndef].
Proof.
  intros Hc Ht Hne Hproto w'.
  assert (String.eqb t "" = false) as Heqb by by apply String.eqb_neq.
  assert (w' =
    exec (conn_set c (c_lastActive (hrtime (reads w))))
      (w_reads (S (reads w))
        (exec (conn_set c (c_authToken None))
          (exec (conn_set c (c_isAuthed false))
            (if bool_decide (t ∈ persistentTokens w)
             then exec savePersistentTokens
                    (w_tokens (.∖ {[ t ]}) (.∖ {[ t ]}) w)
             else w_tokens (.∖ {[ t ]}) id w))))) as Hw'.
  { subst w'. unfold handleMessage, exec. cbn [negb when for_in]. mrun.
    rewrite Hc. mrun. wsimpl.
    change (conn_get c (w_tokens ?f ?g ?w0)) with (conn_get c w0).
    rewrite Ht, Heqb. mrun. wsimpl.
    rewrite has_token_plain by done. unfold id at 1.
    destruct (bool_decide (t ∈ persistentTokens w));
      unfold savePersistentTokens, conn_set, getms; mrun; reflexivity. }
  assert (tempTokens w' = tempTokens w ∖ {[ t ]} ∧
          persistentTokens w' = persistentTokens w ∖ {[ t ]} ∧
          config w' = config w) as (Htt & Hpt & Hcfg).
  { rewrite Hw'. destruct (bool_decide (t ∈ persistentTokens w)) eqn:Hin;
      unfold savePersistentTokens, conn_set, exec; mrun; wsimpl; [done|].
    apply bool_decide_eq_false in Hin. split; [done|]. split; [|done].
    unfold id. symmetry. apply difference_disjoint_L. by apply disjoint_singleton_r. }
  split; [|split; [|split; [|split; [|split]]]]; try done.
  - rewrite Hw'. unfold conn_get, conn_set, exec; mrun; wsimpl.
    by rewrite !lookup_insert_eq.
  - rewrite Hw'. unfold conn_get, conn_set, exec; mrun; wsimpl.
    by rewrite !lookup_insert_eq.
  - rewrite Hw'. destruct (bool_decide (t ∈ persistentTokens w));
      unfold savePersistentTokens, conn_set, exec; mrun; done.
  - intros c' persistent. cbv zeta. rewrite tryAuth_token_run.
    rewrite !has_token_plain by done. rewrite Htt, Hpt.
    rewrite (bool_decide_eq_false_2 (t ∈ tempTokens w ∖ {[ t ]}))
      by (rewrite elem_of_difference, elem_of_singleton; by intros [_ []]).
    rewrite (bool_decide_eq_false_2 (t ∈ persistentTokens w ∖ {[ t ]}))
      by (rewrite elem_of_difference, elem_of_singleton; by intros [_ []]).
    cbn [orb].
    assert (∀ b : bool, (if b then exec (emit (ESend c' (PAuth false None) JUndef)) w'
                         else exec (emit (ESend c' (PAuth false None) JUndef)) w') =
                        exec (emit (ESend c' (PAuth false None) JUndef)) w') as ->
      by by intros [].
    split; [done|]. by apply new_events_app.
Qed.

End Login.
Section Uplinks.
Variable setup : Setup.
Variable hrtime : nat → Z.





End Uplinks.
Section Poll.
Variable setup : Setup.
Variable hrtime : nat → Z.

Lemma scanBlock_unlisted old acc int :
  listed int = false → scanBlock old acc int = acc.
Proof.
  unfold listed, scanBlock.
  destruct (_ || _); [done|]. cbn [negb andb].
  destruct (blk_inet int); [|done]. destruct (blk_tx int); [|done].
  rewrite !bool_decide_eq_true_2 by by eexists. done.
Qed.

Lemma scanBlock_listed old acc int :
  listed int = true →
  ∃ a t e, blk_inet int = Some a ∧ blk_tx int = Some t ∧ ip e = a ∧ txb e = t ∧
    scanBlock old acc int =
      (aput (blk_name int) e acc.1,
       match aget (blk_name int) old with
       | Some o => if String.eqb (ip o) a then acc.2 else true
       | None => true
       end).
Proof.
  unfold listed, scanBlock.
  destruct (_ || _); [done|]. cbn [negb andb].
  destruct (blk_inet int) as [a|]; [|done]. destruct (blk_tx int) as [t|].
  - intros _. exists a, t. eexists. split; [done|]. split; [done|].
    split; [|split; [|reflexivity]]; done.
  - by rewrite andb_false_r.
Qed.

Lemma scan_members old blocks name : ∀ acc,
  is_Some (aget name (foldl (scanBlock old) acc blocks).1) ↔
  is_Some (aget name acc.1) ∨
  ∃ int, int ∈ blocks ∧ listed int = true ∧ blk_name int = name.
Proof.
  induction blocks as [|b blocks IH]; intros acc; cbn [foldl].
  - split; [by left|]. intros [?|(int & Hin & _)]; [done|]. by apply elem_of_nil in Hin.
  - rewrite IH. destruct (listed b) eqn:Hb.
    + destruct (scanBlock_listed old acc b Hb) as (a & t & e & _ & _ & _ & _ & ->).
      cbn [fst]. destruct (decide (blk_name b = name)) as [Hn|Hn].
      * rewrite Hn, aget_aput_eq. split.
        -- intros _. right. exists b. split; [left|done].
        -- intros _. left. by eexists.
      * rewrite aget_aput_ne by done. split.
        -- intros [?|(int & Hin & ?)]; [by left|]. right. exists int. split; [by right|done].
        -- intros [?|(int & Hin & Hl & Hname)]; [by left|].
           apply elem_of_cons in Hin as [->|Hin]; [done|]. right. by exists int.
    + rewrite scanBlock_unlisted by done. split.
      * intros [?|(int & Hin & ?)]; [by left|]. right. exists int. split; [by right|done].
      * intros [?|(int & Hin & Hl & Hname)]; [by left|].
        apply elem_of_cons in Hin as [->|Hin]; [congruence|]. right. by exists int.
Qed.

Lemma scan_values old blocks name e : ∀ acc,
  aget name (foldl (scanBlock old) acc blocks).1 = Some e →
  aget name acc.1 = Some e ∨
  ∃ int, int ∈ blocks ∧ listed int = true ∧ blk_name int = name ∧
         blk_inet int = Some (ip e) ∧ blk_tx int = Some (txb e).
Proof.
  induction blocks as [|b blocks IH]; intros acc; cbn [foldl]; [by left|].
  intros H. apply IH in H as [H|(int & Hin & ?)].
  - destruct (listed b) eqn:Hb.
    + destruct (scanBlock_listed old acc b Hb) as (a & t & e' & Ha & Ht & Hip & Htx & Hs).
      rewrite Hs in H. cbn [fst] in H.
      destruct (decide (blk_name b = name)) as [Hn|Hn].
      * rewrite Hn, aget_aput_eq in H. injection H as ->.
        right. exists b. rewrite Hip, Htx. split; [left|done].
      * rewrite aget_aput_ne in H by done. by left.
    + rewrite scanBlock_unlisted in H by done. by left.
  - right. exists int. split; [by right|done].
Qed.

Lemma scan_found old blocks : ∀ acc,
  (foldl (scanBlock old) acc blocks).2 = true ↔
  acc.2 = true ∨ ∃ int, int ∈ blocks ∧ moved old int.
Proof.
  induction blocks as [|b blocks IH]; intros acc; cbn [foldl].
  - split; [by left|]. intros [?|(int & Hin & _)]; [done|]. by apply elem_of_nil in Hin.
  - rewrite IH. destruct (listed b) eqn:Hb.
    + destruct (scanBlock_listed old acc b Hb) as (a & t & e' & Ha & Ht & Hip & Htx & ->).
      cbn [snd].
      assert (match aget (blk_name b) old with
              | Some o => if String.eqb (ip o) a then acc.2 else true
              | None => true
              end = true ↔ acc.2 = true ∨ moved old b) as ->.
      { unfold moved. rewrite Ha. destruct (aget (blk_name b) old) as [o|].
        - destruct (String.eqb_spec (ip o) a) as [Heq|Hne].
          + split; [by left|]. intros [?|(_ & a' & [= <-] & Hm)]; [done|].
            by destruct (Hm o eq_refl).
          + split; [|done]. intros _. right. split; [done|]. exists a. split; [done|].
            by intros ? [= <-].
        - split; [|done]. intros _. right. split; [done|]. by exists a. }
      split.
      * intros [[?|?]|(int & Hin & ?)]; [by left| |].
        -- right. exists b. split; [left|done].
        -- right. exists int. split; [by right|done].
      * intros [?|(int & Hin & Hm)]; [by left; left|].
        apply elem_of_cons in Hin as [->|Hin]; [by left; right|]. right. by exists int.
    + rewrite scanBlock_unlisted by done. split.
      * intros [?|(int & Hin & ?)]; [by left|]. right. exists int. split; [by right|done].
      * intros [?|(int & Hin & Hm)]; [by left|].
        apply elem_of_cons in Hin as [->|Hin]; [|right; by exists int].
        destruct Hm as [Hl _]. congruence.
Qed.

(** X11.  The table after a poll has an entry for exactly the interfaces
    that [ifconfig] listed with an IPv4 address and a transmit counter,
    the loopback and the Docker and [l4tbr] bridges apart, so an interface
    that is gone from the report is gone from the table; and the address
    and the counter of an entry are those of a block of that name. *)
Theorem updateNetif_members (blocks : list ifblock) (w : world) (name : string) :
  let w' := exec (updateNetif setup hrtime (Some blocks)) w in
  (is_Some (aget name (netif w')) ↔
   ∃ int, int ∈ blocks ∧ listed int = true ∧ blk_name int = name) ∧
  ∀ e, aget name (netif w') = Some e →
       ∃ int, int ∈ blocks ∧ listed int = true ∧ blk_name int = name ∧
              blk_inet int = Some (ip e) ∧ blk_tx int = Some (txb e).
Proof.
  intros w'. subst w'. rewrite updateNetif_netif. split.
  - rewrite scan_members. cbn [fst aget]. split; [|by right].
    intros [[? [=]]|?]; done.
  - intros e H. by apply scan_values in H as [[=]|?].
Qed.

(** X12.  A poll sends the new table to the clients active in the last
    15 s and to the relay.  While streaming, if the report lists an
    interface that is new or has changed its address, it then rewrites the
    list of uplink addresses from the new table and sends [srtla_send] a
    hangup; otherwise it does neither. *)
Theorem updateNetif_reload (blocks : list ifblock) (w : world) :
  let w' := exec (updateNetif setup hrtime (Some blocks)) w in
  let frames :=
    broadcast_frames (PNetif (netif w')) (hrtime (reads w) - ACTIVE_TO) w in
  let reload :=
    [ EWriteFile (ips_file setup) (FText (unlines (enabled_ips (netif w'))));
      ESignal "HUP" "srtla_send" ] in
  let changed := isStreaming w = true ∧ ∃ int, int ∈ blocks ∧ moved (netif w) int in
  (changed → new_events w w' = frames ++ reload) ∧
  (¬ changed → new_events w w' = frames).
Proof.
  intros w'. subst w'. rewrite updateNetif_netif.
  pose proof (scan_found (netif w) blocks ([], false)) as Hfound. cbn [snd] in Hfound.
  set (scan := foldl (scanBlock (netif w)) ([], false) blocks) in *.
  assert (exec (updateNetif setup hrtime (Some blocks)) w =
          exec (when (scan.2 && isStreaming w) (updateSrtlaIps setup))
            (exec (broadcastMsg (PNetif scan.1) (hrtime (reads w) - ACTIVE_TO))
               (w_reads (S (reads w)) (w_netif scan.1 w)))) as ->.
  { unfold updateNetif, exec, getms. mrun. rewrite !broadcastMsg_run. mrun. wsimpl.
    reflexivity. }
  unfold exec. rewrite !broadcastMsg_run. cbn [snd].
  assert (∀ d a, broadcast_frames d a (w_reads (S (reads w)) (w_netif scan.1 w)) =
                 broadcast_frames d a w) as -> by done.
  split.
  - intros [Hs Hm]. rewrite Hs, (proj2 Hfound) by by right. cbn [andb when].
    unfold updateSrtlaIps. mrun. rewrite genSrtlaIpList_run. mrun. wsimpl.
    apply new_events_app. wsimpl. by rewrite <- !app_assoc.
  - intros Hno. assert (scan.2 && isStreaming w = false) as ->.
    { destruct (isStreaming w) eqn:Hs; [|by rewrite andb_false_r].
      rewrite andb_true_r. apply not_true_is_false. intros Hf.
      destruct Hno. split; [done|]. by apply Hfound in Hf as [?|?]. }
    cbn [when]. by apply new_events_app.
Qed.

End Poll.
Section Tunnel.
Variable hrtime : nat → Z.

Lemma aget_key_at {A} (t : list (string * A)) (i : nat) (k : string) (v : A) :
  NoDup t.*1 → t !! i = Some (k, v) → aget k t = Some v.
Proof.
  revert i. induction t as [|[k' v'] t IH]; intros i Hnd Hi; [done|].
  apply NoDup_cons in Hnd as [Hk' Hnd]. cbn [aget].
  destruct i as [|i]; cbn in Hi.
  - injection Hi as -> ->. by rewrite String.eqb_refl.
  - destruct (String.eqb_spec k k') as [->|Hne]; [|by eapply IH].
    destruct Hk'. apply list_elem_of_fmap. exists (k', v). split; [done|].
    by eapply list_elem_of_lookup_2.
Qed.

(** X13.  The tunnel is bound to the interfaces in turn: given a table
    of [n] interfaces, [getRemoteBindAddr] moves its index to the next
    position, back to the first after the last (or when the table has
    shrunk under it), and returns the address of the entry there.  On an
    empty table it returns nothing and resets the index to -1. *)
Theorem getRemoteBindAddr_round_robin (w : world) :
  NoDup (netif w).*1 →
  -1 ≤ prevRemoteBindAddr w →
  let n := Z.of_nat (length (netif w)) in
  let next := if decide (prevRemoteBindAddr w + 1 < n)
              then prevRemoteBindAddr w + 1 else 0 in
  let w' := exec getRemoteBindAddr w in
  netif w' = netif w ∧
  if decide (n = 0)
  then eval getRemoteBindAddr w = None ∧ prevRemoteBindAddr w' = -1
  else prevRemoteBindAddr w' = next ∧ 0 ≤ next < n ∧
       ∃ k e, netif w !! Z.to_nat next = Some (k, e) ∧
              eval getRemoteBindAddr w = Some (ip e).
Proof.
  intros Hnd Hprev n next.
  unfold getRemoteBindAddr, exec, eval. mrun. rewrite length_fmap. fold n.
  destruct (decide (n = 0)) as [Hn|Hn].
  - rewrite Hn. cbn. done.
  - assert ((n <? 1) = false) as -> by (apply Z.ltb_ge; lia). mrun. wsimpl.
    assert ((if prevRemoteBindAddr w + 1 >=? n then 0 else prevRemoteBindAddr w + 1)
            = next) as ->.
    { subst next. destruct (Z.geb_spec (prevRemoteBindAddr w + 1) n);
        destruct (decide _); lia. }
    assert (0 ≤ next < n) as Hnext by (subst next; destruct (decide _); lia).
    split; [done|]. split; [done|]. split; [done|].
    destruct (lookup_lt_is_Some_2 (netif w) (Z.to_nat next)) as [[k e] Hke]; [lia|].
    exists k, e. split; [done|].
    rewrite list_lookup_fmap, Hke. cbn. by rewrite (aget_key_at _ _ _ _ Hnd Hke).
Qed.

Lemma getRemoteBindAddr_frame (w : world) :
  ∃ p, exec getRemoteBindAddr w =
       w_remote (remoteWs w) (remoteStatusHandled w) (remoteConnectTimer w) p w.
Proof.
  unfold getRemoteBindAddr, exec. mrun.
  destruct (_ <? 1); mrun; by eexists.
Qed.

(** X14.  A tunnel that [remoteConnect] opens is given 10 s to answer:
    the socket starts unauthenticated, and as long as nothing arrives on
    it, a keepalive tick terminates it if the clock has passed the time of
    the connect by more than 10 s, and does nothing before. *)
Theorem remoteConnect_grace (sock : nat) (a : string) (w : world) :
  let w1 := exec (remoteConnect hrtime sock) w in
  EConnect sock a ∈ new_events w w1 →
  remoteWs w1 = Some sock ∧
  isAuthed (conn_get sock w1) = false ∧
  ∀ w2, remoteWs w2 = Some sock →
        lastActive (conn_get sock w2) = lastActive (conn_get sock w1) →
        new_events w2 (exec (remoteKeepalive hrtime) w2) =
          if hrtime (reads w) + 10000 <? hrtime (reads w2)
          then [ETerminate sock] else [].
Proof.
  intros w1. assert (w1 = exec (remoteConnect hrtime sock) w) as Hw1 by done.
  clearbody w1. unfold remoteConnect in Hw1. rewrite exec_bind in Hw1.
  unfold eval at 1, exec at 2 in Hw1. cbn [gets fst snd] in Hw1.
  rewrite exec_bind in Hw1.
  set (w0 := exec (when (remoteConnectTimer w) _) w) in Hw1.
  assert (reads w0 = reads w ∧ config w0 = config w ∧
          ∃ pre, log w0 = log w ++ pre ∧ ∀ s x, EConnect s x ∉ pre)
    as (Hr & Hc & pre & Hl & Hpre).
  { subst w0. destruct (remoteConnectTimer w); unfold exec; mrun; wsimpl.
    - split; [done|]. split; [done|]. eexists. split; [done|]. intros s x. not_in_list.
    - split; [done|]. split; [done|]. exists []. split; [by rewrite app_nil_r|].
      intros s x. apply not_elem_of_nil. }
  clearbody w0.
  rewrite exec_bind in Hw1. unfold eval at 1, exec at 2 in Hw1.
  cbn [gets fst snd] in Hw1. rewrite Hc in Hw1.
  destruct (truthy (js_get (config w) "remote_key")).
  2:{ intros H. exfalso. change (exec (mret ()) w0) with w0 in Hw1. subst w1.
      unfold new_events in H. rewrite Hl, drop_app_length in H.
      by apply Hpre in H. }
  rewrite exec_bind in Hw1.
  destruct (getRemoteBindAddr_frame w0) as [p Hp]. rewrite Hp in Hw1.
  assert (∀ s x, EConnect s x ∉ new_events w
            (exec (emit (ESetTimeout "remoteConnect" 1000) ;;
                   modify (λ w, w_remote (remoteWs w) (remoteStatusHandled w) true
                                  (prevRemoteBindAddr w) w))
               (w_remote (remoteWs w0) (remoteStatusHandled w0)
                  (remoteConnectTimer w0) p w0))) as Hskip.
  { intros s x. erewrite new_events_app.
    2:{ unfold exec; mrun; wsimpl. rewrite Hl, <- app_assoc. reflexivity. }
    intros H. apply elem_of_app in H as [H|H]; [by apply Hpre in H|]. revert H. not_in_list. }
  destruct (eval getRemoteBindAddr w0) as [bindIp|];
    [|intros H; subst w1; by apply Hskip in H].
  destruct (String.eqb bindIp ""); [intros H; subst w1; by apply Hskip in H|].
  intros _. unfold exec, getms, conn_set in Hw1. revert Hw1. mrun. wsimpl. intros ->.
  split; [done|]. split.
  { unfold conn_get. wsimpl. by rewrite lookup_insert_eq. }
  intros w2 Hws Hlast. unfold remoteKeepalive, getms, exec. mrun. rewrite Hws. mrun.
  rewrite Hlast. unfold conn_get at 1. wsimpl. rewrite lookup_insert_eq.
  cbn [default lastActive c_lastActive].
  rewrite Hr. unfold remoteConnectTimeout, remoteTimeout.
  unfold id. cbn [lastActive c_lastActive].
  replace (hrtime (reads w) + 10000 - 5000 + 5000) with (hrtime (reads w) + 10000) by lia.
  destruct (_ <? _); unfold new_events; mrun; wsimpl.
  - by rewrite drop_app_length.
  - by rewrite drop_all.
Qed.

End Tunnel.
Section Replay.
Variable hrtime : nat → Z.



End Replay.
Section Credentials.
Variable setup : Setup.
Variable pipelines : gmap string string.
Variable hashSync : string → Z → string.
Variable hrtime : nat → Z.
Variable c : nat.

Create HintDb una.

Ltac stay_post :=
  lazymatch goal with
  | |- @preserves _ ?A _ ?φ =>
      tryif is_evar φ then unify φ (λ _ : A, True) else idtac
  end.

Lemma una_conn_set c' f :
  (c' = c → ∀ x, isAuthed x = false → isAuthed (f x) = false) →
  preserves (unauthenticated c) (conn_set c' f) (λ _, True).
Proof.
  intros Hf w Hw. split; [|done].
  unfold unauthenticated, conn_get, conn_set in *. mrun. wsimpl.
  destruct (decide (c' = c)) as [->|Hne].
  - rewrite lookup_insert_eq. cbn [default]. by apply Hf.
  - by rewrite lookup_insert_ne.
Qed.

Ltac stay_step :=
  lazymatch goal with
  | |- preserves _ (mret _) _ => apply preserves_ret
  | |- preserves _ (conn_set _ _) _ =>
      apply una_conn_set;
      first [ by intros _ ? ? | by intros _ ? _ | by intros; congruence ]
  | |- preserves _ (_ ≫= _) _ => eapply preserves_bind; [|intros ? ?]
  | |- preserves _ (gets _) _ => apply preserves_gets_True
  | |- preserves _ (modify _) _ =>
      apply preserves_modify; let H := fresh in intros ? H; exact H
  | |- preserves _ (emit _) _ =>
      apply preserves_modify; let H := fresh in intros ? H; exact H
  | |- preserves _ (when _ _) _ => apply preserves_when
  | |- preserves _ (match ?x with _ => _ end) _ =>
      stay_post; first [progress cbv beta iota | destruct x eqn:?]
  | H : ∀ p, preserves _ (?callback p) _ |- preserves _ (?callback _) _ => apply H
  | |- preserves _ _ _ =>
      first [ by eauto with una | eapply preserves_weaken; by eauto with una ]
  end.

Ltac stay := repeat stay_step.

Lemma una_getms : preserves (unauthenticated c) (getms hrtime) (λ _, True).
Proof. intros w Hw. by split. Qed.
Hint Extern 0 (preserves _ (getms _) _) => apply una_getms : una.


Lemma una_writeFileSync path content :
  preserves (unauthenticated c) (writeFileSync path content) (λ _, True).
Proof. unfold writeFileSync. stay. Qed.
Hint Extern 0 (preserves _ (writeFileSync _ _) _) => apply una_writeFileSync : una.

Lemma una_saveConfig : preserves (unauthenticated c) saveConfig (λ _, True).
Proof. unfold saveConfig. stay. Qed.
Hint Extern 0 (preserves _ saveConfig _) => apply una_saveConfig : una.

Lemma una_savePersistentTokens :
  preserves (unauthenticated c) savePersistentTokens (λ _, True).
Proof. unfold savePersistentTokens. stay. Qed.
Hint Extern 0 (preserves _ savePersistentTokens _) => apply una_savePersistentTokens : una.

Lemma una_killall sig prog : preserves (unauthenticated c) (killall sig prog) (λ _, True).
Proof. unfold killall. stay. Qed.
Hint Extern 0 (preserves _ (killall _ _) _) => apply una_killall : una.

Lemma una_broadcastMsgLocal d a ex :
  preserves (unauthenticated c) (broadcastMsgLocal d a ex) (λ _, True).
Proof. unfold broadcastMsgLocal. stay. Qed.
Hint Extern 0 (preserves _ (broadcastMsgLocal _ _ _) _) => apply una_broadcastMsgLocal : una.

Lemma una_broadcastMsg d a : preserves (unauthenticated c) (broadcastMsg d a) (λ _, True).
Proof. unfold broadcastMsg. stay. Qed.
Hint Extern 0 (preserves _ (broadcastMsg _ _) _) => apply una_broadcastMsg : una.

Lemma una_broadcastMsgExcept c' d :
  preserves (unauthenticated c) (broadcastMsgExcept c' d) (λ _, True).
Proof. unfold broadcastMsgExcept. stay. Qed.
Hint Extern 0 (preserves _ (broadcastMsgExcept _ _) _) => apply una_broadcastMsgExcept : una.

Lemma una_notificationSend c' name type msg duration isPersistent isDismissable :
  preserves (unauthenticated c)
    (notificationSend hrtime c' name type msg duration isPersistent isDismissable)
    (λ _, True).
Proof. unfold notificationSend. stay. Qed.
Hint Extern 0 (preserves _ (notificationSend _ _ _ _ _ _ _ _) _) =>
  apply una_notificationSend : una.

Lemma una_startError c' msg id :
  preserves (unauthenticated c) (startError hrtime c' msg id) (λ _, True).
Proof. unfold startError. stay. Qed.
Hint Extern 0 (preserves _ (startError _ _ _ _) _) => apply una_startError : una.

Lemma una_setBitrate max_br :
  preserves (unauthenticated c) (setBitrate setup max_br) (λ _, True).
Proof. unfold setBitrate. stay. Qed.
Hint Extern 0 (preserves _ (setBitrate _ _) _) => apply una_setBitrate : una.

Lemma una_sendStatus c' : preserves (unauthenticated c) (sendStatus c') (λ _, True).
Proof. unfold sendStatus. stay. Qed.
Hint Extern 0 (preserves _ (sendStatus _) _) => apply una_sendStatus : una.

Lemma una_updateStatus b : preserves (unauthenticated c) (updateStatus b) (λ _, True).
Proof. unfold updateStatus. stay. Qed.
Hint Extern 0 (preserves _ (updateStatus _) _) => apply una_updateStatus : una.

Lemma una_genSrtlaIpList : preserves (unauthenticated c) (genSrtlaIpList setup) (λ _, True).
Proof. unfold genSrtlaIpList. stay. Qed.
Hint Extern 0 (preserves _ (genSrtlaIpList _) _) => apply una_genSrtlaIpList : una.

Lemma una_updateSrtlaIps : preserves (unauthenticated c) (updateSrtlaIps setup) (λ _, True).
Proof. unfold updateSrtlaIps. stay. Qed.
Hint Extern 0 (preserves _ (updateSrtlaIps _) _) => apply una_updateSrtlaIps : una.

Lemma una_spawnStreamingLoop command args cooldown :
  preserves (unauthenticated c) (spawnStreamingLoop command args cooldown) (λ _, True).
Proof. unfold spawnStreamingLoop. stay. Qed.
Hint Extern 0 (preserves _ (spawnStreamingLoop _ _ _) _) => apply una_spawnStreamingLoop : una.

Lemma una_updateConfig c' params :
  preserves (unauthenticated c) (updateConfig setup pipelines hrtime c' params) (λ _, True).
Proof. unfold updateConfig. stay. Qed.
Hint Extern 0 (preserves _ (updateConfig _ _ _ _ _) _) => apply una_updateConfig : una.

Lemma una_start_callback c' senderId pipeline :
  preserves (unauthenticated c) (start_callback setup hrtime c' senderId pipeline)
    (λ _, True).
Proof. unfold start_callback. stay. Qed.
Hint Extern 0 (preserves _ (start_callback _ _ _ _ _) _) => apply una_start_callback : una.

Lemma una_updateConfig_callback l resolved callback :
  (∀ p, preserves (unauthenticated c) (callback p) (λ _, True)) →
  preserves (unauthenticated c) (updateConfig_callback hrtime l resolved callback)
    (λ _, True).
Proof. intros Hcb. unfold updateConfig_callback. stay. Qed.

Lemma una_start c' params :
  preserves (unauthenticated c) (start setup pipelines hrtime c' params) (λ _, True).
Proof. unfold start. stay. Qed.
Hint Extern 0 (preserves _ (start _ _ _ _ _) _) => apply una_start : una.

Lemma una_stop : preserves (unauthenticated c) stop (λ _, True).
Proof. unfold stop. stay. Qed.
Hint Extern 0 (preserves _ stop _) => apply una_stop : una.

Lemma una_updateNetif stdout :
  preserves (unauthenticated c) (updateNetif setup hrtime stdout) (λ _, True).
Proof. unfold updateNetif. stay. Qed.
Hint Extern 0 (preserves _ (updateNetif _ _ _) _) => apply una_updateNetif : una.

Lemma una_countActiveNetif : preserves (unauthenticated c) countActiveNetif (λ _, True).
Proof. unfold countActiveNetif. stay. Qed.
Hint Extern 0 (preserves _ countActiveNetif _) => apply una_countActiveNetif : una.

Lemma una_handleNetif c' msg :
  preserves (unauthenticated c) (handleNetif setup hrtime c' msg) (λ _, True).
Proof. unfold handleNetif. stay. Qed.
Hint Extern 0 (preserves _ (handleNetif _ _ _ _) _) => apply una_handleNetif : una.

Lemma una__notificationIsLive n :
  preserves (unauthenticated c) (_notificationIsLive hrtime n) (λ _, True).
Proof. unfold _notificationIsLive. stay. Qed.
Hint Extern 0 (preserves _ (_notificationIsLive _ _) _) => apply una__notificationIsLive : una.

Lemma una_liveNotifications l :
  preserves (unauthenticated c) (liveNotifications hrtime l) (λ _, True).
Proof. induction l as [|n l IH]; cbn [liveNotifications]; stay. Qed.
Hint Extern 0 (preserves _ (liveNotifications _ _) _) => apply una_liveNotifications : una.

Lemma una_notificationSendPersistent c' :
  preserves (unauthenticated c) (notificationSendPersistent hrtime c') (λ _, True).
Proof. unfold notificationSendPersistent. stay. Qed.
Hint Extern 0 (preserves _ (notificationSendPersistent _ _) _) =>
  apply una_notificationSendPersistent : una.

Lemma una_resetSshPassword c' outcome :
  preserves (unauthenticated c) (resetSshPassword setup hrtime c' outcome) (λ _, True).
Proof.
  unfold resetSshPassword.
  destruct (ssh_user setup) as [user|]; [|apply preserves_ret].
  destruct outcome as [| |password hash]; stay.
Qed.
Hint Extern 0 (preserves _ (resetSshPassword _ _ _ _) _) => apply una_resetSshPassword : una.

Lemma una_setPassword c' password isRemote :
  preserves (unauthenticated c) (setPassword hashSync hrtime c' password isRemote)
    (λ _, True).
Proof. unfold setPassword. stay. Qed.
Hint Extern 0 (preserves _ (setPassword _ _ _ _ _) _) => apply una_setPassword : una.

Lemma una_genAuthToken isPersistent token :
  preserves (unauthenticated c) (genAuthToken isPersistent token) (λ _, True).
Proof. unfold genAuthToken. destruct isPersistent; stay. Qed.
Hint Extern 0 (preserves _ (genAuthToken _ _) _) => apply una_genAuthToken : una.

Lemma una_sendInitialStatus c' :
  preserves (unauthenticated c) (sendInitialStatus hrtime c') (λ _, True).
Proof. unfold sendInitialStatus. stay. Qed.
Hint Extern 0 (preserves _ (sendInitialStatus _ _) _) => apply una_sendInitialStatus : una.

Lemma una_connAuth c' sendToken :
  c' ≠ c → preserves (unauthenticated c) (connAuth hrtime c' sendToken) (λ _, True).
Proof. intros Hne. unfold connAuth. stay. Qed.
Hint Extern 0 (preserves _ (connAuth _ _ _) _) => apply una_connAuth : una.

Lemma una_tryAuth c' msg :
  c' ≠ c → preserves (unauthenticated c) (tryAuth hrtime c' msg) (λ _, True).
Proof. intros Hne. unfold tryAuth. stay. Qed.
Hint Extern 0 (preserves _ (tryAuth _ _ _) _) => apply una_tryAuth : una.

Lemma una_tryAuth_callback k matched fresh :
  k_conn k ≠ c ∨ matched = false →
  preserves (unauthenticated c) (tryAuth_callback hrtime k matched fresh) (λ _, True).
Proof.
  intros Hk. unfold tryAuth_callback. destruct matched.
  - destruct Hk as [Hne|?]; [|done]. stay.
  - stay.
Qed.

Lemma una_handleRemote c' msg :
  c' ≠ c ∨ msg ≠ Some (JBool true) →
  preserves (unauthenticated c) (handleRemote hrtime c' msg) (λ _, True).
Proof.
  intros Hk. unfold handleRemote. destruct msg as [v|]; [|stay].
  destruct (bool_decide_reflect (v = JBool true)) as [->|Hv].
  - destruct Hk as [Hne|?]; [|done]. stay.
  - stay.
Qed.

Lemma una_getRemoteBindAddr : preserves (unauthenticated c) getRemoteBindAddr (λ _, True).
Proof. unfold getRemoteBindAddr. stay. Qed.
Hint Extern 0 (preserves _ getRemoteBindAddr _) => apply una_getRemoteBindAddr : una.

Lemma una_remoteClose c' : preserves (unauthenticated c) (remoteClose hrtime c') (λ _, True).
Proof. unfold remoteClose. stay. Qed.
Hint Extern 0 (preserves _ (remoteClose _ _) _) => apply una_remoteClose : una.

Lemma una_remoteConnect sock :
  preserves (unauthenticated c) (remoteConnect hrtime sock) (λ _, True).
Proof. unfold remoteConnect. stay. Qed.
Hint Extern 0 (preserves _ (remoteConnect _ _) _) => apply una_remoteConnect : una.

Lemma una_remoteKeepalive : preserves (unauthenticated c) (remoteKeepalive hrtime) (λ _, True).
Proof. unfold remoteKeepalive. stay. Qed.
Hint Extern 0 (preserves _ (remoteKeepalive _) _) => apply una_remoteKeepalive : una.

Lemma una_setRemoteKey key sock :
  preserves (unauthenticated c) (setRemoteKey hrtime key sock) (λ _, True).
Proof. unfold setRemoteKey. stay. Qed.
Hint Extern 0 (preserves _ (setRemoteKey _ _ _) _) => apply una_setRemoteKey : una.

Lemma una_handleConfig c' msg isRemote sock :
  preserves (unauthenticated c) (handleConfig hashSync hrtime c' msg isRemote sock)
    (λ _, True).
Proof. unfold handleConfig. stay. Qed.
Hint Extern 0 (preserves _ (handleConfig _ _ _ _ _ _) _) => apply una_handleConfig : una.

Lemma una_for_in msg body :
  (∀ f, preserves (unauthenticated c) (body f) (λ _, True)) →
  preserves (unauthenticated c) (for_in msg body) (λ _, True).
Proof.
  intros Hbody. induction msg as [|f msg IH]; cbn [for_in]; [apply preserves_ret|].
  eapply preserves_bind; [apply Hbody|by intros _ _].
Qed.

Lemma valid_token_dec w m : valid_token w m ∨ ¬ valid_token w m.
Proof.
  unfold valid_token.
  destruct (truthy (js_get (config w) "password_hash")); [|right; by intros [? _]].
  destruct (a_password m); [right; by intros (_ & ? & _)|].
  destruct (a_token m) as [t|]; [|right; by intros (_ & _ & ? & ? & _)].
  destruct (has_token (tempTokens w) t || has_token (persistentTokens w) t) eqn:Ht.
  - left. split; [done|]. split; [done|]. by exists t.
  - right. intros (_ & _ & t' & [= <-] & Ht'). congruence.
Qed.

(** The three ways an [auth] request can go. *)
Lemma tryAuth_cases c' m w :
  exec (tryAuth hrtime c' m) w = w ∨
  exec (tryAuth hrtime c' m) w = exec (emit (ESend c' (PAuth false None) JUndef)) w ∨
  valid_token w m ∧
  ∃ t, exec (tryAuth hrtime c' m) w =
       exec (conn_set c' (c_authToken (Some t))) (exec (connAuth hrtime c' None) w).
Proof.
  unfold tryAuth, exec, valid_token.
  cbv beta iota zeta delta [mbind M_bind mret M_ret gets].
  destruct (truthy (js_get (config w) "password_hash")); [|right; by left].
  cbn [negb]. destruct (a_password m); [by left|].
  destruct (a_token m) as [t|]; [|by left].
  destruct (_ || _) eqn:Hin; [|right; by left].
  right. right. split; [split; [done|split; [done|by exists t]]|].
  exists t. by destruct (connAuth hrtime c' None w) as [[] w1].
Qed.

Lemma tryAuth_keeps c' m w :
  let w' := exec (tryAuth hrtime c' m) w in
  config w' = config w ∧ tempTokens w' = tempTokens w ∧
  persistentTokens w' = persistentTokens w.
Proof.
  intros w'. subst w'.
  destruct (tryAuth_cases c' m w) as [->|[->|(_ & t & ->)]]; [done|done|].
  destruct (connAuth_spec hrtime c' None w) as (_ & Hc & Ht & Hp & _).
  cbv zeta in *. set (w1 := exec (connAuth hrtime c' None) w) in *.
  by rewrite <- Hc, <- Ht, <- Hp.
Qed.

Lemma tryAuth_refused m w :
  unauthenticated c w → ¬ valid_token w m →
  unauthenticated c (exec (tryAuth hrtime c m) w).
Proof.
  intros Hw Hm.
  by destruct (tryAuth_cases c m w) as [->|[->|(? & _)]].
Qed.

Lemma auth_loop msg : ∀ w,
  unauthenticated c w →
  unauthenticated c
    (exec (for_in msg (λ f, match f with
                            | FAuth m => tryAuth hrtime c m ;; mret ()
                            | _ => mret ()
                            end)) w) ∨
  ∃ m, FAuth m ∈ msg ∧ valid_token w m.
Proof.
  induction msg as [|f msg IH]; intros w Hw; [by left|].
  cbn [for_in]. rewrite exec_bind.
  assert (∀ w1, unauthenticated c w1 →
            config w1 = config w → tempTokens w1 = tempTokens w →
            persistentTokens w1 = persistentTokens w →
            unauthenticated c
              (exec (for_in msg (λ f, match f with
                                      | FAuth m => tryAuth hrtime c m ;; mret ()
                                      | _ => mret ()
                                      end)) w1) ∨
            ∃ m, FAuth m ∈ f :: msg ∧ valid_token w m) as Hrest.
  { intros w1 Hw1 Hc Ht Hp. destruct (IH w1 Hw1) as [?|(m & Hin & Hv)]; [by left|].
    right. exists m. split; [by right|]. unfold valid_token in *.
    by rewrite <- Hc, <- Ht, <- Hp. }
  destruct f as [m| | | | | | | |]; try by apply Hrest.
  destruct (valid_token_dec w m) as [Hv|Hv].
  { right. exists m. split; [left|done]. }
  rewrite exec_bind. change (exec (mret ()) ?x) with x.
  destruct (tryAuth_keeps c m w) as (Hc & Ht & Hp).
  apply Hrest; try done. by apply tryAuth_refused.
Qed.

Lemma una_dispatch c' msg :
  preserves (unauthenticated c)
    (authed ← gets (λ w, isAuthed (conn_get c' w));
     if negb authed then mret ()
     else
       for_in msg (λ f,
         match f with
         | FStart params => start setup pipelines hrtime c' params ;; mret ()
         | FStop => stop
         | FBitrate max_br =>
             s ← gets isStreaming;
             if s : bool then
               br ← setBitrate setup max_br;
               match br with
               | Some br => broadcastMsgExcept c' (PBitrate br)
               | None => mret ()
               end
             else mret ()
         | FNetif m => handleNetif setup hrtime c' m
         | FLogout =>
             token ← gets (λ w, authToken (conn_get c' w));
             match token with
             | Some t =>
                 if String.eqb t "" then mret ()
                 else
                   modify (w_tokens (.∖ {[ t ]}) id) ;;
                   pt ← gets persistentTokens;
                   if has_token pt t then
                     modify (w_tokens id (.∖ {[ t ]})) ;;
                     savePersistentTokens
                   else mret ()
             | None => mret ()
             end ;;
             conn_set c' (c_isAuthed false) ;;
             conn_set c' (c_authToken None)
         | _ => mret ()
         end) ;;
       now ← getms hrtime;
       conn_set c' (c_lastActive now))
    (λ _, True).
Proof.
  eapply preserves_bind.
  { apply (preserves_gets _ _ (λ a, c' = c → a = false)). by intros w Hw ->. }
  intros [] Ha; cbn [negb]; [|apply preserves_ret].
  assert (c' ≠ c) as Hne by (intros ->; by specialize (Ha eq_refl)).
  eapply preserves_bind; [|intros _ _; stay].
  apply una_for_in. intros f. stay.
Qed.

Lemma handleMessage_keeps_out c' msg isRemote sock w :
  unauthenticated c w →
  unauthenticated c
    (exec (handleMessage setup pipelines hashSync hrtime c' msg isRemote sock) w) ∨
  c' = c ∧ isRemote = false ∧ ∃ m, FAuth m ∈ msg ∧ valid_token w m.
Proof.
  intros Hw. unfold handleMessage. rewrite exec_bind.
  set (w1 := exec (when (negb isRemote) _) w).
  assert (unauthenticated c w1 ∨
          c' = c ∧ isRemote = false ∧ ∃ m, FAuth m ∈ msg ∧ valid_token w m) as [Hw1|?];
    [| |by right].
  { subst w1. destruct isRemote; [by left|]. cbn [negb when].
    destruct (decide (c' = c)) as [->|Hne].
    - destruct (auth_loop msg w Hw) as [?|?]; [by left|by right].
    - left. apply una_for_in; [|done]. intros f. stay. }
  left. clearbody w1. rewrite exec_bind.
  set (w2 := exec (for_in msg _) w1).
  assert (unauthenticated c w2) as Hw2.
  { subst w2. apply una_for_in; [|done]. intros f. stay. }
  clearbody w2. by apply una_dispatch.
Qed.

Lemma una_remoteHandleMsg c' remote msg id sock :
  c' ≠ c ∨ remote ≠ Some (Some (JBool true)) →
  preserves (unauthenticated c)
    (remoteHandleMsg setup pipelines hashSync hrtime c' remote msg id sock) (λ _, True).
Proof.
  intros Hno. unfold remoteHandleMsg.
  assert (preserves (unauthenticated c)
            (handleMessage setup pipelines hashSync hrtime c' msg true sock) (λ _, True))
    as Hmsg.
  { intros w Hw. split; [|done].
    by destruct (handleMessage_keeps_out c' msg true sock w Hw) as [?|(_ & ? & _)]. }
  eapply preserves_bind; [|intros _ _; stay].
  destruct remote as [r|]; [|apply preserves_ret].
  apply una_handleRemote. destruct Hno as [?|Hr]; [by left|right]. congruence.
Qed.

(** X16.  A connection becomes authenticated only by credentials: in
    handling one request, a connection that was not authenticated becomes
    so only if the request is a frame on that connection, not through the
    tunnel, with an [auth] request holding a token that [tryAuth] accepts;
    or the completion of a password comparison for that connection with a
    match; or, for the tunnel socket, the relay's acceptance of the key. *)
Theorem authentication_needs_credentials (r : request) (w : world) :
  unauthenticated c w →
  isAuthed (conn_get c (exec (handle setup pipelines hashSync hrtime r) w)) = true →
  (∃ msg sock m, r = Message c msg sock ∧ FAuth m ∈ msg ∧ valid_token w m) ∨
  (∃ k fresh, r = PasswordCompared k true fresh ∧ k_conn k = c) ∨
  (∃ msg id sock, r = RemoteMessage c (Some (Some (JBool true))) msg id sock).
Proof.
  intros Hw Hauth.
  assert (∀ m : M unit, preserves (unauthenticated c) m (λ _, True) →
            handle setup pipelines hashSync hrtime r = m → False) as Hkept.
  { intros m Hm Hr. rewrite Hr in Hauth. destruct (Hm w Hw) as [Hw' _].
    unfold unauthenticated, exec in *. congruence. }
  destruct r as [sock|c'|c' msg sock|c' remote msg id sock|c'|sock| |stdout|c' outcome
                |k matched fresh|l resolved]; cbn [handle] in *.
  - destruct (Hkept (main hrtime sock)); [|done]. unfold main. stay.
  - destruct (Hkept (connection hrtime c')); [|done]. unfold connection. stay.
  - destruct (handleMessage_keeps_out c' msg false sock w Hw) as [Hw'|(-> & _ & m & Hin & Hv)].
    + unfold unauthenticated in Hw'. congruence.
    + left. by exists msg, sock, m.
  - destruct (decide (c' = c ∧ remote = Some (Some (JBool true)))) as [[-> ->]|Hno].
    { right. right. by exists msg, id, sock. }
    destruct (Hkept (remoteHandleMsg setup pipelines hashSync hrtime c' remote msg id sock));
      [|done].
    apply una_remoteHandleMsg. destruct (decide (c' = c)) as [->|?]; [right|by left].
    intros ->. by apply Hno.
  - destruct (Hkept (remoteClose hrtime c')); [|done]. stay.
  - destruct (Hkept (remoteConnect hrtime sock)); [|done]. stay.
  - destruct (Hkept (remoteKeepalive hrtime)); [|done]. stay.
  - destruct (Hkept (updateNetif setup hrtime stdout)); [|done]. stay.
  - destruct (Hkept (resetSshPassword setup hrtime c' outcome)); [|done]. stay.
  - destruct (decide (k_conn k = c ∧ matched = true)) as [[<- ->]|Hno].
    { right. left. by exists k, fresh. }
    destruct (Hkept (tryAuth_callback hrtime k matched fresh)); [|done].
    apply una_tryAuth_callback. destruct matched; [|by right].
    left. intros ?. by apply Hno.
  - destruct (Hkept (updateConfig_callback hrtime l resolved
                       (start_callback setup hrtime (l_conn l) (l_senderId l)))); [|done].
    apply una_updateConfig_callback. intros p. stay.
Qed.

End Credentials.
Section Issue.
Variable setup : Setup.
Variable pipelines : gmap string string.
Variable hashSync : string → Z → string.
Variable hrtime : nat → Z.
Variable t : string.

Create HintDb tok.

Ltac hold_post :=
  lazymatch goal with
  | |- @preserves _ ?A _ ?φ =>
      tryif is_evar φ then unify φ (λ _ : A, True) else idtac
  end.

Lemma tok_conn_set c f : preserves (unissued t) (conn_set c f) (λ _, True).
Proof. unfold conn_set. apply preserves_modify. by intros w Hw. Qed.

Lemma tok_tokens (f g : gset string → gset string) :
  (∀ s, t ∉ s → t ∉ f s) → (∀ s, t ∉ s → t ∉ g s) →
  preserves (unissued t) (modify (w_tokens f g)) (λ _, True).
Proof. intros Hf Hg. apply preserves_modify. intros w [? ?]. split; wsimpl; auto. Qed.

Lemma tok_revoke (s : gset string) (t' : string) : t ∉ s → t ∉ s ∖ {[ t' ]}.
Proof. rewrite elem_of_difference. by intros ? [? _]. Qed.

Ltac hold_step :=
  lazymatch goal with
  | |- preserves _ (mret _) _ => apply preserves_ret
  | |- preserves _ (conn_set _ _) _ => apply tok_conn_set
  | |- preserves _ (modify (w_tokens _ _)) _ =>
      apply tok_tokens; intros ? ?; first [ assumption | by apply tok_revoke ]
  | |- preserves _ (_ ≫= _) _ => eapply preserves_bind; [|intros ? ?]
  | |- preserves _ (gets _) _ => apply preserves_gets_True
  | |- preserves _ (modify _) _ =>
      apply preserves_modify; let H := fresh in intros ? H; exact H
  | |- preserves _ (emit _) _ =>
      apply preserves_modify; let H := fresh in intros ? H; exact H
  | |- preserves _ (when _ _) _ => apply preserves_when
  | |- preserves _ (match ?x with _ => _ end) _ =>
      hold_post; first [progress cbv beta iota | destruct x eqn:?]
  | H : ∀ p, preserves _ (?callback p) _ |- preserves _ (?callback _) _ => apply H
  | |- preserves _ _ _ =>
      first [ by eauto with tok | eapply preserves_weaken; by eauto with tok ]
  end.

Ltac hold := repeat hold_step.

Lemma tok_getms : preserves (unissued t) (getms hrtime) (λ _, True).
Proof. intros w Hw. by split. Qed.
Hint Extern 0 (preserves _ (getms _) _) => apply tok_getms : tok.


Lemma tok_writeFileSync path content :
  preserves (unissued t) (writeFileSync path content) (λ _, True).
Proof. unfold writeFileSync. hold. Qed.
Hint Extern 0 (preserves _ (writeFileSync _ _) _) => apply tok_writeFileSync : tok.

Lemma tok_saveConfig : preserves (unissued t) saveConfig (λ _, True).
Proof. unfold saveConfig. hold. Qed.
Hint Extern 0 (preserves _ saveConfig _) => apply tok_saveConfig : tok.

Lemma tok_savePersistentTokens :
  preserves (unissued t) savePersistentTokens (λ _, True).
Proof. unfold savePersistentTokens. hold. Qed.
Hint Extern 0 (preserves _ savePersistentTokens _) => apply tok_savePersistentTokens : tok.

Lemma tok_killall sig prog : preserves (unissued t) (killall sig prog) (λ _, True).
Proof. unfold killall. hold. Qed.
Hint Extern 0 (preserves _ (killall _ _) _) => apply tok_killall : tok.

Lemma tok_broadcastMsgLocal d a ex :
  preserves (unissued t) (broadcastMsgLocal d a ex) (λ _, True).
Proof. unfold broadcastMsgLocal. hold. Qed.
Hint Extern 0 (preserves _ (broadcastMsgLocal _ _ _) _) => apply tok_broadcastMsgLocal : tok.

Lemma tok_broadcastMsg d a : preserves (unissued t) (broadcastMsg d a) (λ _, True).
Proof. unfold broadcastMsg. hold. Qed.
Hint Extern 0 (preserves _ (broadcastMsg _ _) _) => apply tok_broadcastMsg : tok.

Lemma tok_broadcastMsgExcept c' d :
  preserves (unissued t) (broadcastMsgExcept c' d) (λ _, True).
Proof. unfold broadcastMsgExcept. hold. Qed.
Hint Extern 0 (preserves _ (broadcastMsgExcept _ _) _) => apply tok_broadcastMsgExcept : tok.

Lemma tok_notificationSend c' name type msg duration isPersistent isDismissable :
  preserves (unissued t)
    (notificationSend hrtime c' name type msg duration isPersistent isDismissable)
    (λ _, True).
Proof. unfold notificationSend. hold. Qed.
Hint Extern 0 (preserves _ (notificationSend _ _ _ _ _ _ _ _) _) =>
  apply tok_notificationSend : tok.

Lemma tok_startError c' msg id :
  preserves (unissued t) (startError hrtime c' msg id) (λ _, True).
Proof. unfold startError. hold. Qed.
Hint Extern 0 (preserves _ (startError _ _ _ _) _) => apply tok_startError : tok.

Lemma tok_setBitrate max_br :
  preserves (unissued t) (setBitrate setup max_br) (λ _, True).
Proof. unfold setBitrate. hold. Qed.
Hint Extern 0 (preserves _ (setBitrate _ _) _) => apply tok_setBitrate : tok.

Lemma tok_sendStatus c' : preserves (unissued t) (sendStatus c') (λ _, True).
Proof. unfold sendStatus. hold. Qed.
Hint Extern 0 (preserves _ (sendStatus _) _) => apply tok_sendStatus : tok.

Lemma tok_updateStatus b : preserves (unissued t) (updateStatus b) (λ _, True).
Proof. unfold updateStatus. hold. Qed.
Hint Extern 0 (preserves _ (updateStatus _) _) => apply tok_updateStatus : tok.

Lemma tok_genSrtlaIpList : preserves (unissued t) (genSrtlaIpList setup) (λ _, True).
Proof. unfold genSrtlaIpList. hold. Qed.
Hint Extern 0 (preserves _ (genSrtlaIpList _) _) => apply tok_genSrtlaIpList : tok.

Lemma tok_updateSrtlaIps : preserves (unissued t) (updateSrtlaIps setup) (λ _, True).
Proof. unfold updateSrtlaIps. hold. Qed.
Hint Extern 0 (preserves _ (updateSrtlaIps _) _) => apply tok_updateSrtlaIps : tok.

Lemma tok_spawnStreamingLoop command args cooldown :
  preserves (unissued t) (spawnStreamingLoop command args cooldown) (λ _, True).
Proof. unfold spawnStreamingLoop. hold. Qed.
Hint Extern 0 (preserves _ (spawnStreamingLoop _ _ _) _) => apply tok_spawnStreamingLoop : tok.

Lemma tok_updateConfig c' params :
  preserves (unissued t) (updateConfig setup pipelines hrtime c' params) (λ _, True).
Proof. unfold updateConfig. hold. Qed.
Hint Extern 0 (preserves _ (updateConfig _ _ _ _ _) _) => apply tok_updateConfig : tok.

Lemma tok_start_callback c' senderId pipeline :
  preserves (unissued t) (start_callback setup hrtime c' senderId pipeline)
    (λ _, True).
Proof. unfold start_callback. hold. Qed.
Hint Extern 0 (preserves _ (start_callback _ _ _ _ _) _) => apply tok_start_callback : tok.

Lemma tok_updateConfig_callback l resolved callback :
  (∀ p, preserves (unissued t) (callback p) (λ _, True)) →
  preserves (unissued t) (updateConfig_callback hrtime l resolved callback)
    (λ _, True).
Proof. intros Hcb. unfold updateConfig_callback. hold. Qed.

Lemma tok_start c' params :
  preserves (unissued t) (start setup pipelines hrtime c' params) (λ _, True).
Proof. unfold start. hold. Qed.
Hint Extern 0 (preserves _ (start _ _ _ _ _) _) => apply tok_start : tok.

Lemma tok_stop : preserves (unissued t) stop (λ _, True).
Proof. unfold stop. hold. Qed.
Hint Extern 0 (preserves _ stop _) => apply tok_stop : tok.

Lemma tok_updateNetif stdout :
  preserves (unissued t) (updateNetif setup hrtime stdout) (λ _, True).
Proof. unfold updateNetif. hold. Qed.
Hint Extern 0 (preserves _ (updateNetif _ _ _) _) => apply tok_updateNetif : tok.

Lemma tok_countActiveNetif : preserves (unissued t) countActiveNetif (λ _, True).
Proof. unfold countActiveNetif. hold. Qed.
Hint Extern 0 (preserves _ countActiveNetif _) => apply tok_countActiveNetif : tok.

Lemma tok_handleNetif c' msg :
  preserves (unissued t) (handleNetif setup hrtime c' msg) (λ _, True).
Proof. unfold handleNetif. hold. Qed.
Hint Extern 0 (preserves _ (handleNetif _ _ _ _) _) => apply tok_handleNetif : tok.

Lemma tok__notificationIsLive n :
  preserves (unissued t) (_notificationIsLive hrtime n) (λ _, True).
Proof. unfold _notificationIsLive. hold. Qed.
Hint Extern 0 (preserves _ (_notificationIsLive _ _) _) => apply tok__notificationIsLive : tok.

Lemma tok_liveNotifications l :
  preserves (unissued t) (liveNotifications hrtime l) (λ _, True).
Proof. induction l as [|n l IH]; cbn [liveNotifications]; hold. Qed.
Hint Extern 0 (preserves _ (liveNotifications _ _) _) => apply tok_liveNotifications : tok.

Lemma tok_notificationSendPersistent c' :
  preserves (unissued t) (notificationSendPersistent hrtime c') (λ _, True).
Proof. unfold notificationSendPersistent. hold. Qed.
Hint Extern 0 (preserves _ (notificationSendPersistent _ _) _) =>
  apply tok_notificationSendPersistent : tok.

Lemma tok_resetSshPassword c' outcome :
  preserves (unissued t) (resetSshPassword setup hrtime c' outcome) (λ _, True).
Proof.
  unfold resetSshPassword.
  destruct (ssh_user setup) as [user|]; [|apply preserves_ret].
  destruct outcome as [| |password hash]; hold.
Qed.
Hint Extern 0 (preserves _ (resetSshPassword _ _ _ _) _) => apply tok_resetSshPassword : tok.

Lemma tok_setPassword c' password isRemote :
  preserves (unissued t) (setPassword hashSync hrtime c' password isRemote)
    (λ _, True).
Proof. unfold setPassword. hold. Qed.
Hint Extern 0 (preserves _ (setPassword _ _ _ _ _) _) => apply tok_setPassword : tok.

Lemma tok_genAuthToken isPersistent token :
  token ≠ t → preserves (unissued t) (genAuthToken isPersistent token) (λ _, True).
Proof.
  intros Hne.
  assert (∀ s : gset string, t ∉ s → t ∉ {[ token ]} ∪ s) as Hadd.
  { intros s Hs. rewrite elem_of_union, elem_of_singleton. by intros [?|?]. }
  unfold genAuthToken. destruct isPersistent.
  - eapply preserves_bind; [|intros _ _; apply preserves_ret].
    eapply preserves_bind; [by apply tok_tokens|intros _ _; hold].
  - eapply preserves_bind; [by apply tok_tokens|intros _ _; apply preserves_ret].
Qed.

Lemma tok_sendInitialStatus c' :
  preserves (unissued t) (sendInitialStatus hrtime c') (λ _, True).
Proof. unfold sendInitialStatus. hold. Qed.
Hint Extern 0 (preserves _ (sendInitialStatus _ _) _) => apply tok_sendInitialStatus : tok.

Lemma tok_connAuth c' sendToken :
  preserves (unissued t) (connAuth hrtime c' sendToken) (λ _, True).
Proof. unfold connAuth. hold. Qed.
Hint Extern 0 (preserves _ (connAuth _ _ _) _) => apply tok_connAuth : tok.

Lemma tok_tryAuth c' msg :
  preserves (unissued t) (tryAuth hrtime c' msg) (λ _, True).
Proof. unfold tryAuth. hold. Qed.
Hint Extern 0 (preserves _ (tryAuth _ _ _) _) => apply tok_tryAuth : tok.

Lemma tok_tryAuth_callback k matched fresh :
  fresh ≠ t ∨ matched = false →
  preserves (unissued t) (tryAuth_callback hrtime k matched fresh) (λ _, True).
Proof.
  intros Hk. unfold tryAuth_callback. destruct matched.
  - destruct Hk as [Hne|?]; [|done].
    eapply preserves_bind; [by apply tok_genAuthToken|intros ? _; hold].
  - hold.
Qed.

Lemma tok_handleRemote c' msg :
  preserves (unissued t) (handleRemote hrtime c' msg) (λ _, True).
Proof. unfold handleRemote. hold. Qed.
Hint Extern 0 (preserves _ (handleRemote _ _ _) _) => apply tok_handleRemote : tok.

Lemma tok_getRemoteBindAddr : preserves (unissued t) getRemoteBindAddr (λ _, True).
Proof. unfold getRemoteBindAddr. hold. Qed.
Hint Extern 0 (preserves _ getRemoteBindAddr _) => apply tok_getRemoteBindAddr : tok.

Lemma tok_remoteClose c' : preserves (unissued t) (remoteClose hrtime c') (λ _, True).
Proof. unfold remoteClose. hold. Qed.
Hint Extern 0 (preserves _ (remoteClose _ _) _) => apply tok_remoteClose : tok.

Lemma tok_remoteConnect sock :
  preserves (unissued t) (remoteConnect hrtime sock) (λ _, True).
Proof. unfold remoteConnect. hold. Qed.
Hint Extern 0 (preserves _ (remoteConnect _ _) _) => apply tok_remoteConnect : tok.

Lemma tok_remoteKeepalive : preserves (unissued t) (remoteKeepalive hrtime) (λ _, True).
Proof. unfold remoteKeepalive. hold. Qed.
Hint Extern 0 (preserves _ (remoteKeepalive _) _) => apply tok_remoteKeepalive : tok.

Lemma tok_setRemoteKey key sock :
  preserves (unissued t) (setRemoteKey hrtime key sock) (λ _, True).
Proof. unfold setRemoteKey. hold. Qed.
Hint Extern 0 (preserves _ (setRemoteKey _ _ _) _) => apply tok_setRemoteKey : tok.

Lemma tok_handleConfig c' msg isRemote sock :
  preserves (unissued t) (handleConfig hashSync hrtime c' msg isRemote sock)
    (λ _, True).
Proof. unfold handleConfig. hold. Qed.
Hint Extern 0 (preserves _ (handleConfig _ _ _ _ _ _) _) => apply tok_handleConfig : tok.

Lemma tok_for_in msg body :
  (∀ f, preserves (unissued t) (body f) (λ _, True)) →
  preserves (unissued t) (for_in msg body) (λ _, True).
Proof.
  intros Hbody. induction msg as [|f msg IH]; cbn [for_in]; [apply preserves_ret|].
  eapply preserves_bind; [apply Hbody|by intros _ _].
Qed.

Lemma tok_handleMessage c msg isRemote sock :
  preserves (unissued t)
    (handleMessage setup pipelines hashSync hrtime c msg isRemote sock) (λ _, True).
Proof.
  unfold handleMessage.
  eapply preserves_bind; [|intros _ _; eapply preserves_bind; [|intros _ _]].
  - apply preserves_when, tok_for_in. intros f. hold.
  - apply tok_for_in. intros f. hold.
  - hold. apply tok_for_in. intros f. hold.
Qed.
Hint Extern 0 (preserves _ (handleMessage _ _ _ _ _ _ _ _) _) =>
  apply tok_handleMessage : tok.

Lemma tok_remoteHandleMsg c remote msg id sock :
  preserves (unissued t)
    (remoteHandleMsg setup pipelines hashSync hrtime c remote msg id sock) (λ _, True).
Proof. unfold remoteHandleMsg. hold. Qed.

(** X17.  A token is issued only by a login: in handling one request, a
    string that was in neither token set comes to be in one only if the
    request is the completion of a password comparison with a match, and
    the string is the token drawn for it. *)
Theorem token_issued_by_login (r : request) (w : world) :
  unissued t w →
  ¬ unissued t (exec (handle setup pipelines hashSync hrtime r) w) →
  ∃ k, r = PasswordCompared k true t.
Proof.
  intros Hw Hissued.
  assert (∀ m : M unit, preserves (unissued t) m (λ _, True) →
            handle setup pipelines hashSync hrtime r = m → False) as Hkept.
  { intros m Hm Hr. rewrite Hr in Hissued. by destruct (Hm w Hw) as [Hw' _]. }
  destruct r as [sock|c|c msg sock|c remote msg id sock|c|sock| |stdout|c outcome
                |k matched fresh|l resolved]; cbn [handle] in *.
  - destruct (Hkept (main hrtime sock)); [|done]. unfold main. hold.
  - destruct (Hkept (connection hrtime c)); [|done]. unfold connection. hold.
  - destruct (Hkept (handleMessage setup pipelines hashSync hrtime c msg false sock));
      [|done]. hold.
  - destruct (Hkept (remoteHandleMsg setup pipelines hashSync hrtime c remote msg id sock));
      [|done]. apply tok_remoteHandleMsg.
  - destruct (Hkept (remoteClose hrtime c)); [|done]. hold.
  - destruct (Hkept (remoteConnect hrtime sock)); [|done]. hold.
  - destruct (Hkept (remoteKeepalive hrtime)); [|done]. hold.
  - destruct (Hkept (updateNetif setup hrtime stdout)); [|done]. hold.
  - destruct (Hkept (resetSshPassword setup hrtime c outcome)); [|done]. hold.
  - destruct (decide (fresh = t ∧ matched = true)) as [[-> ->]|Hno].
    { by exists k. }
    destruct (Hkept (tryAuth_callback hrtime k matched fresh)); [|done].
    apply tok_tryAuth_callback. destruct matched; [|by right].
    left. intros ?. by apply Hno.
  - destruct (Hkept (updateConfig_callback hrtime l resolved
                       (start_callback setup hrtime (l_conn l) (l_senderId l)))); [|done].
    apply tok_updateConfig_callback. intros p. hold.
Qed.

End Issue.

(** ** The list of Wi-Fi devices *)

Lemma wiFiDeviceListAdd_run (n hw : string) (inet : option string) (s : wifi_list) :
  wiFiDeviceListIsUpdating s = true →
  wiFiDeviceListAdd n hw inet s =
  Some {| wifiDeviceHwAddr :=
            <[n := {| hwAddr := hw; inetAddr := inet; removed := false |}]>
              (wifiDeviceHwAddr s);
          wiFiDeviceListIsModified :=
            wiFiDeviceListIsModified s ||
            negb (bool_decide (wifi_devices s !! n = Some (hw, inet)));
          wiFiDeviceListIsUpdating := true |}.
Proof.
  intros Hu. unfold wiFiDeviceListAdd, wifi_devices. rewrite Hu. cbn [negb].
  rewrite lookup_fmap.
  destruct (wifiDeviceHwAddr s !! n) as [[hw0 inet0 r0]|]; cbn.
  - destruct (String.eqb_spec hw0 hw) as [->|Hhw]; cbn.
    + destruct (decide (inet0 = inet)) as [->|Hi].
      * rewrite !bool_decide_eq_true_2 by done. cbn. rewrite orb_false_r. reflexivity.
      * rewrite !bool_decide_eq_false_2 by congruence. cbn. by rewrite orb_true_r.
    + rewrite (bool_decide_eq_false_2 (Some (hw0, inet0) = Some (hw, inet)))
        by congruence.
      rewrite orb_true_r.
      destruct (decide (inet0 = inet)) as [->|Hi].
      * by rewrite bool_decide_eq_true_2.
      * by rewrite bool_decide_eq_false_2.
  - by rewrite orb_true_r.
Qed.

Lemma updateNetif_wifi_block_run (s : wifi_list) (int : wifi_block) :
  wiFiDeviceListIsUpdating s = true →
  updateNetif_wifi_block s int =
  if wifi_named int then
    {| wifiDeviceHwAddr :=
         <[wb_name int := {| hwAddr := default "" (wb_ether int);
                             inetAddr := wb_inet int; removed := false |}]>
           (wifiDeviceHwAddr s);
       wiFiDeviceListIsModified :=
         wiFiDeviceListIsModified s ||
         negb (bool_decide (wifi_devices s !! wb_name int =
                            Some (default "" (wb_ether int), wb_inet int)));
       wiFiDeviceListIsUpdating := true |}
  else s.
Proof.
  intros Hu. unfold updateNetif_wifi_block, wifi_named.
  destruct (String.prefix "wlan" (wb_name int)); [|done].
  destruct (wb_ether int) as [hw|]; cbn [andb default].
  - rewrite bool_decide_eq_true_2 by by eexists. by rewrite wiFiDeviceListAdd_run.
  - rewrite bool_decide_eq_false_2; [done|]. by intros [? [=]].
Qed.

Lemma wifi_report_block_run m int :
  wifi_report_block m int =
  if wifi_named int
  then <[wb_name int := (default "" (wb_ether int), wb_inet int)]> m else m.
Proof.
  unfold wifi_report_block, wifi_named.
  destruct (String.prefix "wlan" (wb_name int)); [|done].
  destruct (wb_ether int) as [hw|]; cbn [andb default].
  - by rewrite bool_decide_eq_true_2 by by eexists.
  - rewrite bool_decide_eq_false_2; [done|]. by intros [? [=]].
Qed.

(** The list in the middle of an update, after the blocks [l]: a device
    that a block has named is as the last such block says, and the others
    are as they were. *)
Lemma wifi_scan (l : list wifi_block) (s : wifi_list) :
  wiFiDeviceListIsUpdating s = true →
  let s' := foldl updateNetif_wifi_block s l in
  wiFiDeviceListIsUpdating s' = true ∧
  ∀ n, wifiDeviceHwAddr s' !! n =
       match wifi_report l !! n with
       | Some (hw, inet) => Some {| hwAddr := hw; inetAddr := inet; removed := false |}
       | None => wifiDeviceHwAddr s !! n
       end.
Proof.
  intros Hu. induction l as [|int l IH] using rev_ind.
  - split; [done|]. intros n. unfold wifi_report. cbn. by rewrite lookup_empty.
  - cbv zeta in *. unfold wifi_report in *. rewrite !foldl_snoc.
    destruct IH as [Hu' IH].
    rewrite updateNetif_wifi_block_run by done. rewrite wifi_report_block_run.
    destruct (wifi_named int); [|done]. split; [done|]. intros n. cbn.
    destruct (decide (wb_name int = n)) as [<-|Hn].
    + by rewrite !lookup_insert_eq.
    + rewrite !lookup_insert_ne by done. apply IH.
Qed.

(** No change was flagged only if every device named so far was already
    in the list with the same addresses. *)
Lemma wifi_scan_quiet (l : list wifi_block) (s : wifi_list) :
  wiFiDeviceListIsUpdating s = true →
  wiFiDeviceListIsModified (foldl updateNetif_wifi_block s l) = false →
  wiFiDeviceListIsModified s = false ∧
  ∀ n x, wifi_report l !! n = Some x → wifi_devices s !! n = Some x.
Proof.
  intros Hu. induction l as [|int l IH] using rev_ind.
  - intros Hm. split; [done|]. intros n x. unfold wifi_report. cbn.
    by rewrite lookup_empty.
  - destruct (wifi_scan l s Hu) as [Hu' Hmap]. cbv zeta in *.
    unfold wifi_report in *. rewrite !foldl_snoc.
    rewrite updateNetif_wifi_block_run by done. rewrite wifi_report_block_run.
    destruct (wifi_named int); [|done]. cbn.
    intros [Hm Hsame]%orb_false_elim. apply negb_false_iff, bool_decide_eq_true in Hsame.
    destruct (IH Hm) as [Hm0 Hrep]. split; [done|]. intros n x.
    destruct (decide (wb_name int = n)) as [<-|Hn].
    + rewrite lookup_insert_eq. intros [= <-].
      unfold wifi_devices in Hsame. rewrite lookup_fmap, Hmap in Hsame.
      destruct (foldl wifi_report_block ∅ l !! wb_name int) as [[hw inet]|] eqn:Hr.
      * cbn in Hsame. rewrite <- Hsame. by apply Hrep.
      * unfold wifi_devices. by rewrite lookup_fmap.
    + rewrite lookup_insert_ne by done. apply Hrep.
Qed.

Lemma wifi_report_unnamed (l : list wifi_block) (n : string) :
  n ∉ wb_name <$> filter (λ int, wifi_named int = true) l →
  wifi_report l !! n = None.
Proof.
  induction l as [|int l IH] using rev_ind; intros Hn.
  - unfold wifi_report. cbn. apply lookup_empty.
  - unfold wifi_report in *. rewrite foldl_snoc, wifi_report_block_run.
    rewrite filter_app, fmap_app in Hn. apply not_elem_of_app in Hn as [Hl Hint].
    destruct (wifi_named int) eqn:Hnamed; [|by apply IH].
    rewrite filter_cons_True in Hint by done. cbn in Hint.
    apply not_elem_of_cons in Hint as [Hne _].
    rewrite lookup_insert_ne by done. by apply IH.
Qed.

(** With no device named twice, no change is flagged if every device
    named is already in the list with the same addresses. *)
Lemma wifi_scan_same (l : list wifi_block) (s : wifi_list) :
  wiFiDeviceListIsUpdating s = true →
  NoDup (wb_name <$> filter (λ int, wifi_named int = true) l) →
  wiFiDeviceListIsModified s = false →
  (∀ n x, wifi_report l !! n = Some x → wifi_devices s !! n = Some x) →
  wiFiDeviceListIsModified (foldl updateNetif_wifi_block s l) = false.
Proof.
  intros Hu. induction l as [|int l IH] using rev_ind; intros Hnd Hm Hrep; [done|].
  destruct (wifi_scan l s Hu) as [Hu' Hmap]. cbv zeta in *.
  unfold wifi_report in *. rewrite foldl_snoc.
  rewrite foldl_snoc, wifi_report_block_run in Hrep.
  rewrite updateNetif_wifi_block_run by done.
  rewrite filter_app, fmap_app in Hnd. apply NoDup_app in Hnd as (Hnd & Hdisj & _).
  destruct (wifi_named int) eqn:Hnamed.
  - rewrite filter_cons_True in Hdisj by done. cbn in Hdisj.
    assert (wb_name int ∉ wb_name <$> filter (λ int, wifi_named int = true) l) as Hfresh.
    { intros Hin. apply (Hdisj _ Hin). left. }
    pose proof (wifi_report_unnamed l _ Hfresh) as Hnone. unfold wifi_report in Hnone.
    cbn. rewrite IH; [|done|done|].
    + cbn. apply negb_false_iff, bool_decide_eq_true.
      unfold wifi_devices. rewrite lookup_fmap, Hmap, Hnone.
      specialize (Hrep (wb_name int) _ (lookup_insert_eq _ _ _)).
      unfold wifi_devices in Hrep. by rewrite lookup_fmap in Hrep.
    + intros n x Hx. apply Hrep. rewrite lookup_insert_ne; [done|].
      intros <-. congruence.
  - by apply IH.
Qed.

(** X18.  One pass of [updateNetif] over a report of [ifconfig], begun
    with no update in progress, raises no exception and leaves the list
    of Wi-Fi devices holding exactly the [wlan] interfaces of the report
    that have a hardware address, with their addresses, and no update in
    progress.  If it reports no change, the devices are those of before;
    and if the report names no device twice and the devices are those of
    before, it reports no change. *)
Theorem updateNetif_wifi_spec (interfaces : list wifi_block) (s : wifi_list) :
  wiFiDeviceListIsUpdating s = false →
  ∃ modified s',
    updateNetif_wifi interfaces s = Some (modified, s') ∧
    wiFiDeviceListIsUpdating s' = false ∧
    wifi_devices s' = wifi_report interfaces ∧
    (modified = false → wifi_devices s' = wifi_devices s) ∧
    (NoDup (wb_name <$> filter (λ int, wifi_named int = true) interfaces) →
     wifi_devices s' = wifi_devices s → modified = false).
Proof.
  intros Hu. unfold updateNetif_wifi, wiFiDeviceListStartUpdate. rewrite Hu. cbn.
  set (s1 := {| wifiDeviceHwAddr := _ <$> wifiDeviceHwAddr s;
                wiFiDeviceListIsModified := false;
                wiFiDeviceListIsUpdating := true |}).
  assert (wiFiDeviceListIsUpdating s1 = true) as Hu1 by done.
  assert (wifi_devices s1 = wifi_devices s) as Hdev1.
  { unfold wifi_devices. subst s1. cbn. rewrite <- map_fmap_compose.
    apply map_fmap_ext. by intros ? [] _. }
  assert (∀ n d, wifiDeviceHwAddr s1 !! n = Some d → removed d = true) as Hrem1.
  { intros n d. subst s1. cbn. rewrite lookup_fmap.
    destruct (wifiDeviceHwAddr s !! n); [|done]. by intros [= <-]. }
  destruct (wifi_scan interfaces s1 Hu1) as [Hu2 Hmap]. cbv zeta in *.
  pose proof (wifi_scan_quiet interfaces s1 Hu1) as Hquiet.
  pose proof (wifi_scan_same interfaces s1 Hu1) as Hsame.
  set (s2 := foldl updateNetif_wifi_block s1 interfaces) in *.
  unfold wiFiDeviceListEndUpdate. rewrite Hu2. cbn [negb].
  eexists _, _. split; [reflexivity|]. split; [done|].
  assert (wifi_devices
            {| wifiDeviceHwAddr :=
                 filter (λ kd : string * wifi_device, removed kd.2 = false)
                   (wifiDeviceHwAddr s2);
               wiFiDeviceListIsModified :=
                 if bool_decide (map_Forall (λ _ d, removed d = false) (wifiDeviceHwAddr s2))
                 then wiFiDeviceListIsModified s2 else true;
               wiFiDeviceListIsUpdating := false |} = wifi_report interfaces) as Hfinal.
  { apply map_eq. intros n. unfold wifi_devices. cbn. rewrite lookup_fmap.
    destruct (wifi_report interfaces !! n) as [[hw inet]|] eqn:Hr.
    - assert (filter (λ kd : string * wifi_device, removed kd.2 = false)
                (wifiDeviceHwAddr s2) !! n =
              Some {| hwAddr := hw; inetAddr := inet; removed := false |}) as ->; [|done].
      apply map_lookup_filter_Some. by rewrite Hmap, Hr.
    - assert (filter (λ kd : string * wifi_device, removed kd.2 = false)
                (wifiDeviceHwAddr s2) !! n = None) as ->; [|done].
      apply map_lookup_filter_None. right. intros d. rewrite Hmap, Hr. intros Hd.
      cbn. by rewrite (Hrem1 _ _ Hd). }
  split; [done|]. rewrite Hfinal. split.
  - destruct (bool_decide_reflect
      (map_Forall (λ _ d, removed d = false) (wifiDeviceHwAddr s2))) as [Hall|]; [|done].
    intros Hm. destruct (Hquiet Hm) as [_ Hrep]. rewrite Hdev1 in Hrep.
    apply map_eq. intros n.
    destruct (wifi_report interfaces !! n) as [x|] eqn:Hr; [symmetry; by apply Hrep|].
    rewrite <- Hdev1. unfold wifi_devices. rewrite lookup_fmap.
    destruct (wifiDeviceHwAddr s1 !! n) as [d|] eqn:Hd; [|done].
    specialize (Hall n d). rewrite Hmap, Hr in Hall. specialize (Hall Hd).
    rewrite (Hrem1 _ _ Hd) in Hall. done.
  - intros Hnd Heq.
    rewrite bool_decide_eq_true_2.
    + apply Hsame; [done|done|]. intros n x Hx. by rewrite Hdev1, <- Heq.
    + intros n d. rewrite Hmap.
      destruct (wifi_report interfaces !! n) as [[hw inet]|] eqn:Hr; [by intros [= <-]|].
      intros Hd. exfalso.
      assert (wifi_devices s1 !! n = None) as Hnone by by rewrite Hdev1, <- Heq.
      unfold wifi_devices in Hnone. by rewrite lookup_fmap, Hd in Hnone.
Qed.
(** ** Progress of a software update *)

(** X19.  While [apt-get] runs, the progress shown never goes back nor
    past the total: a chunk of output leaves each counter between 0 and
    the total and no smaller than it was, the total changes only while it
    is 0, and a chunk that changes the status has it broadcast.  The count
    of packages read in a chunk is not negative. *)
Theorem aptUpgrade_stdout_progress (data : apt_chunk) (s : soft_update) :
  in_progress s →
  (∀ n, ch_count data = Some n → 0 ≤ n) →
  let s' := (aptUpgrade_stdout data s).1 in
  let sendUpdate := (aptUpgrade_stdout data s).2 in
  in_progress s' ∧
  downloading s ≤ downloading s' ∧
  unpacking s ≤ unpacking s' ∧
  setting_up s ≤ setting_up s' ∧
  (total s ≠ 0 → total s' = total s) ∧
  (sendUpdate = false → s' = s).
Proof.
  intros (Hd & Hu & Hs) Hcount. unfold aptUpgrade_stdout, in_progress.
  destruct s as [d u st t]. cbn [downloading unpacking setting_up total] in *.
  destruct (Z.eqb_spec t 0) as [->|Ht].
  - assert (d = 0 ∧ u = 0 ∧ st = 0) as (-> & -> & ->) by lia.
    destruct (ch_count data) as [n|] eqn:Hn.
    + specialize (Hcount n eq_refl). cbn [downloading unpacking setting_up total].
      destruct (Z.eqb_spec 0 n) as [<-|Hn0]; cbn [negb].
      * destruct (ch_unpacking data), (ch_setting_up data);
          cbn [fst snd downloading unpacking setting_up total]; repeat split; lia || done.
      * destruct (ch_get data) as [i|]; [destruct (Z.gtb_spec i 0)|];
          destruct (ch_unpacking data), (ch_setting_up data);
          cbn [fst snd downloading unpacking setting_up total]; repeat split; lia || done.
    + cbn [downloading unpacking setting_up total Z.eqb negb].
      destruct (ch_unpacking data), (ch_setting_up data);
        cbn [fst snd downloading unpacking setting_up total]; repeat split; lia || done.
  - cbn [downloading unpacking setting_up total].
    destruct (Z.eqb_spec d t) as [->|Hdt]; cbn [negb].
    + destruct (ch_unpacking data), (ch_setting_up data);
        cbn [fst snd downloading unpacking setting_up total]; repeat split; lia || done.
    + destruct (ch_get data) as [i|]; [destruct (Z.gtb_spec i d)|];
        destruct (ch_unpacking data), (ch_setting_up data);
        cbn [fst snd downloading unpacking setting_up total]; repeat split; lia || done.
Qed.

(** ** The properties on the concrete appliance *)

(** X5 after a first run on [config.json] holding a maximum bitrate. *)
Lemma files_in_sync_witness :
  let w := run ex_setup ex_pipelines ex_hashSync ex_hrtime ex_first_run
             (startup (Some {[ "max_br" := JNum 4000 ]}) None) in
  (∀ doc, fs w !! CONFIG_FILE = Some (FJson doc) →
     doc = JSON_stringify (<["ssh_pass_hash" := sshPasswordHash w]> (config w))) ∧
  (∀ doc, fs w !! AUTH_TOKENS_FILE = Some (FJson doc) →
     doc = gset_to_gmap (JBool true) (persistentTokens w)) ∧
  -1 ≤ prevRemoteBindAddr w.
Proof.
  apply (files_in_sync ex_setup ex_pipelines ex_hashSync ex_hrtime
           (Some {[ "max_br" := JNum 4000 ]}) None ex_first_run).
  intros doc [= <-] k Hk. by apply lookup_singleton_Some in Hk as [_ [=]].
Defined.


(** X7: a client that has not logged in asks an appliance with a password
    to stop and to start. *)
Lemma handleMessage_unauthenticated_witness :
  handleMessage ex_setup ex_pipelines ex_hashSync ex_hrtime 1
    [FStop; FStart ex_start] false 0 ex_with_password = ((), ex_with_password).
Proof.
  apply handleMessage_unauthenticated; [vm_compute; reflexivity|].
  right. split; [vm_compute; reflexivity|].
  intros (m & t & Hin & _).
  repeat (apply elem_of_cons in Hin as [Hin|Hin]; [discriminate|]).
  by apply elem_of_nil in Hin.
Defined.

(** X8: a login that asks for a persistent token. *)
Lemma login_round_trip_witness :
  let k := {| k_conn := 1; k_password := "hunter2x";
              k_hash := JStr (ex_hashSync "hunter2x" 10);
              k_persistent_token := true |} in
  let w' := exec (tryAuth_callback ex_hrtime k true ex_token) ex_with_password in
  isAuthed (conn_get (k_conn k) w') = true ∧
  authToken (conn_get (k_conn k) w') = Some ex_token.
Proof.
  intros k w'.
  assert (truthy (js_get (config ex_with_password) "password_hash") = true) as Hpw
    by (vm_compute; reflexivity).
  pose proof (login_round_trip ex_hrtime k ex_token ex_with_password Hpw) as H.
  cbv zeta in H. destruct H as (H1 & H2 & _). split; [exact H1|exact H2].
Defined.

(** X9: the client of the C5 example logs out. *)
Lemma logout_revokes_witness :
  let msg := {| a_password := None; a_persistent_token := false;
                a_token := Some ex_token |} in
  let w := exec (tryAuth ex_hrtime 1 msg) ex_with_password in
  let w' := exec (handleMessage ex_setup ex_pipelines ex_hashSync ex_hrtime 1
                    [FLogout] false 0) w in
  isAuthed (conn_get 1 w') = false ∧ authToken (conn_get 1 w') = None.
Proof.
  intros msg w w'.
  assert (isAuthed (conn_get 1 w) = true) as Ha by (vm_compute; reflexivity).
  assert (authToken (conn_get 1 w) = Some ex_token) as Ht by (vm_compute; reflexivity).
  assert (ex_token ≠ "") as Hne by done.
  pose proof (logout_revokes ex_setup ex_pipelines ex_hashSync ex_hrtime 1 ex_token 0 w
                Ha Ht Hne ex_token_plain) as H.
  cbv zeta in H. destruct H as (H1 & H2 & _). split; [exact H1|exact H2].
Defined.


(** X13 on an appliance with one interface. *)
Lemma getRemoteBindAddr_round_robin_witness :
  netif (exec getRemoteBindAddr ex_keyed) = netif ex_keyed ∧
  prevRemoteBindAddr (exec getRemoteBindAddr ex_keyed) = 0.
Proof.
  assert (NoDup (netif ex_keyed).*1) as Hnd by apply NoDup_singleton.
  assert (-1 ≤ prevRemoteBindAddr ex_keyed) as Hp by by vm_compute.
  pose proof (getRemoteBindAddr_round_robin ex_keyed Hnd Hp) as H.
  cbv zeta in H. destruct H as [H1 H2]. split; [exact H1|].
  destruct (decide (Z.of_nat (length (netif ex_keyed)) = 0)) as [Hn|_];
    [by vm_compute in Hn|].
  destruct H2 as (H2 & _). rewrite H2. vm_compute. reflexivity.
Defined.

(** X14: the appliance with a key connects over its interface. *)
Lemma remoteConnect_grace_witness :
  let w1 := exec (remoteConnect ex_hrtime 7) ex_keyed in
  remoteWs w1 = Some 7%nat ∧ isAuthed (conn_get 7 w1) = false.
Proof.
  intros w1.
  assert (EConnect 7 "10.0.0.2" ∈ new_events ex_keyed w1) as Hin.
  { assert (new_events ex_keyed w1 = [EConnect 7 "10.0.0.2"]) as ->
      by (vm_compute; reflexivity).
    left. }
  pose proof (remoteConnect_grace ex_hrtime 7 "10.0.0.2" ex_keyed) as H.
  cbv zeta in H. destruct (H Hin) as (H1 & H2 & _). split; [exact H1|exact H2].
Defined.

(** X16: the client of the C5 example presents its token. *)
Lemma authentication_needs_credentials_witness :
  let msg := [ FAuth {| a_password := None; a_persistent_token := false;
                        a_token := Some ex_token |} ] in
  let r := Message 1 msg 0 in
  (∃ msg sock m, r = Message 1 msg sock ∧ FAuth m ∈ msg ∧
                 valid_token ex_with_password m) ∨
  (∃ k fresh, r = PasswordCompared k true fresh ∧ k_conn k = 1%nat) ∨
  (∃ msg id sock, r = RemoteMessage 1 (Some (Some (JBool true))) msg id sock).
Proof.
  intros msg r.
  apply (authentication_needs_credentials ex_setup ex_pipelines ex_hashSync ex_hrtime 1).
  - vm_compute. reflexivity.
  - vm_compute. reflexivity.
Defined.

(** X17: the login of the X8 example. *)
Lemma token_issued_by_login_witness :
  let k := {| k_conn := 1; k_password := "hunter2x";
              k_hash := JStr (ex_hashSync "hunter2x" 10);
              k_persistent_token := false |} in
  ∃ k', PasswordCompared k true "fresh" = PasswordCompared k' true "fresh".
Proof.
  intros k.
  apply (token_issued_by_login ex_setup ex_pipelines ex_hashSync ex_hrtime "fresh"
           (PasswordCompared k true "fresh") ex_with_password).
  - split; apply (bool_decide_unpack _); vm_compute; exact I.
  - intros [H _]. apply H. apply (bool_decide_unpack _). vm_compute. exact I.
Defined.

(** X18: a first report with a wireless and a wired interface. *)
Lemma updateNetif_wifi_spec_witness :
  let s := {| wifiDeviceHwAddr := ∅; wiFiDeviceListIsModified := false;
              wiFiDeviceListIsUpdating := false |} in
  let report :=
    [ {| wb_name := "wlan0"; wb_ether := Some "00:0f:60:01:02:03";
         wb_inet := Some "192.168.1.7" |};
      {| wb_name := "eth0"; wb_ether := Some "00:04:4b:01:02:03";
         wb_inet := Some "10.0.0.2" |} ] in
  ∃ modified s',
    updateNetif_wifi report s = Some (modified, s') ∧
    wiFiDeviceListIsUpdating s' = false ∧
    wifi_devices s' = wifi_report report ∧
    (modified = false → wifi_devices s' = wifi_devices s) ∧
    (NoDup (wb_name <$> filter (λ int, wifi_named int = true) report) →
     wifi_devices s' = wifi_devices s → modified = false).
Proof.
  intros s report. apply (updateNetif_wifi_spec report s). reflexivity.
Defined.

(** X19: the first chunk of output names three packages and the first
    download. *)
Lemma aptUpgrade_stdout_progress_witness :
  let s := {| downloading := 0; unpacking := 0; setting_up := 0; total := 0 |} in
  let data := {| ch_count := Some 3; ch_get := Some 1; ch_unpacking := 0;
                 ch_setting_up := 0 |} in
  let s' := (aptUpgrade_stdout data s).1 in
  in_progress s' ∧ downloading s ≤ downloading s' ∧ unpacking s ≤ unpacking s' ∧
  setting_up s ≤ setting_up s' ∧ (total s ≠ 0 → total s' = total s) ∧
  ((aptUpgrade_stdout data s).2 = false → s' = s).
Proof.
  intros s data. apply (aptUpgrade_stdout_progress data s).
  - unfold in_progress. cbn. lia.
  - intros n [= <-]. lia.
Defined.
